(** * Client-side session refresh and appearance resolution

    A shallow embedding of the TypeScript sources of the web client:

    - [lib/appearance.ts]: preference persistence, legacy palette renames and
      palette token generation;
    - [contexts/AppearanceContext.tsx]: normalisation and selection of the
      active palette;
    - [lib/axios.ts]: the response interceptor with its single shared refresh
      promise;
    - [contexts/AuthContext.tsx]: [refreshUser] with its in-flight guard.

    Conventions.  A JavaScript string is a [string] whose characters are code
    units below 256 (every identifier, URL and colour the program compares
    against is ASCII).  A JavaScript exception is the [Throw] constructor of
    [completion].  Numbers that are integers by construction are carried as
    [Z]; the one place where the program computes on fractional doubles
    ([lightenChannel]) uses binary64 floats.  Asynchronous code is a
    transition system whose steps are the synchronous segments between two
    suspension points. *)

From Stdlib Require Import ZArith QArith Qround Qminmax String Ascii List Bool Lia.
From Stdlib Require Import Floats DecimalString.
From stdpp Require Import gmap strings.
Import ListNotations.

Set Warnings "-inexact-float,-register-all".
Local Open Scope string_scope.
Local Open Scope Z_scope.

(** ** Completions: a value or a thrown [Error] *)

Inductive completion (A : Type) : Type :=
| Normal (value : A)
| Throw (message : string).
Arguments Normal {A} value.
Arguments Throw {A} message.

#[global] Instance completion_ret : MRet completion := fun _ a => Normal a.

#[global] Instance completion_bind : MBind completion := fun _ _ k c =>
  match c with
  | Normal a => k a
  | Throw m => Throw m
  end.

(** ** The string primitives the program calls *)

Module JsString.

(** [WhiteSpace] and [LineTerminator] code units below 256: TAB, LF, VT, FF,
    CR, SPACE and NBSP. *)
Definition isWhiteSpace (c : ascii) : bool :=
  let n := N_of_ascii c in
  ((9 <=? n) && (n <=? 13) || (n =? 32) || (n =? 160))%N.

Fixpoint trimStart (s : string) : string :=
  match s with
  | EmptyString => EmptyString
  | String c rest => if isWhiteSpace c then trimStart rest else s
  end.

Fixpoint trimEnd (s : string) : string :=
  match s with
  | EmptyString => EmptyString
  | String c rest =>
      match trimEnd rest with
      | EmptyString => if isWhiteSpace c then EmptyString else String c EmptyString
      | kept => String c kept
      end
  end.

(** [String.prototype.trim] *)
Definition trim (s : string) : string := trimEnd (trimStart s).

(** [String.prototype.includes] *)
Fixpoint includes (s needle : string) : bool :=
  String.prefix needle s
  || match s with
     | EmptyString => false
     | String _ rest => includes rest needle
     end.

(** [String.prototype.slice] for [0 <= from <= to]. *)
Definition slice (s : string) (from to : nat) : string :=
  String.substring from (to - from) s.

(** [/\d/] *)
Definition isDigit (c : ascii) : bool :=
  let n := N_of_ascii c in ((48 <=? n) && (n <=? 57))%N.

(** [/[\da-fA-F]/] *)
Definition isHexDigit (c : ascii) : bool :=
  let n := N_of_ascii c in
  ((48 <=? n) && (n <=? 57) || (97 <=? n) && (n <=? 102) || (65 <=? n) && (n <=? 70))%N.

Definition hexDigitValue (c : ascii) : Z :=
  let n := Z.of_N (N_of_ascii c) in
  if isDigit c then n - 48
  else if (97 <=? n) then n - 87
  else n - 55.

(** The longest prefix of hexadecimal digits, read most significant first. *)
Fixpoint hexPrefix (acc : option Z) (s : string) : option Z :=
  match s with
  | String c rest =>
      if isHexDigit c
      then hexPrefix (Some (16 * default 0 acc + hexDigitValue c)) rest
      else acc
  | EmptyString => acc
  end.

Definition stripHexMarker (s : string) : string :=
  match s with
  | String "0" (String "x" rest) => rest
  | String "0" (String "X" rest) => rest
  | _ => s
  end.

(** [Number.parseInt(value, 16)]: leading white space and one sign are
    skipped, then an optional [0x], then the longest run of digits; [None]
    is [NaN] (no digit at all). *)
Definition parseInt16 (value : string) : option Z :=
  let s := trimStart value in
  let '(negative, s) :=
    match s with
    | String "-" rest => (true, rest)
    | String "+" rest => (false, rest)
    | _ => (false, s)
    end in
  match hexPrefix None (stripHexMarker s) with
  | Some n => Some (if negative : bool then - n else n)
  | None => None
  end.

(** [`${n}`] for an integer [n]. *)
Definition ofInteger (n : Z) : string := NilEmpty.string_of_int (Z.to_int n).

End JsString.

(** ** The [Math] functions of [lightenChannel], on binary64 *)

Module JsMath.

Definition ofInteger (z : Z) : float := PrimFloat.of_uint63 (Uint63.of_Z z).

Definition isNegativeZero (x : float) : bool :=
  PrimFloat.is_zero x && PrimFloat.get_sign x.

(** [Math.min] and [Math.max] of two numbers. *)
Definition min (a b : float) : float :=
  if PrimFloat.is_nan a || PrimFloat.is_nan b then PrimFloat.nan
  else if PrimFloat.ltb a b then a
  else if PrimFloat.ltb b a then b
  else if isNegativeZero a then a else b.

Definition max (a b : float) : float :=
  if PrimFloat.is_nan a || PrimFloat.is_nan b then PrimFloat.nan
  else if PrimFloat.ltb a b then b
  else if PrimFloat.ltb b a then a
  else if isNegativeZero a then b else a.

(** [Math.round] of a finite number, as an integer: the nearest integer,
    ties towards plus infinity.  A finite double is [m * 2^e] exactly, so the
    rounding is exact integer arithmetic.  On [NaN] and the infinities
    [Math.round] returns its argument; [lightenChannel] never reaches them
    and the model returns [0] there. *)
Definition roundToInteger (x : float) : Z :=
  match Prim2SF x with
  | S754_finite negative m e =>
      let mant := if negative then Z.neg m else Z.pos m in
      if 0 <=? e then mant * 2 ^ e
      else (2 * mant + 2 ^ (- e)) / 2 ^ (- e + 1)
  | _ => 0
  end.

End JsMath.

(** ** [JSON.parse] and [JSON.stringify]

    The built-in reader as a lexer followed by a stack automaton over the
    tokens, both structurally recursive, so that every text either parses or
    is rejected: there is no bound on depth or length. *)

Module Json.

Inductive json : Type :=
| JNull
| JBool (b : bool)
| JNumber (lexeme : string)
| JString (s : string)
| JArray (items : list json)
| JObject (fields : list (string * json)).

(** Own data properties in creation order; a repeated key keeps its place
    and takes the later value. *)
Fixpoint setField (key : string) (v : json) (fields : list (string * json))
  : list (string * json) :=
  match fields with
  | [] => [(key, v)]
  | (k, old) :: rest =>
      if String.eqb k key then (k, v) :: rest else (k, old) :: setField key v rest
  end.

Fixpoint getField (key : string) (fields : list (string * json)) : option json :=
  match fields with
  | [] => None
  | (k, v) :: rest => if String.eqb k key then Some v else getField key rest
  end.

(** *** Lexer *)

Inductive token : Type :=
| TLBrace | TRBrace | TLBracket | TRBracket | TColon | TComma
| TString (s : string)
| TNumber (lexeme : string)
| TTrue | TFalse | TNull.

Definition doubleQuote : ascii := ascii_of_N 34.

Definition isJsonSpace (c : ascii) : bool :=
  let n := N_of_ascii c in ((n =? 32) || (n =? 9) || (n =? 10) || (n =? 13))%N.

(** Characters of a number or of [true], [false], [null]. *)
Definition isWordChar (c : ascii) : bool :=
  let n := N_of_ascii c in
  ((48 <=? n) && (n <=? 57) || (97 <=? n) && (n <=? 122) || (65 <=? n) && (n <=? 90)
   || (n =? 43) || (n =? 45) || (n =? 46))%N.

Fixpoint allDigits (s : list ascii) : bool :=
  match s with
  | [] => true
  | c :: rest => JsString.isDigit c && allDigits rest
  end.

Fixpoint spanDigits (s : list ascii) : list ascii * list ascii :=
  match s with
  | c :: rest =>
      if JsString.isDigit c
      then let '(ds, tail) := spanDigits rest in (c :: ds, tail)
      else ([], s)
  | [] => ([], [])
  end.

Definition isExponent (s : list ascii) : bool :=
  match s with
  | [] => true
  | e :: rest =>
      (Ascii.eqb e "e" || Ascii.eqb e "E")
      && match rest with
         | sign :: ds =>
             if Ascii.eqb sign "+" || Ascii.eqb sign "-"
             then negb (Nat.eqb (length ds) 0) && allDigits ds
             else allDigits rest
         | [] => false
         end
  end.

Definition isFractionThenExponent (s : list ascii) : bool :=
  match s with
  | dot :: rest =>
      if Ascii.eqb dot "."
      then let '(ds, tail) := spanDigits rest in
           negb (Nat.eqb (length ds) 0) && isExponent tail
      else isExponent s
  | [] => true
  end.

(** The number grammar: an optional minus sign; a zero or a digit run that
    does not start with zero; an optional fraction; an optional exponent. *)
Definition isNumberLexeme (s : list ascii) : bool :=
  let unsigned := match s with
                  | c :: rest => if Ascii.eqb c "-" then rest else s
                  | [] => s
                  end in
  match unsigned with
  | c :: rest =>
      if Ascii.eqb c "0" then isFractionThenExponent rest
      else if JsString.isDigit c
           then let '(_, tail) := spanDigits rest in isFractionThenExponent tail
           else false
  | [] => false
  end.

Definition wordToken (word : list ascii) : option token :=
  let w := string_of_list_ascii word in
  if String.eqb w "true" then Some TTrue
  else if String.eqb w "false" then Some TFalse
  else if String.eqb w "null" then Some TNull
  else if isNumberLexeme word then Some (TNumber w)
  else None.

Inductive lexState : Type :=
| LIdle
| LWord (seen : list ascii)
| LString (seen : list ascii)
| LEscape (seen : list ascii)
| LUnicode (seen : list ascii) (digits : list ascii).

(** The reversed lists [seen] and [digits] hold what was read so far. *)

Definition punctuation (c : ascii) : option token :=
  if Ascii.eqb c "{" then Some TLBrace
  else if Ascii.eqb c "}" then Some TRBrace
  else if Ascii.eqb c "[" then Some TLBracket
  else if Ascii.eqb c "]" then Some TRBracket
  else if Ascii.eqb c ":" then Some TColon
  else if Ascii.eqb c "," then Some TComma
  else None.

Definition lexIdle (c : ascii) (out : list token) : option (lexState * list token) :=
  if isJsonSpace c then Some (LIdle, out)
  else if Ascii.eqb c doubleQuote then Some (LString [], out)
  else if isWordChar c then Some (LWord [c], out)
  else match punctuation c with
       | Some t => Some (LIdle, t :: out)
       | None => None
       end.

Definition escapeChar (c : ascii) : option ascii :=
  if Ascii.eqb c doubleQuote then Some c
  else if Ascii.eqb c "\" then Some c
  else if Ascii.eqb c "/" then Some c
  else if Ascii.eqb c "b" then Some (ascii_of_N 8)
  else if Ascii.eqb c "f" then Some (ascii_of_N 12)
  else if Ascii.eqb c "n" then Some (ascii_of_N 10)
  else if Ascii.eqb c "r" then Some (ascii_of_N 13)
  else if Ascii.eqb c "t" then Some (ascii_of_N 9)
  else None.

(** The code unit of a [\uXXXX] escape.  A unit above 255 has no place in
    a [string]; it is read as the unit 255, which occurs in no string the
    program compares against, so every comparison keeps its answer. *)
Definition unicodeChar (digits : list ascii) : ascii :=
  let code := fold_left (fun acc d => 16 * acc + JsString.hexDigitValue d) digits 0 in
  if code <? 256 then ascii_of_N (Z.to_N code) else ascii_of_N 255.

Definition lexStep (st : lexState) (c : ascii) (out : list token)
  : option (lexState * list token) :=
  match st with
  | LIdle => lexIdle c out
  | LWord seen =>
      if isWordChar c then Some (LWord (c :: seen), out)
      else match wordToken (rev seen) with
           | Some t => lexIdle c (t :: out)
           | None => None
           end
  | LString seen =>
      if Ascii.eqb c doubleQuote then Some (LIdle, TString (string_of_list_ascii (rev seen)) :: out)
      else if Ascii.eqb c "\" then Some (LEscape seen, out)
      else if (N_of_ascii c <? 32)%N then None
      else Some (LString (c :: seen), out)
  | LEscape seen =>
      if Ascii.eqb c "u" then Some (LUnicode seen [], out)
      else match escapeChar c with
           | Some e => Some (LString (e :: seen), out)
           | None => None
           end
  | LUnicode seen digits =>
      if JsString.isHexDigit c
      then if Nat.eqb (length digits) 3
           then Some (LString (unicodeChar (rev (c :: digits)) :: seen), out)
           else Some (LUnicode seen (c :: digits), out)
      else None
  end.

Fixpoint lexFrom (st : lexState) (out : list token) (s : string) : option (list token) :=
  match s with
  | String c rest =>
      match lexStep st c out with
      | Some (st', out') => lexFrom st' out' rest
      | None => None
      end
  | EmptyString =>
      match st with
      | LIdle => Some (rev out)
      | LWord seen =>
          match wordToken (rev seen) with
          | Some t => Some (rev (t :: out))
          | None => None
          end
      | _ => None
      end
  end.

Definition lex (s : string) : option (list token) := lexFrom LIdle [] s.

(** *** Parser *)

Inductive frame : Type :=
| FArray (itemsRev : list json)
| FObject (fields : list (string * json)) (pendingKey : option string).

Inductive expect : Type :=
| EValue            (* a value *)
| EValueOrClose     (* just after an opening bracket *)
| EKeyOrClose       (* just after an opening brace *)
| EKey              (* after a comma inside an object *)
| EColon
| ECommaOrClose
| EDone (v : json).

Definition deliver (v : json) (stack : list frame) : option (expect * list frame) :=
  match stack with
  | [] => Some (EDone v, [])
  | FArray items :: below => Some (ECommaOrClose, FArray (v :: items) :: below)
  | FObject fields (Some key) :: below =>
      Some (ECommaOrClose, FObject (setField key v fields) None :: below)
  | FObject _ None :: _ => None
  end.

Definition startValue (t : token) (stack : list frame) : option (expect * list frame) :=
  match t with
  | TString s => deliver (JString s) stack
  | TNumber n => deliver (JNumber n) stack
  | TTrue => deliver (JBool true) stack
  | TFalse => deliver (JBool false) stack
  | TNull => deliver JNull stack
  | TLBracket => Some (EValueOrClose, FArray [] :: stack)
  | TLBrace => Some (EKeyOrClose, FObject [] None :: stack)
  | _ => None
  end.

Definition closeFrame (t : token) (stack : list frame) : option (expect * list frame) :=
  match t, stack with
  | TRBracket, FArray items :: below => deliver (JArray (rev items)) below
  | TRBrace, FObject fields None :: below => deliver (JObject fields) below
  | _, _ => None
  end.

Definition takeKey (t : token) (stack : list frame) : option (expect * list frame) :=
  match t, stack with
  | TString key, FObject fields None :: below =>
      Some (EColon, FObject fields (Some key) :: below)
  | _, _ => None
  end.

Definition parseStep (e : expect) (stack : list frame) (t : token)
  : option (expect * list frame) :=
  match e with
  | EValue => startValue t stack
  | EValueOrClose =>
      match t with
      | TRBracket => closeFrame t stack
      | _ => startValue t stack
      end
  | EKeyOrClose =>
      match t with
      | TRBrace => closeFrame t stack
      | _ => takeKey t stack
      end
  | EKey => takeKey t stack
  | EColon =>
      match t with
      | TColon => Some (EValue, stack)
      | _ => None
      end
  | ECommaOrClose =>
      match t, stack with
      | TComma, FArray _ :: _ => Some (EValue, stack)
      | TComma, FObject _ _ :: _ => Some (EKey, stack)
      | _, _ => closeFrame t stack
      end
  | EDone _ => None
  end.

Fixpoint parseTokens (e : expect) (stack : list frame) (ts : list token) : option json :=
  match ts with
  | t :: rest =>
      match parseStep e stack t with
      | Some (e', stack') => parseTokens e' stack' rest
      | None => None
      end
  | [] =>
      match e with
      | EDone v => Some v
      | _ => None
      end
  end.

(** [JSON.parse]: a [SyntaxError] on a text that is not JSON. *)
Definition parse (text : string) : completion json :=
  match lex text with
  | Some ts =>
      match parseTokens EValue [] ts with
      | Some v => Normal v
      | None => Throw "SyntaxError"
      end
  | None => Throw "SyntaxError"
  end.

(** *** Printer *)

Definition hexDigitOf (n : N) : ascii :=
  if (n <? 10)%N then ascii_of_N (48 + n) else ascii_of_N (87 + n).

Definition quoteChar (c : ascii) : string :=
  let n := N_of_ascii c in
  if Ascii.eqb c doubleQuote then String "\" (String doubleQuote EmptyString)
  else if Ascii.eqb c "\" then "\\"
  else if (n =? 8)%N then "\b"
  else if (n =? 12)%N then "\f"
  else if (n =? 10)%N then "\n"
  else if (n =? 13)%N then "\r"
  else if (n =? 9)%N then "\t"
  else if (n <? 32)%N
       then String "\" (String "u" (String "0" (String "0"
              (String (hexDigitOf (n / 16)) (String (hexDigitOf (n mod 16)) EmptyString)))))
       else String c EmptyString.

Fixpoint quoteBody (s : string) : string :=
  match s with
  | EmptyString => EmptyString
  | String c rest => (quoteChar c ++ quoteBody rest)%string
  end.

Definition quote (s : string) : string :=
  String doubleQuote (quoteBody s ++ String doubleQuote EmptyString)%string.

Definition joinWithCommas (parts : list string) : string :=
  match parts with
  | [] => EmptyString
  | first :: others => fold_left (fun acc p => (acc ++ "," ++ p)%string) others first
  end.

(** [JSON.stringify] of a value built from JSON data. *)
Fixpoint stringify (v : json) : string :=
  match v with
  | JNull => "null"
  | JBool true => "true"
  | JBool false => "false"
  | JNumber lexeme => lexeme
  | JString s => quote s
  | JArray items =>
      ("[" ++ joinWithCommas (map stringify items) ++ "]")%string
  | JObject fields =>
      ("{" ++ joinWithCommas
                (map (fun kv => (quote (fst kv) ++ ":" ++ stringify (snd kv))%string) fields)
           ++ "}")%string
  end.

End Json.

(** ** lib/appearance.ts *)

Module Appearance.

Import JsString.

Inductive ThemeMode := ModeSystem | ModeLight | ModeDark.
Inductive ResolvedTheme := ThemeLight | ThemeDark.
Inductive ColorPalette := Catppuccin | TokyoNight | Everforest.

Definition COLOR_PALETTES : list ColorPalette := [Catppuccin; TokyoNight; Everforest].

Definition themeModeName (m : ThemeMode) : string :=
  match m with
  | ModeSystem => "system"
  | ModeLight => "light"
  | ModeDark => "dark"
  end.

Definition colorPaletteName (p : ColorPalette) : string :=
  match p with
  | Catppuccin => "catppuccin"
  | TokyoNight => "tokyo-night"
  | Everforest => "everforest"
  end.

Record AppearancePreferences := {
  mode : ThemeMode;
  palette : ColorPalette;
}.

Record PaletteSeedHexColors := {
  background_seed_hex : string;
  text_seed_hex : string;
  primary_seed_hex : string;
  secondary_seed_hex : string;
  green_seed_hex : string;
  red_seed_hex : string;
  yellow_seed_hex : string;
  blue_seed_hex : string;
  magenta_seed_hex : string;
  cyan_seed_hex : string;
}.

Record PaletteRgbTokens := {
  background : string;
  text : string;
  primary_100 : string;
  primary_80 : string;
  primary_60 : string;
  secondary_100 : string;
  secondary_80 : string;
  secondary_60 : string;
  black : string;
  white : string;
  green_100 : string;
  green_80 : string;
  green_60 : string;
  red_100 : string;
  red_80 : string;
  red_60 : string;
  yellow_100 : string;
  yellow_80 : string;
  yellow_60 : string;
  blue_100 : string;
  blue_80 : string;
  blue_60 : string;
  magenta_100 : string;
  magenta_80 : string;
  magenta_60 : string;
  cyan_100 : string;
  cyan_80 : string;
  cyan_60 : string;
}.

Definition APPEARANCE_STORAGE_KEY : string := "auth-template.appearance".

Definition DEFAULT_APPEARANCE_PREFERENCES : AppearancePreferences :=
  {| mode := ModeSystem; palette := TokyoNight |}.

(** [/^#[\da-fA-F]{6}$/] *)
Definition matchesHexColorPattern (s : string) : bool :=
  match s with
  | String "#" (String a (String b (String c (String d (String e (String f EmptyString)))))) =>
      isHexDigit a && isHexDigit b && isHexDigit c
      && isHexDigit d && isHexDigit e && isHexDigit f
  | _ => false
  end.

Definition isValidHexColor (value : string) : bool :=
  matchesHexColorPattern (trim value).

Definition parseHexChannel (value : string) : completion Z :=
  match parseInt16 value with
  | None => Throw "Invalid hex color channel"
  | Some channel => Normal channel
  end.

Definition parseHexToRgbChannels (hex : string) : completion (Z * Z * Z) :=
  let normalized := trim hex in
  if negb (isValidHexColor normalized)
  then Throw "Color must use 6-digit hex format."
  else
    r ← parseHexChannel (slice normalized 1 3);
    g ← parseHexChannel (slice normalized 3 5);
    b ← parseHexChannel (slice normalized 5 7);
    Normal (r, g, b).

Definition lightenChannel (channel : Z) (mixWithWhite : float) : Z :=
  let c := JsMath.ofInteger channel in
  let mixed := (c + (255 - c) * mixWithWhite)%float in
  JsMath.roundToInteger (JsMath.max 0 (JsMath.min 255 mixed)).

Definition toRgbTriplet (channels : Z * Z * Z) : string :=
  let '(r, g, b) := channels in
  (ofInteger r ++ ", " ++ ofInteger g ++ ", " ++ ofInteger b)%string.

Definition shadeHexColor (hex : string) (mixWithWhite : float) : completion string :=
  '(red, green, blue) ← parseHexToRgbChannels hex;
  Normal (toRgbTriplet (lightenChannel red mixWithWhite,
                        lightenChannel green mixWithWhite,
                        lightenChannel blue mixWithWhite)).

(** *** Stored preferences *)

Import Json.

(** A value of type [unknown]: [undefined] or JSON data. *)
Definition unknown : Type := option json.

Definition isRecord (value : json) : bool :=
  match value with
  | JObject _ | JArray _ => true
  | _ => false
  end.

(** [storedValue.mode], [storedValue.palette]: an own property of an object;
    an array has neither and nothing is inherited under these names. *)
Definition getProperty (value : json) (name : string) : unknown :=
  match value with
  | JObject fields => getField name fields
  | _ => None
  end.

Definition isThemeMode (value : unknown) : bool :=
  match value with
  | Some (JString s) => String.eqb s "system" || String.eqb s "light" || String.eqb s "dark"
  | _ => false
  end.

(** The narrowing [value is ThemeMode], used where [isThemeMode] holds. *)
Definition asThemeMode (value : unknown) : ThemeMode :=
  match value with
  | Some (JString s) =>
      if String.eqb s "light" then ModeLight
      else if String.eqb s "dark" then ModeDark
      else ModeSystem
  | _ => ModeSystem
  end.

(** What an index into [LEGACY_COLOR_PALETTE_MAP] evaluates to: one of its
    three entries, a member inherited from [Object.prototype] (not nullish,
    not a string), or [undefined]. *)
Inductive legacyEntry : Type :=
| LegacyEntry (current : ColorPalette)
| InheritedMember
| NoEntry.

Definition OBJECT_PROTOTYPE_KEYS : list string :=
  [ "constructor"; "__proto__"; "hasOwnProperty"; "isPrototypeOf";
    "propertyIsEnumerable"; "toLocaleString"; "toString"; "valueOf";
    "__defineGetter__"; "__defineSetter__"; "__lookupGetter__"; "__lookupSetter__" ].

Definition LEGACY_COLOR_PALETTE_MAP (key : string) : legacyEntry :=
  if String.eqb key "default" then LegacyEntry TokyoNight
  else if String.eqb key "sunset" then LegacyEntry Catppuccin
  else if String.eqb key "forest" then LegacyEntry Everforest
  else if existsb (String.eqb key) OBJECT_PROTOTYPE_KEYS then InheritedMember
  else NoEntry.

(** [COLOR_PALETTES.includes(value)] with the narrowing to [ColorPalette]. *)
Definition colorPaletteOfName (name : string) : option ColorPalette :=
  find (fun p => String.eqb (colorPaletteName p) name) COLOR_PALETTES.

(** The value of [normalizedPalette]: a string, something that is not a
    string, or [null]. *)
Inductive normalized : Type :=
| NString (s : string)
| NOther
| NNull.

Definition isColorPalette (value : normalized) : bool :=
  match value with
  | NString s => bool_decide (is_Some (colorPaletteOfName s))
  | _ => false
  end.

Definition asColorPalette (value : normalized) : ColorPalette :=
  match value with
  | NString s => default (palette DEFAULT_APPEARANCE_PREFERENCES) (colorPaletteOfName s)
  | _ => palette DEFAULT_APPEARANCE_PREFERENCES
  end.

Definition parseStoredPreferences (storedValue : json) : AppearancePreferences :=
  if negb (isRecord storedValue) then DEFAULT_APPEARANCE_PREFERENCES
  else
    let storedPalette : option string :=
      match getProperty storedValue "palette" with
      | Some (JString s) => Some s
      | _ => None
      end in
    let normalizedPalette : normalized :=
      match storedPalette with
      | Some EmptyString | None => NNull
      | Some s =>
          match LEGACY_COLOR_PALETTE_MAP s with
          | LegacyEntry current => NString (colorPaletteName current)
          | InheritedMember => NOther
          | NoEntry => NString s
          end
      end in
    {| mode := if isThemeMode (getProperty storedValue "mode")
               then asThemeMode (getProperty storedValue "mode")
               else mode DEFAULT_APPEARANCE_PREFERENCES;
       palette := if isColorPalette normalizedPalette
                  then asColorPalette normalizedPalette
                  else palette DEFAULT_APPEARANCE_PREFERENCES |}.

(** *** Storage

    [Pick<Storage, "getItem" | "setItem">]: a key-value store whose reads
    or writes may be refused with an exception (private mode, quota). *)
Record AppearanceStorage := {
  items : gmap string string;
  readsRefused : bool;
  writesRefused : bool;
}.

Definition getItem (storage : AppearanceStorage) (key : string)
  : completion (option string) :=
  if readsRefused storage then Throw "SecurityError"
  else Normal (items storage !! key).

Definition setItem (storage : AppearanceStorage) (key value : string)
  : completion AppearanceStorage :=
  if writesRefused storage then Throw "QuotaExceededError"
  else Normal {| items := <[key := value]> (items storage);
                 readsRefused := readsRefused storage;
                 writesRefused := writesRefused storage |}.

(** [try { body } catch { handler }] *)
Definition tryCatch {A} (body : completion A) (handler : completion A) : completion A :=
  match body with
  | Normal a => Normal a
  | Throw _ => handler
  end.

Definition loadAppearancePreferences (storage : option AppearanceStorage)
  : completion AppearancePreferences :=
  match storage with
  | None => Normal DEFAULT_APPEARANCE_PREFERENCES
  | Some storage =>
      tryCatch
        (rawPreferences ← getItem storage APPEARANCE_STORAGE_KEY;
         match rawPreferences with
         | None | Some EmptyString => Normal DEFAULT_APPEARANCE_PREFERENCES
         | Some raw =>
             parsedPreferences ← Json.parse raw;
             Normal (parseStoredPreferences parsedPreferences)
         end)
        (Normal DEFAULT_APPEARANCE_PREFERENCES)
  end.

(** The object [{ mode, palette }] as JSON data. *)
Definition preferencesObject (preferences : AppearancePreferences) : json :=
  JObject [ ("mode", JString (themeModeName (mode preferences)));
            ("palette", JString (colorPaletteName (palette preferences))) ].

(** Returns the storage as the call leaves it. *)
Definition persistAppearancePreferences
    (preferences : AppearancePreferences) (storage : option AppearanceStorage)
  : completion (option AppearanceStorage) :=
  match storage with
  | None => Normal None
  | Some storage =>
      tryCatch
        (written ← setItem storage APPEARANCE_STORAGE_KEY
                     (Json.stringify (preferencesObject preferences));
         Normal (Some written))
        (Normal (Some storage))
  end.

(** *** Palette tokens *)

Definition generatePaletteTokensFromSeeds (seedColors : PaletteSeedHexColors)
  : completion PaletteRgbTokens :=
  background ← shadeHexColor (background_seed_hex seedColors) 0;
  text ← shadeHexColor (text_seed_hex seedColors) 0;
  primary_100 ← shadeHexColor (primary_seed_hex seedColors) 0;
  primary_80 ← shadeHexColor (primary_seed_hex seedColors) 0.2;
  primary_60 ← shadeHexColor (primary_seed_hex seedColors) 0.4;
  secondary_100 ← shadeHexColor (secondary_seed_hex seedColors) 0;
  secondary_80 ← shadeHexColor (secondary_seed_hex seedColors) 0.2;
  secondary_60 ← shadeHexColor (secondary_seed_hex seedColors) 0.4;
  green_100 ← shadeHexColor (green_seed_hex seedColors) 0;
  green_80 ← shadeHexColor (green_seed_hex seedColors) 0.2;
  green_60 ← shadeHexColor (green_seed_hex seedColors) 0.4;
  red_100 ← shadeHexColor (red_seed_hex seedColors) 0;
  red_80 ← shadeHexColor (red_seed_hex seedColors) 0.2;
  red_60 ← shadeHexColor (red_seed_hex seedColors) 0.4;
  yellow_100 ← shadeHexColor (yellow_seed_hex seedColors) 0;
  yellow_80 ← shadeHexColor (yellow_seed_hex seedColors) 0.2;
  yellow_60 ← shadeHexColor (yellow_seed_hex seedColors) 0.4;
  blue_100 ← shadeHexColor (blue_seed_hex seedColors) 0;
  blue_80 ← shadeHexColor (blue_seed_hex seedColors) 0.2;
  blue_60 ← shadeHexColor (blue_seed_hex seedColors) 0.4;
  magenta_100 ← shadeHexColor (magenta_seed_hex seedColors) 0;
  magenta_80 ← shadeHexColor (magenta_seed_hex seedColors) 0.2;
  magenta_60 ← shadeHexColor (magenta_seed_hex seedColors) 0.4;
  cyan_100 ← shadeHexColor (cyan_seed_hex seedColors) 0;
  cyan_80 ← shadeHexColor (cyan_seed_hex seedColors) 0.2;
  cyan_60 ← shadeHexColor (cyan_seed_hex seedColors) 0.4;
  Normal
    {| background := background;
       text := text;
       primary_100 := primary_100;
       primary_80 := primary_80;
       primary_60 := primary_60;
       secondary_100 := secondary_100;
       secondary_80 := secondary_80;
       secondary_60 := secondary_60;
       black := text;
       white := background;
       green_100 := green_100;
       green_80 := green_80;
       green_60 := green_60;
       red_100 := red_100;
       red_80 := red_80;
       red_60 := red_60;
       yellow_100 := yellow_100;
       yellow_80 := yellow_80;
       yellow_60 := yellow_60;
       blue_100 := blue_100;
       blue_80 := blue_80;
       blue_60 := blue_60;
       magenta_100 := magenta_100;
       magenta_80 := magenta_80;
       magenta_60 := magenta_60;
       cyan_100 := cyan_100;
       cyan_80 := cyan_80;
       cyan_60 := cyan_60 |}.

End Appearance.

(** ** contexts/AppearanceContext.tsx *)

Module AppearanceContext.

Import JsString Appearance.

(** The selection as it arrives from the server: the fields are checked at
    run time, so they are strings here and not the types they claim. *)
Record ActivePaletteSelection := {
  palette_type : string;
  preset_palette : option string;
  custom_palette_id : option string;
}.

(** The ten seed fields are grouped in [seeds]. *)
Record CustomPalette := {
  id : string;
  name : string;
  seeds : PaletteSeedHexColors;
  generated_tokens : PaletteRgbTokens;
  generation_version : Z;
  created_at : string;
  updated_at : string;
}.

Record AppearanceSettingsResponse := {
  active_palette : ActivePaletteSelection;
  custom_palettes : list CustomPalette;
}.

Definition createPresetSelection (palette : ColorPalette) : ActivePaletteSelection :=
  {| palette_type := "preset";
     preset_palette := Some (colorPaletteName palette);
     custom_palette_id := None |}.

Definition isPresetPalette (palette : string) : bool :=
  String.eqb palette "catppuccin"
  || String.eqb palette "tokyo-night"
  || String.eqb palette "everforest".

(** The narrowing [palette is ColorPalette], used where [isPresetPalette] holds. *)
Definition asPresetPalette (palette : string) : ColorPalette :=
  if String.eqb palette "catppuccin" then Catppuccin
  else if String.eqb palette "everforest" then Everforest
  else TokyoNight.

(** [customPalettes.some((palette) => palette.id === wanted)] *)
Definition somePaletteHasId (customPalettes : list CustomPalette) (wanted : string) : bool :=
  existsb (fun palette => String.eqb (id palette) wanted) customPalettes.

Definition customSelection (customPaletteId : string) : ActivePaletteSelection :=
  {| palette_type := "custom";
     preset_palette := None;
     custom_palette_id := Some customPaletteId |}.

Definition normalizeActivePaletteSelection
    (activePalette : ActivePaletteSelection) (customPalettes : list CustomPalette)
  : ActivePaletteSelection :=
  let fromPreset :=
    match preset_palette activePalette with
    | Some preset =>
        if String.eqb (palette_type activePalette) "preset" && isPresetPalette preset
        then createPresetSelection (asPresetPalette preset)
        else createPresetSelection (palette DEFAULT_APPEARANCE_PREFERENCES)
    | None => createPresetSelection (palette DEFAULT_APPEARANCE_PREFERENCES)
    end in
  match custom_palette_id activePalette with
  | Some customId =>
      if String.eqb (palette_type activePalette) "custom"
         && negb (String.eqb customId EmptyString)
         && somePaletteHasId customPalettes customId
      then customSelection customId
      else fromPreset
  | None => fromPreset
  end.

(** *** The provider

    The state the callbacks close over, and the requests they have issued.
    An [async] callback runs up to its first [await] in one piece: it either
    settles there or is left waiting for a reply ([Awaiting]); the function
    named [_resumed] is the rest of its body. *)

Inductive ApiRequest : Type :=
| GetAppearance
| PutActivePreset (palette : ColorPalette)
| PutActiveCustom (customPaletteId : string).

Record Provider := {
  persist : bool;
  isLoggedIn : bool;
  preferences : AppearancePreferences;
  activePalette : ActivePaletteSelection;
  customPalettes : list CustomPalette;
  requests : list ApiRequest;
}.

Inductive progress : Type :=
| Settled (result : completion unit)
| Awaiting (request : ApiRequest).

Definition setActivePalette (next : ActivePaletteSelection) (st : Provider) : Provider :=
  {| persist := persist st; isLoggedIn := isLoggedIn st;
     preferences := preferences st;
     activePalette := next;
     customPalettes := customPalettes st;
     requests := requests st |}.

Definition setCustomPalettes (next : list CustomPalette) (st : Provider) : Provider :=
  {| persist := persist st; isLoggedIn := isLoggedIn st;
     preferences := preferences st;
     activePalette := activePalette st;
     customPalettes := next;
     requests := requests st |}.

Definition setPreferences (update : AppearancePreferences -> AppearancePreferences)
    (st : Provider) : Provider :=
  {| persist := persist st; isLoggedIn := isLoggedIn st;
     preferences := update (preferences st);
     activePalette := activePalette st;
     customPalettes := customPalettes st;
     requests := requests st |}.

Definition send (request : ApiRequest) (st : Provider) : Provider :=
  {| persist := persist st; isLoggedIn := isLoggedIn st;
     preferences := preferences st;
     activePalette := activePalette st;
     customPalettes := customPalettes st;
     requests := request :: requests st |}.

Definition selectCustomPalette (customPaletteId : string) (st : Provider)
  : Provider * progress :=
  let exists_ := somePaletteHasId (customPalettes st) customPaletteId in
  if negb exists_ then (st, Settled (Throw "Custom palette not found."))
  else if persist st && isLoggedIn st
       then (send (PutActiveCustom customPaletteId) st,
             Awaiting (PutActiveCustom customPaletteId))
       else (setActivePalette (customSelection customPaletteId) st, Settled (Normal tt)).

Definition selectCustomPalette_resumed (customPaletteId : string)
    (reply : completion unit) (st : Provider) : Provider * progress :=
  match reply with
  | Throw error => (st, Settled (Throw error))
  | Normal _ => (setActivePalette (customSelection customPaletteId) st, Settled (Normal tt))
  end.

Definition refreshPalettes (st : Provider) : Provider * progress :=
  if negb (persist st) || negb (isLoggedIn st) then (st, Settled (Normal tt))
  else (send GetAppearance st, Awaiting GetAppearance).

Definition refreshPalettes_resumed (reply : completion AppearanceSettingsResponse)
    (st : Provider) : Provider * progress :=
  match reply with
  | Throw error => (st, Settled (Throw error))
  | Normal response =>
      let nextCustomPalettes := custom_palettes response in
      let nextActivePalette :=
        normalizeActivePaletteSelection (active_palette response) nextCustomPalettes in
      let st := setCustomPalettes nextCustomPalettes st in
      let st := setActivePalette nextActivePalette st in
      let presetPalette :=
        if String.eqb (palette_type nextActivePalette) "preset"
        then preset_palette nextActivePalette
        else None in
      match presetPalette with
      | None | Some EmptyString => (st, Settled (Normal tt))
      | Some preset =>
          (setPreferences
             (fun previous =>
                if String.eqb (colorPaletteName (palette previous)) preset
                then previous
                else {| mode := mode previous; palette := asPresetPalette preset |})
             st,
           Settled (Normal tt))
      end
  end.

End AppearanceContext.

(** ** lib/axios.ts

    The client as a transition system.  A state holds the module variable
    [inFlightRefreshPromise], the requests handed to the adapter and not yet
    answered, and the invocations of the response interceptor that are
    suspended at [await refreshAccessToken()].  A transition is a call of
    [api] by the application or an answer of the adapter, together with all
    the synchronous code and promise reactions it sets off. *)

Module HttpClient.

Import JsString.

(** [_retry] absent is [false]. *)
Record RetryableRequestConfig := {
  url : option string;
  _retry : bool;
}.

(** [error.config] and [error.response?.status]. *)
Record AxiosError := {
  config : option RetryableRequestConfig;
  status : option Z;
}.

(** What the adapter can answer to a request. *)
Inductive answer : Type :=
| Fulfilled                (* a response that passes [validateStatus] *)
| BadStatus (code : Z)     (* an [AxiosError] with the request's config and a response *)
| NetworkError             (* an [AxiosError] with the request's config and no response *)
| ForeignError.            (* an error with no config *)

Definition errorOf (a : answer) (sent : RetryableRequestConfig) : AxiosError :=
  match a with
  | BadStatus code => {| config := Some sent; status := Some code |}
  | ForeignError => {| config := None; status := None |}
  | _ => {| config := Some sent; status := None |}
  end.

(** The response interceptor's rejection handler up to its [await]: it
    throws the error it was given, or marks the config and goes on to
    refresh. *)
Inductive decision : Type :=
| Rethrow (error : AxiosError)
| RefreshThenRetry (requestConfig : RetryableRequestConfig).

Definition onRejected (error : AxiosError) : decision :=
  let requestConfig := config error in
  let statusCode := status error in
  let requestUrl := default EmptyString (requestConfig ≫= url) in
  match requestConfig with
  | None => Rethrow error
  | Some requestConfig =>
      if negb (bool_decide (statusCode = Some 401))
         || _retry requestConfig
         || includes requestUrl "/auth/log-in"
         || includes requestUrl "/auth/refresh"
      then Rethrow error
      else RefreshThenRetry {| url := url requestConfig; _retry := true |}
  end.

(** The config of [api.post("/auth/refresh")]. *)
Definition refreshRequest : RetryableRequestConfig :=
  {| url := Some "/auth/refresh"; _retry := false |}.

(** A request on the wire: one that [api(...)] of the application or of a
    retry issued on behalf of application call [call], or the POST of
    [refreshAccessToken].  The ticket of a refresh POST also names the
    promise stored in [inFlightRefreshPromise]. *)
Inductive origin : Type :=
| FromApplication (call : nat) (requestConfig : RetryableRequestConfig)
| RefreshPost.

Record flight := {
  ticket : nat;
  sender : origin;
}.

(** An interceptor invocation suspended at [await refreshAccessToken()]. *)
Record suspended := {
  awaited : nat;
  forCall : nat;
  retryConfig : RetryableRequestConfig;   (* the config, now marked [_retry] *)
  originalError : AxiosError;             (* the error the interceptor was given *)
}.

Inductive settlement : Type :=
| Resolved
| Rejected (error : AxiosError).

Record Client := {
  inFlightRefreshPromise : option nat;
  wire : list flight;
  waiting : list suspended;
  adapterLog : list origin;            (* every request handed to the adapter, newest first *)
  outcomes : list (nat * settlement);  (* application calls that have settled, newest first *)
  nextId : nat;
}.

Definition initial : Client :=
  {| inFlightRefreshPromise := None; wire := []; waiting := [];
     adapterLog := []; outcomes := []; nextId := 0 |}.

(** Hand a request to the adapter. *)
Definition dispatch (who : origin) (st : Client) : Client :=
  {| inFlightRefreshPromise := inFlightRefreshPromise st;
     wire := wire st ++ [ {| ticket := nextId st; sender := who |} ];
     waiting := waiting st;
     adapterLog := who :: adapterLog st;
     outcomes := outcomes st;
     nextId := S (nextId st) |}.

Definition settleCall (call : nat) (result : settlement) (st : Client) : Client :=
  {| inFlightRefreshPromise := inFlightRefreshPromise st;
     wire := wire st;
     waiting := waiting st;
     adapterLog := adapterLog st;
     outcomes := (call, result) :: outcomes st;
     nextId := nextId st |}.

Definition setInFlight (handle : option nat) (st : Client) : Client :=
  {| inFlightRefreshPromise := handle;
     wire := wire st;
     waiting := waiting st;
     adapterLog := adapterLog st;
     outcomes := outcomes st;
     nextId := nextId st |}.

Definition setWire (flights : list flight) (st : Client) : Client :=
  {| inFlightRefreshPromise := inFlightRefreshPromise st;
     wire := flights;
     waiting := waiting st;
     adapterLog := adapterLog st;
     outcomes := outcomes st;
     nextId := nextId st |}.

Definition setWaiting (ws : list suspended) (st : Client) : Client :=
  {| inFlightRefreshPromise := inFlightRefreshPromise st;
     wire := wire st;
     waiting := ws;
     adapterLog := adapterLog st;
     outcomes := outcomes st;
     nextId := nextId st |}.

(** [refreshAccessToken]: the promise the caller is to await. *)
Definition refreshAccessToken (st : Client) : nat * Client :=
  match inFlightRefreshPromise st with
  | Some pending => (pending, st)
  | None =>
      let promise := nextId st in
      (promise, setInFlight (Some promise) (dispatch RefreshPost st))
  end.

(** The application calls [api(requestConfig)]. *)
Definition request (requestConfig : RetryableRequestConfig) (st : Client) : Client :=
  dispatch (FromApplication (nextId st) requestConfig) st.

(** The rest of a suspended interceptor once the awaited promise settles:
    [return api(requestConfig)] when it resolved; when it rejected, the
    [await] throws what the promise was rejected with. *)
Definition resume (result : settlement) (w : suspended) (st : Client) : Client :=
  match result with
  | Resolved => dispatch (FromApplication (forCall w) (retryConfig w)) st
  | Rejected error => settleCall (forCall w) (Rejected error) st
  end.

(** The refresh POST with ticket [promise] settles: the [finally] callback
    clears the handle, then the interceptors awaiting the promise resume in
    the order in which they suspended. *)
Definition settleRefresh (promise : nat) (result : settlement) (st : Client) : Client :=
  let st := setInFlight None st in
  let resumed := filter (fun w => awaited w = promise) (waiting st) in
  let others := filter (fun w => awaited w ≠ promise) (waiting st) in
  fold_left (fun acc w => resume result w acc) resumed (setWaiting others st).

Definition takeFlight (t : nat) (flights : list flight) : option flight :=
  find (fun f => Nat.eqb (ticket f) t) flights.

Definition dropFlight (t : nat) (flights : list flight) : list flight :=
  filter (fun f => ticket f ≠ t) flights.

(** The adapter answers the request with ticket [t]. *)
Definition answered (t : nat) (a : answer) (st : Client) : Client :=
  match takeFlight t (wire st) with
  | None => st
  | Some f =>
      let st := setWire (dropFlight t (wire st)) st in
      match sender f with
      | FromApplication call sent =>
          match a with
          | Fulfilled => settleCall call Resolved st
          | _ =>
              match onRejected (errorOf a sent) with
              | Rethrow error => settleCall call (Rejected error) st
              | RefreshThenRetry requestConfig =>
                  let '(promise, st) := refreshAccessToken st in
                  setWaiting
                    (waiting st ++ [ {| awaited := promise; forCall := call;
                                        retryConfig := requestConfig;
                                        originalError := errorOf a sent |} ])
                    st
              end
          end
      | RefreshPost =>
          match a with
          | Fulfilled => settleRefresh t Resolved st
          | _ =>
              (* the POST passes through the same interceptor, which
                 rethrows for this URL: [refreshPost_rethrown] *)
              match onRejected (errorOf a refreshRequest) with
              | Rethrow error => settleRefresh t (Rejected error) st
              | RefreshThenRetry _ => st
              end
          end
      end
  end.

Inductive event : Type :=
| Request (requestConfig : RetryableRequestConfig)
| Answered (t : nat) (a : answer).

Definition step (st : Client) (e : event) : Client :=
  match e with
  | Request requestConfig => request requestConfig st
  | Answered t a => answered t a st
  end.

Definition run (events : list event) : Client := fold_left step events initial.

(** Counters read off a state. *)

Definition isRefresh (o : origin) : bool :=
  match o with RefreshPost => true | _ => false end.

Definition refreshesInFlight (st : Client) : nat :=
  length (filter (fun f => isRefresh (sender f) = true) (wire st)).

Definition refreshPostsSent (st : Client) : nat :=
  length (filter (fun o => isRefresh o = true) (adapterLog st)).

Definition isFor (call : nat) (o : origin) : bool :=
  match o with
  | FromApplication c _ => Nat.eqb c call
  | RefreshPost => false
  end.

Definition timesSent (call : nat) (st : Client) : nat :=
  length (filter (fun o => isFor call o = true) (adapterLog st)).

End HttpClient.

(** ** contexts/AuthContext.tsx

    The provider as a transition system.  A state holds the [user] snapshot,
    the ref [inFlightRefreshRef], the [GET /auth/me] calls that have not
    settled, and the callers of [refreshUser] whose promise is pending.  A
    promise is named after the call of [refreshUser] that created it. *)

Module AuthContext.

Record AuthUser := {
  id : string;
  first_name : string;
  last_name : string;
  email : string;
  email_confirmed : bool;
  created_at : string;
  updated_at : string;
}.

Record RefreshUserOptions := {
  throwOnError : option bool;
}.

Inductive settlement : Type :=
| Resolved
| Rejected (error : HttpClient.AxiosError).

(** How [api.get("/auth/me")] settles. *)
Inductive meReply : Type :=
| MeOk (current : AuthUser)
| MeFailed (error : HttpClient.AxiosError).

(** A pending call of [refreshUser]: the promise it chained its [catch] on. *)
Record caller := {
  callerId : nat;
  awaited : nat;
  options : option RefreshUserOptions;
  startedRequest : bool;   (* it created the promise, or attached to it *)
}.

(** What a caller saw when its promise settled. *)
Record observation := {
  observer : nat;
  result : settlement;
  userSeen : option AuthUser;
}.

Record Session := {
  user : option AuthUser;
  inFlightRefreshRef : option nat;
  meRequests : list nat;             (* pending [GET /auth/me], by promise *)
  meRequestsIssued : nat;            (* how many were ever issued *)
  callers : list caller;             (* oldest first *)
  observations : list observation;   (* newest first *)
  nextId : nat;
}.

Definition initial : Session :=
  {| user := None; inFlightRefreshRef := None; meRequests := [];
     meRequestsIssued := 0; callers := []; observations := []; nextId := 0 |}.

(** [options?.throwOnError] as a condition. *)
Definition wantsError (options : option RefreshUserOptions) : bool :=
  match options with
  | Some o => default false (throwOnError o)
  | None => false
  end.

(** [(error) => { if (options?.throwOnError) { throw error; } }], the handler
    both branches of [refreshUser] pass to [catch]. *)
Definition catchHandler (options : option RefreshUserOptions)
    (error : HttpClient.AxiosError) : settlement :=
  if wantsError options then Rejected error else Resolved.

Definition setUser (next : option AuthUser) (st : Session) : Session :=
  {| user := next;
     inFlightRefreshRef := inFlightRefreshRef st;
     meRequests := meRequests st;
     meRequestsIssued := meRequestsIssued st;
     callers := callers st;
     observations := observations st;
     nextId := nextId st |}.

Definition setInFlight (handle : option nat) (st : Session) : Session :=
  {| user := user st;
     inFlightRefreshRef := handle;
     meRequests := meRequests st;
     meRequestsIssued := meRequestsIssued st;
     callers := callers st;
     observations := observations st;
     nextId := nextId st |}.

(** [api.get("/auth/me")] on behalf of promise [promise]. *)
Definition getMe (promise : nat) (st : Session) : Session :=
  {| user := user st;
     inFlightRefreshRef := inFlightRefreshRef st;
     meRequests := meRequests st ++ [promise];
     meRequestsIssued := S (meRequestsIssued st);
     callers := callers st;
     observations := observations st;
     nextId := nextId st |}.

Definition attach (c : caller) (st : Session) : Session :=
  {| user := user st;
     inFlightRefreshRef := inFlightRefreshRef st;
     meRequests := meRequests st;
     meRequestsIssued := meRequestsIssued st;
     callers := callers st ++ [c];
     observations := observations st;
     nextId := S (nextId st) |}.

Definition refreshUser (options : option RefreshUserOptions) (st : Session) : Session :=
  let me := nextId st in
  match inFlightRefreshRef st with
  | Some pending =>
      attach {| callerId := me; awaited := pending; options := options;
                startedRequest := false |} st
  | None =>
      let refreshPromise := me in
      let st := getMe refreshPromise st in
      let st := setInFlight (Some refreshPromise) st in
      attach {| callerId := me; awaited := refreshPromise; options := options;
                startedRequest := true |} st
  end.

(** A caller's [catch] reaction on the settled promise. *)
Definition observe (outcome : settlement) (c : caller) (st : Session) : Session :=
  {| user := user st;
     inFlightRefreshRef := inFlightRefreshRef st;
     meRequests := meRequests st;
     meRequestsIssued := meRequestsIssued st;
     callers := callers st;
     observations :=
       {| observer := callerId c;
          result := match outcome with
                    | Resolved => Resolved
                    | Rejected error => catchHandler (options c) error
                    end;
          userSeen := user st |} :: observations st;
     nextId := nextId st |}.

Definition setCallers (cs : list caller) (st : Session) : Session :=
  {| user := user st;
     inFlightRefreshRef := inFlightRefreshRef st;
     meRequests := meRequests st;
     meRequestsIssued := meRequestsIssued st;
     callers := cs;
     observations := observations st;
     nextId := nextId st |}.

Definition dropRequest (promise : nat) (st : Session) : Session :=
  {| user := user st;
     inFlightRefreshRef := inFlightRefreshRef st;
     meRequests := filter (fun p => p ≠ promise) (meRequests st);
     meRequestsIssued := meRequestsIssued st;
     callers := callers st;
     observations := observations st;
     nextId := nextId st |}.

(** [GET /auth/me] of promise [promise] settles: the rest of the [try], the
    [catch] or not, the [finally], and then the reactions of the callers in
    the order in which they attached. *)
Definition meSettled (promise : nat) (reply : meReply) (st : Session) : Session :=
  if bool_decide (promise ∈ meRequests st) then
    let st := dropRequest promise st in
    let '(st, outcome) :=
      match reply with
      | MeOk current => (setUser (Some current) st, Resolved)
      | MeFailed error => (setUser None st, Rejected error)
      end in
    let st := setInFlight None st in
    let settled := filter (fun c => awaited c = promise) (callers st) in
    let others := filter (fun c => awaited c ≠ promise) (callers st) in
    fold_left (fun acc c => observe outcome c acc) settled (setCallers others st)
  else st.

Inductive event : Type :=
| RefreshUser (options : option RefreshUserOptions)
| MeSettled (promise : nat) (reply : meReply)
| SetUser (next : option AuthUser).

Definition step (st : Session) (e : event) : Session :=
  match e with
  | RefreshUser options => refreshUser options st
  | MeSettled promise reply => meSettled promise reply st
  | SetUser next => setUser next st
  end.

Definition run (events : list event) : Session := fold_left step events initial.

End AuthContext.

(** ** lib/appearance.ts, continued

    Resolving the theme and writing the appearance to the document
    element. *)

Module AppearanceDom.

Import JsString Json Appearance.

Definition resolvedThemeName (theme : ResolvedTheme) : string :=
  match theme with
  | ThemeLight => "light"
  | ThemeDark => "dark"
  end.

Definition resolveThemeMode (mode : ThemeMode) (systemTheme : ResolvedTheme) : ResolvedTheme :=
  match mode with
  | ModeSystem => systemTheme
  | ModeLight => ThemeLight
  | ModeDark => ThemeDark
  end.

(** [ColorPalette | "custom"] *)
Inductive PaletteAttribute : Type :=
| PresetAttribute (palette : ColorPalette)
| CustomAttribute.

Definition paletteAttributeName (palette : PaletteAttribute) : string :=
  match palette with
  | PresetAttribute p => colorPaletteName p
  | CustomAttribute => "custom"
  end.

(** The part of an element the program writes: its attributes and the
    declarations of its inline style. *)
Record HTMLElement := {
  attributes : gmap string string;
  style : gmap string string;
}.

Definition setAttribute (name value : string) (el : HTMLElement) : HTMLElement :=
  {| attributes := <[name := value]> (attributes el); style := style el |}.

(** [style.setProperty] with a value that is a well-formed custom property
    value, as every generated triplet is; the empty value removes the
    declaration. *)
Definition setProperty (name value : string) (el : HTMLElement) : HTMLElement :=
  {| attributes := attributes el;
     style := match value with
              | EmptyString => delete name (style el)
              | _ => <[name := value]> (style el)
              end |}.

Definition removeProperty (name : string) (el : HTMLElement) : HTMLElement :=
  {| attributes := attributes el; style := delete name (style el) |}.

(** [style.getPropertyValue]: the empty string for no declaration. *)
Definition getPropertyValue (el : HTMLElement) (name : string) : string :=
  default EmptyString (style el !! name).

(** The keys of the table with the token each one reads, in source order. *)
Definition PALETTE_TOKEN_VARIABLE_NAMES : list ((PaletteRgbTokens -> string) * string) :=
  [ (background, "--color-background-rgb");
    (text, "--color-text-rgb");
    (primary_100, "--color-primary-100-rgb");
    (primary_80, "--color-primary-80-rgb");
    (primary_60, "--color-primary-60-rgb");
    (secondary_100, "--color-secondary-100-rgb");
    (secondary_80, "--color-secondary-80-rgb");
    (secondary_60, "--color-secondary-60-rgb");
    (black, "--color-black-rgb");
    (white, "--color-white-rgb");
    (green_100, "--color-green-100-rgb");
    (green_80, "--color-green-80-rgb");
    (green_60, "--color-green-60-rgb");
    (red_100, "--color-red-100-rgb");
    (red_80, "--color-red-80-rgb");
    (red_60, "--color-red-60-rgb");
    (yellow_100, "--color-yellow-100-rgb");
    (yellow_80, "--color-yellow-80-rgb");
    (yellow_60, "--color-yellow-60-rgb");
    (blue_100, "--color-blue-100-rgb");
    (blue_80, "--color-blue-80-rgb");
    (blue_60, "--color-blue-60-rgb");
    (magenta_100, "--color-magenta-100-rgb");
    (magenta_80, "--color-magenta-80-rgb");
    (magenta_60, "--color-magenta-60-rgb");
    (cyan_100, "--color-cyan-100-rgb");
    (cyan_80, "--color-cyan-80-rgb");
    (cyan_60, "--color-cyan-60-rgb") ].

Definition applyTheme (theme : ResolvedTheme) (target : option HTMLElement)
  : option HTMLElement :=
  match target with
  | None => None
  | Some el => Some (setAttribute "data-theme" (resolvedThemeName theme) el)
  end.

Definition applyPalette (palette : PaletteAttribute) (target : option HTMLElement)
  : option HTMLElement :=
  match target with
  | None => None
  | Some el => Some (setAttribute "data-palette" (paletteAttributeName palette) el)
  end.

Definition applyCustomPaletteTokens (tokens : PaletteRgbTokens) (target : option HTMLElement)
  : option HTMLElement :=
  match target with
  | None => None
  | Some el =>
      Some (fold_left (fun acc entry => setProperty (snd entry) (fst entry tokens) acc)
                      PALETTE_TOKEN_VARIABLE_NAMES el)
  end.

Definition clearCustomPaletteTokens (target : option HTMLElement) : option HTMLElement :=
  match target with
  | None => None
  | Some el =>
      Some (fold_left (fun acc variableName => removeProperty variableName acc)
                      (map snd PALETTE_TOKEN_VARIABLE_NAMES) el)
  end.

(** The element as the call leaves it, and the returned theme. *)
Definition applyAppearancePreferences (preferences : AppearancePreferences)
    (systemTheme : ResolvedTheme) (target : option HTMLElement)
  : option HTMLElement * ResolvedTheme :=
  let resolvedTheme := resolveThemeMode (mode preferences) systemTheme in
  let target := applyTheme resolvedTheme target in
  let target := applyPalette (PresetAttribute (palette preferences)) target in
  (target, resolvedTheme).

(** [window.matchMedia("(prefers-color-scheme: dark)").matches]; [None] is no
    window, or a window without [matchMedia]. *)
Definition Window : Type := option bool.

Definition getSystemTheme (window : Window) : ResolvedTheme :=
  match window with
  | None => ThemeLight
  | Some true => ThemeDark
  | Some false => ThemeLight
  end.

Definition initializeAppearance (storage : option AppearanceStorage) (window : Window)
    (target : option HTMLElement)
  : completion (option HTMLElement * AppearancePreferences) :=
  preferences ← loadAppearancePreferences storage;
  Normal (fst (applyAppearancePreferences preferences (getSystemTheme window) target),
          preferences).

End AppearanceDom.

(** ** contexts/AppearanceContext.tsx, continued

    Preset selection, palette editing and the effects of the provider. *)

Module JsStringCase.

(** [String.prototype.toLowerCase] on one code unit below 256: the letters
    A to Z, and the Latin-1 capitals from 192 to 222 but for the
    multiplication sign 215, move up by 32. *)
Definition toLowerCaseUnit (c : ascii) : ascii :=
  let n := N_of_ascii c in
  if ((65 <=? n) && (n <=? 90) || (192 <=? n) && (n <=? 222) && negb (n =? 215))%N
  then ascii_of_N (n + 32)
  else c.

Fixpoint toLowerCase (s : string) : string :=
  match s with
  | EmptyString => EmptyString
  | String c rest => String (toLowerCaseUnit c) (toLowerCase rest)
  end.

End JsStringCase.

Module CreateCustomPaletteRequest.

Import Appearance.

(** [{ name } & PaletteSeedHexColors]; the ten seed fields are grouped in
    [seeds].  [UpdateCustomPaletteRequest] is the same type. *)
Record t := {
  name : string;
  seeds : PaletteSeedHexColors;
}.

End CreateCustomPaletteRequest.

Module CreateCustomPaletteResponse.

Import AppearanceContext.

Record t := {
  message : string;
  palette : CustomPalette;
  active_palette : ActivePaletteSelection;
}.

End CreateCustomPaletteResponse.

Module UpdateCustomPaletteResponse.

Import AppearanceContext.

Record t := {
  message : string;
  palette : CustomPalette;
}.

End UpdateCustomPaletteResponse.

Module AppearanceProvider.

Import JsString JsStringCase Appearance AppearanceContext AppearanceDom.

Definition normalizeCreatePalettePayload (payload : CreateCustomPaletteRequest.t)
  : CreateCustomPaletteRequest.t :=
  let seeds := CreateCustomPaletteRequest.seeds payload in
  {| CreateCustomPaletteRequest.name := trim (CreateCustomPaletteRequest.name payload);
     CreateCustomPaletteRequest.seeds :=
       {| background_seed_hex := toLowerCase (trim (background_seed_hex seeds));
          text_seed_hex := toLowerCase (trim (text_seed_hex seeds));
          primary_seed_hex := toLowerCase (trim (primary_seed_hex seeds));
          secondary_seed_hex := toLowerCase (trim (secondary_seed_hex seeds));
          green_seed_hex := toLowerCase (trim (green_seed_hex seeds));
          red_seed_hex := toLowerCase (trim (red_seed_hex seeds));
          yellow_seed_hex := toLowerCase (trim (yellow_seed_hex seeds));
          blue_seed_hex := toLowerCase (trim (blue_seed_hex seeds));
          magenta_seed_hex := toLowerCase (trim (magenta_seed_hex seeds));
          cyan_seed_hex := toLowerCase (trim (cyan_seed_hex seeds)) |} |}.

(** What the environment hands to one call of [createCustomPalette] or
    [updateCustomPalette]: the result of [crypto.randomUUID()], the values of
    [Date.now()] and of [Math.random().toString(36).slice(2, 10)], and the
    text of [new Date().toISOString()]. *)
Record Environment := {
  randomUUID : completion string;
  now : Z;
  randomSuffix : string;
  nowIso : string;
}.

Definition createLocalPaletteId (env : Environment) : string :=
  match randomUUID env with
  | Normal uuid => uuid
  | Throw _ =>
      ("local-palette-" ++ ofInteger (now env) ++ "-" ++ randomSuffix env)%string
  end.

Definition setMode (mode : ThemeMode) (st : Provider) : Provider :=
  setPreferences
    (fun previous =>
       if String.eqb (themeModeName (Appearance.mode previous)) (themeModeName mode)
       then previous
       else {| Appearance.mode := mode; palette := palette previous |})
    st.

(** The two state updates that end [selectPresetPalette]. *)
Definition presetSelected (palette : ColorPalette) (st : Provider) : Provider :=
  let st := setActivePalette (createPresetSelection palette) st in
  setPreferences
    (fun previous =>
       if String.eqb (colorPaletteName (Appearance.palette previous)) (colorPaletteName palette)
       then previous
       else {| mode := mode previous; Appearance.palette := palette |})
    st.

Definition selectPresetPalette (palette : ColorPalette) (st : Provider)
  : Provider * progress :=
  if persist st && isLoggedIn st
  then (send (PutActivePreset palette) st, Awaiting (PutActivePreset palette))
  else (presetSelected palette st, Settled (Normal tt)).

Definition selectPresetPalette_resumed (palette : ColorPalette)
    (reply : completion unit) (st : Provider) : Provider * progress :=
  match reply with
  | Throw error => (st, Settled (Throw error))
  | Normal _ => (presetSelected palette st, Settled (Normal tt))
  end.

(** The requests of the two editing callbacks, and how far a call got: it
    settled with a palette or an error, or it waits for the reply to the
    request it sent. *)
Inductive EditRequest : Type :=
| PostPalette (payload : CreateCustomPaletteRequest.t)
| PutPalette (customPaletteId : string) (payload : CreateCustomPaletteRequest.t).

Inductive editProgress : Type :=
| EditSettled (result : completion CustomPalette)
| EditAwaiting (request : EditRequest).

Definition createCustomPalette (env : Environment) (payload : CreateCustomPaletteRequest.t)
    (st : Provider) : Provider * editProgress :=
  let normalizedPayload := normalizeCreatePalettePayload payload in
  match CreateCustomPaletteRequest.name normalizedPayload with
  | EmptyString => (st, EditSettled (Throw "Palette name is required."))
  | _ =>
      if persist st && isLoggedIn st
      then (st, EditAwaiting (PostPalette normalizedPayload))
      else
        match generatePaletteTokensFromSeeds
                (CreateCustomPaletteRequest.seeds normalizedPayload) with
        | Throw error => (st, EditSettled (Throw error))
        | Normal tokens =>
            let localPalette :=
              {| id := createLocalPaletteId env;
                 name := CreateCustomPaletteRequest.name normalizedPayload;
                 seeds := CreateCustomPaletteRequest.seeds normalizedPayload;
                 generated_tokens := tokens;
                 generation_version := 2;
                 created_at := nowIso env;
                 updated_at := nowIso env |} in
            let st := setCustomPalettes (localPalette :: customPalettes st) st in
            let st := setActivePalette (customSelection (id localPalette)) st in
            (st, EditSettled (Normal localPalette))
        end
  end.

Definition createCustomPalette_resumed (reply : completion CreateCustomPaletteResponse.t)
    (st : Provider) : Provider * editProgress :=
  match reply with
  | Throw error => (st, EditSettled (Throw error))
  | Normal response =>
      let createdPalette := CreateCustomPaletteResponse.palette response in
      let nextActivePalette :=
        normalizeActivePaletteSelection
          (CreateCustomPaletteResponse.active_palette response) [createdPalette] in
      let st :=
        setCustomPalettes
          (createdPalette
           :: List.filter (fun palette => negb (String.eqb (id palette) (id createdPalette)))
                          (customPalettes st))
          st in
      let st := setActivePalette nextActivePalette st in
      (st, EditSettled (Normal createdPalette))
  end.

(** [previous.map((palette) => palette.id === updatedPalette.id ? updatedPalette : palette)] *)
Definition replacePalette (updatedPalette : CustomPalette) (previous : list CustomPalette)
  : list CustomPalette :=
  map (fun palette => if String.eqb (id palette) (id updatedPalette)
                      then updatedPalette else palette)
      previous.

Definition updateCustomPalette (env : Environment) (customPaletteId : string)
    (payload : CreateCustomPaletteRequest.t) (st : Provider) : Provider * editProgress :=
  let normalizedPayload := normalizeCreatePalettePayload payload in
  match CreateCustomPaletteRequest.name normalizedPayload with
  | EmptyString => (st, EditSettled (Throw "Palette name is required."))
  | _ =>
      match List.find (fun palette => String.eqb (id palette) customPaletteId)
                      (customPalettes st) with
      | None => (st, EditSettled (Throw "Custom palette not found."))
      | Some existingPalette =>
          if persist st && isLoggedIn st
          then (st, EditAwaiting (PutPalette customPaletteId normalizedPayload))
          else
            let duplicatePaletteName :=
              existsb (fun palette =>
                         negb (String.eqb (id palette) customPaletteId)
                         && String.eqb (toLowerCase (name palette))
                              (toLowerCase (CreateCustomPaletteRequest.name normalizedPayload)))
                      (customPalettes st) in
            if duplicatePaletteName
            then (st, EditSettled
                        (Throw "You already have a custom palette with this name."))
            else
              match generatePaletteTokensFromSeeds
                      (CreateCustomPaletteRequest.seeds normalizedPayload) with
              | Throw error => (st, EditSettled (Throw error))
              | Normal tokens =>
                  let updatedPalette :=
                    {| id := id existingPalette;
                       name := CreateCustomPaletteRequest.name normalizedPayload;
                       seeds := CreateCustomPaletteRequest.seeds normalizedPayload;
                       generated_tokens := tokens;
                       generation_version := 2;
                       created_at := created_at existingPalette;
                       updated_at := nowIso env |} in
                  (setCustomPalettes (replacePalette updatedPalette (customPalettes st)) st,
                   EditSettled (Normal updatedPalette))
              end
      end
  end.

Definition updateCustomPalette_resumed (reply : completion UpdateCustomPaletteResponse.t)
    (st : Provider) : Provider * editProgress :=
  match reply with
  | Throw error => (st, EditSettled (Throw error))
  | Normal response =>
      let updatedPalette := UpdateCustomPaletteResponse.palette response in
      (setCustomPalettes (replacePalette updatedPalette (customPalettes st)) st,
       EditSettled (Normal updatedPalette))
  end.

(** The effect that writes the appearance to the document element. *)
Definition appearanceEffect (systemTheme : ResolvedTheme) (st : Provider)
    (target : option HTMLElement) : option HTMLElement :=
  let resolvedTheme := resolveThemeMode (mode (preferences st)) systemTheme in
  let target := applyTheme resolvedTheme target in
  let selectedCustomPalette :=
    match custom_palette_id (activePalette st) with
    | Some customId =>
        if String.eqb (palette_type (activePalette st)) "custom"
           && negb (String.eqb customId EmptyString)
        then List.find (fun palette => String.eqb (id palette) customId) (customPalettes st)
        else None
    | None => None
    end in
  match selectedCustomPalette with
  | Some selected =>
      let target := applyPalette CustomAttribute target in
      applyCustomPaletteTokens (generated_tokens selected) target
  | None =>
      let target := clearCustomPaletteTokens target in
      applyPalette (PresetAttribute (palette (preferences st))) target
  end.

(** The effect that saves the preferences; returns the storage as it leaves it. *)
Definition persistEffect (storage : option AppearanceStorage) (st : Provider)
  : completion (option AppearanceStorage) :=
  if negb (persist st) then Normal storage
  else persistAppearancePreferences (preferences st) storage.

(** The effect that follows the session: signed out it drops the custom
    palettes and shows the stored preset; signed in it starts
    [refreshPalettes], whose failure it swallows. *)
Definition sessionEffect (storage : option AppearanceStorage) (st : Provider)
  : completion (Provider * progress) :=
  if negb (persist st) then Normal (st, Settled (Normal tt))
  else if negb (isLoggedIn st)
       then
         let st := setCustomPalettes [] st in
         fallbackPreferences ← loadAppearancePreferences storage;
         Normal (setActivePalette (createPresetSelection (palette fallbackPreferences)) st,
                 Settled (Normal tt))
       else Normal (refreshPalettes st).

Definition sessionEffect_resumed (reply : completion AppearanceSettingsResponse)
    (st : Provider) : Provider * progress :=
  (fst (refreshPalettes_resumed reply st), Settled (Normal tt)).

End AppearanceProvider.

(** ** The auth provider at start-up, and the private route *)

Module AuthProvider.

Import AuthContext.
Local Open Scope nat_scope.

(** The session with the state of [AuthProvider] around it: [isLoading], and
    the call of [refreshUser] that [checkAuthOnAppStart] awaits, if it still
    does. *)
Record Provider := {
  session : Session;
  isLoading : bool;
  checkingAuth : option nat;
}.

(** [useState(null)], [useState(true)], [useRef(null)] *)
Definition initialProvider : Provider :=
  {| session := initial; isLoading := true; checkingAuth := None |}.

(** [Boolean(user)] *)
Definition isLoggedIn (p : Provider) : bool :=
  match user (session p) with
  | Some _ => true
  | None => false
  end.

(** [checkAuthOnAppStart] up to its [await]. *)
Definition checkAuthOnAppStart (p : Provider) : Provider :=
  {| session := refreshUser None (session p);
     isLoading := true;
     checkingAuth := Some (nextId (session p)) |}.

(** Whether the promise of caller [me] has settled. *)
Definition hasSettled (me : nat) (s : Session) : bool :=
  existsb (fun o => observer o =? me) (observations s).

(** One event of the session; when it settles the call that
    [checkAuthOnAppStart] awaits, the rest of that function runs: whatever
    the outcome, the [finally] sets [isLoading] to false. *)
Definition providerStep (p : Provider) (e : event) : Provider :=
  let s := step (session p) e in
  match checkingAuth p with
  | Some me =>
      if hasSettled me s
      then {| session := s; isLoading := false; checkingAuth := None |}
      else {| session := s; isLoading := isLoading p; checkingAuth := Some me |}
  | None => {| session := s; isLoading := isLoading p; checkingAuth := None |}
  end.

Definition runProvider (events : list event) (p : Provider) : Provider :=
  fold_left providerStep events p.

(** The provider after the mount effect ran. *)
Definition mounted : Provider := checkAuthOnAppStart initialProvider.

End AuthProvider.

Module PrivateRoute.

Import AuthProvider.

Record PrivateRouteProps := {
  redirectTo : option string;
  loadingLabel : option string;
}.

(** What the component returns. *)
Inductive rendered : Type :=
| Spinner (label : string)
| Navigate (to : string)
| Children.

Definition PrivateRoute (props : PrivateRouteProps) (auth : Provider) : rendered :=
  if isLoading auth
  then Spinner (default "Loading" (loadingLabel props))
  else if negb (isLoggedIn auth)
       then Navigate (default "/auth/log-in" (redirectTo props))
       else Children.

End PrivateRoute.


(** ** Forms: validation errors, notifications, and the mutation hook *)

Module Errors.

Record FieldError := {
  field : string;
  message : string;
}.

Record ValidationErrorResponse := {
  errors : list FieldError;
}.

(** [errors[error.field] = error.message] on an object literal: the own
    properties as a map.  Under the key [__proto__] the assignment reaches
    the accessor of [Object.prototype], whose setter ignores a value that is
    neither an object nor null, and so adds no property. *)
Definition assign (errors : gmap string string) (error : FieldError) : gmap string string :=
  if String.eqb (field error) "__proto__" then errors
  else <[field error := message error]> errors.

Definition parseValidationErrors (response : ValidationErrorResponse) : gmap string string :=
  fold_left assign (errors response) ∅.

End Errors.

Module NotificationContext.

Import JsString.

Inductive NotificationType := INFO | WARNING | SUCCESS | ERROR.

(** [NotificationProps] without the optional [onClose]. *)
Record NotificationProps := {
  type : NotificationType;
  title : string;
  message : string;
}.

Record Notification := {
  props : NotificationProps;
  id : string;
}.

(** What the environment hands to one call of [createNotificationId]. *)
Record Environment := {
  randomUUID : completion string;
  now : Z;
  randomSuffix : string;
}.

Definition createNotificationId (env : Environment) : string :=
  match randomUUID env with
  | Normal uuid => uuid
  | Throw _ => ("notification-" ++ ofInteger (now env) ++ "-" ++ randomSuffix env)%string
  end.

Definition addNotification (env : Environment) (notification : NotificationProps)
    (prev : list Notification) : list Notification :=
  let id := createNotificationId env in
  (prev ++ [ {| props := notification; id := id |} ])%list.

Definition removeNotification (id : string) (prev : list Notification) : list Notification :=
  filter (fun n => NotificationContext.id n ≠ id) prev.

End NotificationContext.

Module UseForm.

(** The state of [useForm] for a form whose fields hold values of type [V]:
    the data, keyed by field, and the errors. *)
Record Form (V : Type) := {
  data : gmap string V;
  errors : gmap string string;
}.

Arguments data {V} _.
Arguments errors {V} _.

Definition initialForm {V} (initialData : gmap string V) : Form V :=
  {| data := initialData; errors := ∅ |}.

Definition setData {V} (key : string) (value : V) (form : Form V) : Form V :=
  {| data := <[key := value]> (data form); errors := ∅ |}.

Definition setErrors {V} (next : gmap string string) (form : Form V) : Form V :=
  {| data := data form; errors := next |}.

End UseForm.

Module UseFormMutation.

Import Errors NotificationContext.

(** [error.response?.data.errors] of the rejected mutation: no response, a
    response whose body has no [errors], or the list. *)
Record MutationError := {
  response : option (option (list FieldError));
}.

(** What the [onError] of the mutation did: the map it handed to the
    [onError] option, if it called it, and the notifications after it. *)
Record Reaction := {
  handedOver : option (gmap string string);
  notifications : list Notification;
}.

Definition onError (hasOnError : bool) (fallbackError : string) (env : Environment)
    (error : MutationError) (shown : list Notification) : Reaction :=
  match response error with
  | Some (Some fieldErrors) =>
      let errors := parseValidationErrors {| Errors.errors := fieldErrors |} in
      {| handedOver := if hasOnError then Some errors else None;
         notifications := shown |}
  | _ =>
      {| handedOver := None;
         notifications :=
           addNotification env
             {| type := ERROR; title := "Error"; message := fallbackError |} shown |}
  end.

End UseFormMutation.

(** * Properties *)

(** ** Strings *)

Module JsStringFacts.

Import JsString.

Lemma trimEnd_idempotent (s : string) : trimEnd (trimEnd s) = trimEnd s.
Proof.
  induction s as [|c rest IH]; [reflexivity|].
  cbn [trimEnd].
  destruct (trimEnd rest) as [|k kept] eqn:E.
  - destruct (isWhiteSpace c) eqn:W; cbn [trimEnd]; [reflexivity|].
    now rewrite W.
  - cbn [trimEnd]. cbn [trimEnd] in IH.
    destruct (trimEnd kept) as [|k' kept'] eqn:E'.
    + destruct (isWhiteSpace k); [discriminate IH | now rewrite IH].
    + now rewrite IH.
Qed.

(** A string that does not start with white space. *)
Definition startsClean (s : string) : bool :=
  match s with
  | EmptyString => true
  | String c _ => negb (isWhiteSpace c)
  end.

Lemma trimStart_startsClean (s : string) : startsClean (trimStart s) = true.
Proof.
  induction s as [|c rest IH]; [reflexivity|].
  cbn [trimStart]. destruct (isWhiteSpace c) eqn:W; [exact IH|].
  cbn. now rewrite W.
Qed.

Lemma trimStart_clean (s : string) : startsClean s = true -> trimStart s = s.
Proof.
  destruct s as [|c rest]; [reflexivity|].
  cbn. now destruct (isWhiteSpace c).
Qed.

Lemma trimEnd_startsClean (s : string) :
  startsClean s = true -> startsClean (trimEnd s) = true.
Proof.
  destruct s as [|c rest]; [reflexivity|].
  cbn [startsClean trimEnd]. intros W.
  destruct (trimEnd rest); [|exact W].
  destruct (isWhiteSpace c) eqn:Wc; cbn in *; [discriminate W | now rewrite Wc].
Qed.

Lemma trim_idempotent (s : string) : trim (trim s) = trim s.
Proof.
  unfold trim.
  rewrite (trimStart_clean (trimEnd (trimStart s))).
  - apply trimEnd_idempotent.
  - apply trimEnd_startsClean, trimStart_startsClean.
Qed.

Definition hexDigits : list ascii :=
  list_ascii_of_string "0123456789abcdefABCDEF".

Lemma isHexDigit_cases (c : ascii) : isHexDigit c = true -> In c hexDigits.
Proof.
  destruct c as [[] [] [] [] [] [] [] []]; vm_compute; intros H;
    first [discriminate H | repeat first [left; reflexivity | right]].
Qed.

(** Two hexadecimal digits read as a byte. *)
Lemma parseInt16_byte (a b : ascii) :
  isHexDigit a = true -> isHexDigit b = true ->
  exists n, parseInt16 (String a (String b EmptyString)) = Some n /\ 0 <= n <= 255.
Proof.
  intros Ha Hb.
  assert (All : forallb (fun x => forallb (fun y =>
            match parseInt16 (String x (String y EmptyString)) with
            | Some n => (0 <=? n) && (n <=? 255)
            | None => false
            end) hexDigits) hexDigits = true) by (vm_compute; reflexivity).
  rewrite forallb_forall in All.
  specialize (All a (isHexDigit_cases a Ha)).
  rewrite forallb_forall in All.
  specialize (All b (isHexDigit_cases b Hb)).
  destruct (parseInt16 _) as [n|]; [|discriminate].
  exists n. split; [reflexivity|]. lia.
Qed.

End JsStringFacts.

(** ** Palette tokens *)

Module PaletteFacts.

Import JsString JsStringFacts Appearance.

(** The mix as the specification words it: [percent] per cent of the way
    from the channel to 255 over the rationals, clamped to the interval from
    0 to 255, then rounded to the nearest integer (a half goes up). *)
Definition mixTowardWhite (percent : Z) (channel : Z) : Z :=
  let mixed : Q := (inject_Z channel + inject_Z (255 - channel) * (percent # 100))%Q in
  Qfloor (Qmax 0 (Qmin 255 mixed) + (1 # 2))%Q.

Definition mixChannels (percent : Z) (channels : Z * Z * Z) : Z * Z * Z :=
  let '(r, g, b) := channels in
  (mixTowardWhite percent r, mixTowardWhite percent g, mixTowardWhite percent b).

Definition channelsLe (lower upper : Z * Z * Z) : Prop :=
  let '(r, g, b) := lower in
  let '(r', g', b') := upper in
  r <= r' /\ g <= g' /\ b <= b'.

Definition isByte (n : Z) : Prop := 0 <= n <= 255.

Definition areBytes (channels : Z * Z * Z) : Prop :=
  let '(r, g, b) := channels in isByte r /\ isByte g /\ isByte b.

Definition allSeeds (seedColors : PaletteSeedHexColors) : list string :=
  [ background_seed_hex seedColors; text_seed_hex seedColors;
    primary_seed_hex seedColors; secondary_seed_hex seedColors;
    green_seed_hex seedColors; red_seed_hex seedColors;
    yellow_seed_hex seedColors; blue_seed_hex seedColors;
    magenta_seed_hex seedColors; cyan_seed_hex seedColors ].

Definition allSeedsValid (seedColors : PaletteSeedHexColors) : bool :=
  forallb isValidHexColor (allSeeds seedColors).

(** The three shades of an accent seed. *)
Definition accentShades (hex shade100 shade80 shade60 : string) : Prop :=
  exists channels,
    parseHexToRgbChannels hex = Normal channels /\ areBytes channels /\
    shade100 = toRgbTriplet channels /\
    shade100 = toRgbTriplet (mixChannels 0 channels) /\
    shade80 = toRgbTriplet (mixChannels 20 channels) /\
    shade60 = toRgbTriplet (mixChannels 40 channels) /\
    channelsLe channels (mixChannels 20 channels) /\
    channelsLe channels (mixChannels 40 channels) /\
    areBytes (mixChannels 20 channels) /\ areBytes (mixChannels 40 channels).

(** The one shade of the background and text seeds. *)
Definition plainShade (hex shade : string) : Prop :=
  exists channels,
    parseHexToRgbChannels hex = Normal channels /\ shade = toRgbTriplet channels.

Definition bytes : list Z := map Z.of_nat (seq 0 256).

Lemma isByte_cases (n : Z) : isByte n -> In n bytes.
Proof.
  intros [Hlo Hhi]. unfold bytes.
  replace n with (Z.of_nat (Z.to_nat n)) by lia.
  apply in_map, in_seq. lia.
Qed.

(** On a byte the binary64 computation of [lightenChannel] and the exact mix
    agree, for each of the three factors the program uses. *)
Definition lightenAgrees (c : Z) : bool :=
  (lightenChannel c 0 =? c)
  && (mixTowardWhite 0 c =? c)
  && (lightenChannel c 0.2 =? mixTowardWhite 20 c)
  && (lightenChannel c 0.4 =? mixTowardWhite 40 c)
  && (c <=? mixTowardWhite 20 c) && (mixTowardWhite 20 c <=? 255)
  && (c <=? mixTowardWhite 40 c) && (mixTowardWhite 40 c <=? 255).

Lemma lightenAgrees_bytes : forallb lightenAgrees bytes = true.
Proof. vm_compute. reflexivity. Qed.

Lemma lightenChannel_byte (c : Z) :
  isByte c ->
  lightenChannel c 0 = c /\ mixTowardWhite 0 c = c /\
  lightenChannel c 0.2 = mixTowardWhite 20 c /\
  lightenChannel c 0.4 = mixTowardWhite 40 c /\
  c <= mixTowardWhite 20 c <= 255 /\ c <= mixTowardWhite 40 c <= 255.
Proof.
  intros Hc. apply isByte_cases in Hc.
  pose proof lightenAgrees_bytes as All.
  rewrite forallb_forall in All. specialize (All c Hc).
  unfold lightenAgrees in All.
  repeat (apply andb_prop in All; destruct All as [All ?]).
  repeat match goal with
         | H : (_ =? _) = true |- _ => apply Z.eqb_eq in H
         | H : (_ <=? _) = true |- _ => apply Z.leb_le in H
         end.
  repeat split; assumption.
Qed.

Lemma parseHexToRgbChannels_valid (hex : string) :
  isValidHexColor hex = true ->
  exists channels, parseHexToRgbChannels hex = Normal channels /\ areBytes channels.
Proof.
  intros Hvalid. unfold parseHexToRgbChannels.
  unfold isValidHexColor at 1. rewrite trim_idempotent.
  unfold isValidHexColor in Hvalid. rewrite Hvalid. cbn [negb].
  destruct (trim hex) as [|h [|a [|b [|c [|d [|e [|f [|? ?]]]]]]]];
    try (cbn in Hvalid; repeat (destruct h as [[] [] [] [] [] [] [] []]; try discriminate Hvalid);
         discriminate Hvalid).
  assert (Hdigits : isHexDigit a && isHexDigit b && isHexDigit c
                    && isHexDigit d && isHexDigit e && isHexDigit f = true).
  { revert Hvalid. unfold matchesHexColorPattern.
    destruct h as [[] [] [] [] [] [] [] []]; try discriminate; auto. }
  repeat (apply andb_prop in Hdigits; destruct Hdigits as [Hdigits ?]).
  destruct (parseInt16_byte a b) as (r & Hr & ?); [assumption..|].
  destruct (parseInt16_byte c d) as (g & Hg & ?); [assumption..|].
  destruct (parseInt16_byte e f) as (bl & Hb & ?); [assumption..|].
  exists (r, g, bl). split; [|repeat split; lia].
  unfold parseHexChannel, slice. cbn [String.substring Nat.sub].
  rewrite Hr, Hg, Hb. reflexivity.
Qed.

Lemma parseHexToRgbChannels_invalid (hex : string) :
  isValidHexColor hex = false ->
  parseHexToRgbChannels hex = Throw "Color must use 6-digit hex format.".
Proof.
  intros Hinvalid. unfold parseHexToRgbChannels.
  unfold isValidHexColor at 1. rewrite trim_idempotent.
  unfold isValidHexColor in Hinvalid. now rewrite Hinvalid.
Qed.

Lemma shadeHexColor_normal (hex : string) (mix : float) (r g b : Z) :
  parseHexToRgbChannels hex = Normal (r, g, b) ->
  shadeHexColor hex mix
  = Normal (toRgbTriplet (lightenChannel r mix, lightenChannel g mix, lightenChannel b mix)).
Proof. intros H. unfold shadeHexColor. rewrite H. reflexivity. Qed.

Lemma shadeHexColor_invalid (hex : string) (mix : float) :
  isValidHexColor hex = false ->
  shadeHexColor hex mix = Throw "Color must use 6-digit hex format.".
Proof.
  intros H. unfold shadeHexColor.
  rewrite (parseHexToRgbChannels_invalid hex H). reflexivity.
Qed.

End PaletteFacts.

Module PaletteTheorems.

Import JsString JsStringFacts Appearance PaletteFacts.

Lemma accentShades_of_channels (hex : string) (r g b : Z) :
  parseHexToRgbChannels hex = Normal (r, g, b) -> areBytes (r, g, b) ->
  accentShades hex
    (toRgbTriplet (lightenChannel r 0, lightenChannel g 0, lightenChannel b 0))
    (toRgbTriplet (lightenChannel r 0.2, lightenChannel g 0.2, lightenChannel b 0.2))
    (toRgbTriplet (lightenChannel r 0.4, lightenChannel g 0.4, lightenChannel b 0.4)).
Proof.
  intros Hparse (Hr & Hg & Hb).
  destruct (lightenChannel_byte r Hr) as (-> & Hr0 & -> & -> & ? & ?).
  destruct (lightenChannel_byte g Hg) as (-> & Hg0 & -> & -> & ? & ?).
  destruct (lightenChannel_byte b Hb) as (-> & Hb0 & -> & -> & ? & ?).
  exists (r, g, b). unfold mixChannels, channelsLe, areBytes, isByte in *.
  rewrite Hr0, Hg0, Hb0.
  repeat split; try assumption; try reflexivity; lia.
Qed.

Lemma plainShade_of_channels (hex : string) (r g b : Z) :
  parseHexToRgbChannels hex = Normal (r, g, b) -> areBytes (r, g, b) ->
  plainShade hex (toRgbTriplet (lightenChannel r 0, lightenChannel g 0, lightenChannel b 0)).
Proof.
  intros Hparse (Hr & Hg & Hb).
  destruct (lightenChannel_byte r Hr) as (-> & _).
  destruct (lightenChannel_byte g Hg) as (-> & _).
  destruct (lightenChannel_byte b Hb) as (-> & _).
  exists (r, g, b). split; [assumption | reflexivity].
Qed.

(** Replace one call of [shadeHexColor] on a parsed seed by its value.  The
    call is generalised first: rewriting inside the whole chain of binds is
    slow. *)
Ltac shade_step :=
  match goal with
  | P : parseHexToRgbChannels ?h = Normal (?r, ?g, ?b) |- context [shadeHexColor ?h ?m] =>
      let c := fresh "c" in
      let E := fresh "E" in
      pose proof (shadeHexColor_normal h m r g b P) as E;
      generalize dependent (shadeHexColor h m); intros c E; subst c
  end.

Ltac seed_channels H r g b Hparse Hbytes :=
  let channels := fresh "channels" in
  destruct (parseHexToRgbChannels_valid _ H) as (channels & Hparse & Hbytes);
  destruct channels as [[r g] b].


Definition sampleSeeds : PaletteSeedHexColors :=
  {| background_seed_hex := "#a9b1d6"; text_seed_hex := "#1a1b26";
     primary_seed_hex := "#9ece6a"; secondary_seed_hex := "#7aa2f7";
     green_seed_hex := "#336699"; red_seed_hex := "#e65100";
     yellow_seed_hex := "#f9a825"; blue_seed_hex := "#1e88e5";
     magenta_seed_hex := "#8e24aa"; cyan_seed_hex := "#00838f" |}.


Ltac settle_validity :=
  unfold allSeedsValid, allSeeds; cbn [forallb];
  repeat match goal with
         | V : isValidHexColor _ = _ |- _ => rewrite V; clear V
         end;
  cbn [andb].

(** Decide the next seed the generator reads: a seed of the right form is
    replaced by its shades, another one ends the chain in the throw. *)
Ltac seed_case :=
  match goal with
  | |- context [shadeHexColor ?h ?m] =>
      let V := fresh "V" in
      let P := fresh "P" in
      destruct (isValidHexColor h) eqn:V;
      [ destruct (parseHexToRgbChannels_valid h V) as ([[? ?] ?] & P & _);
        repeat shade_step; cbn [mbind completion_bind]
      | let E := fresh "E" in
        let c := fresh "c" in
        pose proof (shadeHexColor_invalid h m V) as E;
        generalize dependent (shadeHexColor h m); intros c E; subst c;
        cbn [mbind completion_bind]; split; [settle_validity; reflexivity | reflexivity] ]
  end.

(** C10.  The generator returns tokens exactly when all ten seeds have,
    after trimming, the form of a sharp sign and six hexadecimal digits; on
    any other input it throws, and what it throws is the format error. *)
Theorem generatePaletteTokensFromSeeds_total_iff_valid (seedColors : PaletteSeedHexColors) :
  match generatePaletteTokensFromSeeds seedColors with
  | Normal _ => allSeedsValid seedColors = true
  | Throw message =>
      allSeedsValid seedColors = false /\ message = "Color must use 6-digit hex format."
  end.
Proof.
  unfold generatePaletteTokensFromSeeds.
  repeat seed_case.
  settle_validity. reflexivity.
Qed.

End PaletteTheorems.

(** ** Stored preferences *)

Module PreferenceFacts.

Import Json Appearance.

Lemma parse_empty : Json.parse EmptyString = Throw "SyntaxError".
Proof. reflexivity. Qed.

(** What [loadAppearancePreferences] does with the text it read. *)
Lemma load_of_text (storage : AppearanceStorage) (raw : string) (v : json) :
  getItem storage APPEARANCE_STORAGE_KEY = Normal (Some raw) ->
  Json.parse raw = Normal v ->
  loadAppearancePreferences (Some storage) = Normal (parseStoredPreferences v).
Proof.
  intros Hread Hparse. unfold loadAppearancePreferences.
  rewrite Hread. cbn [mbind completion_bind].
  destruct raw as [|c raw]; [rewrite parse_empty in Hparse; discriminate|].
  rewrite Hparse. reflexivity.
Qed.

Lemma load_of_malformed (storage : AppearanceStorage) (raw message : string) :
  getItem storage APPEARANCE_STORAGE_KEY = Normal (Some raw) ->
  Json.parse raw = Throw message ->
  loadAppearancePreferences (Some storage) = Normal DEFAULT_APPEARANCE_PREFERENCES.
Proof.
  intros Hread Hparse. unfold loadAppearancePreferences.
  rewrite Hread. cbn [mbind completion_bind].
  destruct raw as [|c raw]; [reflexivity|].
  rewrite Hparse. reflexivity.
Qed.

Lemma load_never_throws (storage : option AppearanceStorage) :
  exists preferences, loadAppearancePreferences storage = Normal preferences.
Proof.
  destruct storage as [storage|]; [|eexists; reflexivity].
  unfold loadAppearancePreferences, tryCatch.
  destruct (mbind _ _); eexists; reflexivity.
Qed.

Lemma parse_stringify_preferences (preferences : AppearancePreferences) :
  Json.parse (Json.stringify (preferencesObject preferences))
  = Normal (preferencesObject preferences).
Proof. destruct preferences as [[] []]; vm_compute; reflexivity. Qed.

Lemma parseStoredPreferences_object (preferences : AppearancePreferences) :
  parseStoredPreferences (preferencesObject preferences) = preferences.
Proof. destruct preferences as [[] []]; reflexivity. Qed.

(** The palette [parseStoredPreferences] settles on for an object whose
    [palette] property is the string [name]. *)
Lemma stored_palette_of_name (fields : list (string * json)) (name : string) :
  getField "palette" fields = Some (JString name) ->
  (name = "sunset" -> palette (parseStoredPreferences (JObject fields)) = Catppuccin) /\
  (name = "default" -> palette (parseStoredPreferences (JObject fields)) = TokyoNight) /\
  (name = "forest" -> palette (parseStoredPreferences (JObject fields)) = Everforest) /\
  (forall p, name = colorPaletteName p ->
             palette (parseStoredPreferences (JObject fields)) = p).
Proof.
  intros Hfield. unfold parseStoredPreferences.
  cbn [isRecord negb getProperty palette]. rewrite Hfield.
  repeat split.
  - intros ->. reflexivity.
  - intros ->. reflexivity.
  - intros ->. reflexivity.
  - intros p ->. destruct p; reflexivity.
Qed.

Lemma stored_mode_unknown (fields : list (string * json)) :
  isThemeMode (getField "mode" fields) = false ->
  mode (parseStoredPreferences (JObject fields)) = ModeSystem.
Proof.
  intros Hmode. unfold parseStoredPreferences.
  cbn [isRecord negb getProperty mode]. rewrite Hmode. reflexivity.
Qed.

Lemma stored_palette_absent (fields : list (string * json)) :
  getField "palette" fields = None ->
  palette (parseStoredPreferences (JObject fields)) = TokyoNight.
Proof.
  intros Hfield. unfold parseStoredPreferences.
  cbn [isRecord negb getProperty palette]. rewrite Hfield. reflexivity.
Qed.

Lemma preferences_eta (preferences : AppearancePreferences) :
  preferences = {| mode := mode preferences; palette := palette preferences |}.
Proof. destruct preferences; reflexivity. Qed.

(** A storage that holds [text] under the preference key and accepts reads. *)
Definition storageHolding (text : string) : AppearanceStorage :=
  {| items := {[ APPEARANCE_STORAGE_KEY := text ]};
     readsRefused := false; writesRefused := false |}.

Lemma getItem_storageHolding (text : string) :
  getItem (storageHolding text) APPEARANCE_STORAGE_KEY = Normal (Some text).
Proof.
  unfold getItem, storageHolding. cbn [readsRefused items].
  now rewrite lookup_singleton_eq.
Qed.

End PreferenceFacts.

Module PreferenceTheorems.

Import Json Appearance PreferenceFacts.

(** The stored object of the counterexample: an unknown mode next to a
    current palette. *)
Definition sepiaObject : json :=
  JObject [ ("mode", JString "sepia"); ("palette", JString "catppuccin") ].

Definition sepiaText : string := Json.stringify sepiaObject.



Definition emptyStorage : AppearanceStorage :=
  {| items := ∅; readsRefused := false; writesRefused := false |}.


(** C9.  A stored object whose palette is a legacy name loads with the
    renamed palette: [sunset] as [catppuccin], [default] as [tokyo-night],
    [forest] as [everforest]; a current identifier loads as itself. *)
Theorem legacy_palette_names_load_renamed
    (st : AppearanceStorage) (raw : string) (fields : list (string * json)) (name : string) :
  getItem st APPEARANCE_STORAGE_KEY = Normal (Some raw) ->
  Json.parse raw = Normal (JObject fields) ->
  getField "palette" fields = Some (JString name) ->
  exists preferences,
    loadAppearancePreferences (Some st) = Normal preferences /\
    (name = "sunset" -> palette preferences = Catppuccin) /\
    (name = "default" -> palette preferences = TokyoNight) /\
    (name = "forest" -> palette preferences = Everforest) /\
    (forall p, name = colorPaletteName p -> palette preferences = p).
Proof.
  intros Hread Hparse Hpalette.
  exists (parseStoredPreferences (JObject fields)).
  split.
  - exact (load_of_text st raw _ Hread Hparse).
  - exact (stored_palette_of_name fields name Hpalette).
Qed.

Definition sunsetFields : list (string * json) :=
  [ ("mode", JString "dark"); ("palette", JString "sunset") ].

Definition sunsetText : string := Json.stringify (JObject sunsetFields).

(** Witness of C9: the stored object of the unit test. *)
Lemma legacy_palette_names_load_renamed_witness :
  exists preferences,
    loadAppearancePreferences (Some (storageHolding sunsetText)) = Normal preferences /\
    palette preferences = Catppuccin.
Proof.
  destruct (legacy_palette_names_load_renamed
              (storageHolding sunsetText) sunsetText sunsetFields "sunset")
    as (preferences & Hload & Hsunset & _).
  - apply getItem_storageHolding.
  - vm_compute. reflexivity.
  - reflexivity.
  - exists preferences. split; [exact Hload | apply Hsunset; reflexivity].
Defined.

End PreferenceTheorems.

(** ** Active palette *)

Module PaletteSelectionTheorems.

Import Appearance AppearanceContext.

Lemma somePaletteHasId_In (customPalettes : list CustomPalette) (wanted : string) :
  somePaletteHasId customPalettes wanted = true
  <-> In wanted (map AppearanceContext.id customPalettes).
Proof.
  unfold somePaletteHasId. rewrite existsb_exists, in_map_iff.
  split.
  - intros (p & Hin & Heq). apply String.eqb_eq in Heq. now exists p.
  - intros (p & Heq & Hin). exists p. split; [exact Hin|]. now apply String.eqb_eq.
Qed.

Lemma somePaletteHasId_not_In (customPalettes : list CustomPalette) (wanted : string) :
  ~ In wanted (map AppearanceContext.id customPalettes) ->
  somePaletteHasId customPalettes wanted = false.
Proof.
  intros Hnot. destruct (somePaletteHasId customPalettes wanted) eqn:E; [|reflexivity].
  apply somePaletteHasId_In in E. contradiction.
Qed.

(** A selection that can be applied: a custom one names a palette of the
    list, a preset one names one of the three presets. *)
Definition resolvable (customPalettes : list CustomPalette)
    (selection : ActivePaletteSelection) : Prop :=
  (palette_type selection = "custom" /\
   preset_palette selection = None /\
   exists customId, custom_palette_id selection = Some customId /\
                    In customId (map AppearanceContext.id customPalettes))
  \/
  (palette_type selection = "preset" /\
   custom_palette_id selection = None /\
   exists p, preset_palette selection = Some (colorPaletteName p)).

Lemma createPresetSelection_resolvable (customPalettes : list CustomPalette)
    (p : ColorPalette) :
  resolvable customPalettes (createPresetSelection p).
Proof. right. repeat split. now exists p. Qed.

Lemma normalize_resolvable (activePalette : ActivePaletteSelection)
    (customPalettes : list CustomPalette) :
  resolvable customPalettes (normalizeActivePaletteSelection activePalette customPalettes).
Proof.
  unfold normalizeActivePaletteSelection.
  destruct (custom_palette_id activePalette) as [customId|].
  - destruct (String.eqb (palette_type activePalette) "custom"
              && negb (String.eqb customId EmptyString)
              && somePaletteHasId customPalettes customId) eqn:Hcustom.
    + apply andb_prop in Hcustom. destruct Hcustom as [_ Hknown].
      left. repeat split. exists customId. split; [reflexivity|].
      now apply somePaletteHasId_In.
    + destruct (preset_palette activePalette) as [preset|];
        [destruct (String.eqb _ "preset" && _)|]; apply createPresetSelection_resolvable.
  - destruct (preset_palette activePalette) as [preset|];
      [destruct (String.eqb _ "preset" && _)|]; apply createPresetSelection_resolvable.
Qed.

Lemma normalize_custom_only_if_known (activePalette : ActivePaletteSelection)
    (customPalettes : list CustomPalette) :
  palette_type (normalizeActivePaletteSelection activePalette customPalettes) = "custom" ->
  exists customId,
    custom_palette_id activePalette = Some customId /\
    normalizeActivePaletteSelection activePalette customPalettes = customSelection customId /\
    In customId (map AppearanceContext.id customPalettes).
Proof.
  unfold normalizeActivePaletteSelection.
  destruct (custom_palette_id activePalette) as [customId|].
  - destruct (String.eqb (palette_type activePalette) "custom"
              && negb (String.eqb customId EmptyString)
              && somePaletteHasId customPalettes customId) eqn:Hcustom.
    + intros _. apply andb_prop in Hcustom. destruct Hcustom as [_ Hknown].
      exists customId. repeat split. now apply somePaletteHasId_In.
    + destruct (preset_palette activePalette) as [preset|];
        [destruct (String.eqb _ "preset" && _)|]; discriminate.
  - destruct (preset_palette activePalette) as [preset|];
      [destruct (String.eqb _ "preset" && _)|]; discriminate.
Qed.

Lemma normalize_custom_unknown (activePalette : ActivePaletteSelection)
    (customPalettes : list CustomPalette) :
  palette_type activePalette = "custom" ->
  (forall customId, custom_palette_id activePalette = Some customId ->
                    ~ In customId (map AppearanceContext.id customPalettes)) ->
  normalizeActivePaletteSelection activePalette customPalettes
  = createPresetSelection TokyoNight.
Proof.
  intros Htype Hunknown. unfold normalizeActivePaletteSelection.
  rewrite Htype. cbn [String.eqb Ascii.eqb Bool.eqb andb].
  assert (Hpreset : match preset_palette activePalette with
                    | Some _ | None =>
                        createPresetSelection (palette DEFAULT_APPEARANCE_PREFERENCES)
                    end = createPresetSelection TokyoNight)
    by (destruct (preset_palette activePalette); reflexivity).
  destruct (custom_palette_id activePalette) as [customId|]; [|exact Hpreset].
  rewrite (somePaletteHasId_not_In _ _ (Hunknown customId eq_refl)).
  rewrite andb_false_r. exact Hpreset.
Qed.

(** C7.  The normalised selection is of type custom only for an id of the
    list; a custom selection whose id is not in the list becomes the default
    preset, tokyo-night; the result always names a palette of the list or one
    of the presets, and that is what [refreshPalettes] commits together with
    the list it fetched. *)
Theorem normalizeActivePaletteSelection_references_existing
    (activePalette : ActivePaletteSelection) (customPalettes : list CustomPalette) :
  let result := normalizeActivePaletteSelection activePalette customPalettes in
  (palette_type result = "custom" ->
   exists customId,
     custom_palette_id activePalette = Some customId /\
     result = customSelection customId /\
     In customId (map AppearanceContext.id customPalettes)) /\
  (palette_type activePalette = "custom" ->
   (forall customId, custom_palette_id activePalette = Some customId ->
                     ~ In customId (map AppearanceContext.id customPalettes)) ->
   result = createPresetSelection TokyoNight) /\
  resolvable customPalettes result /\
  (forall st,
     let committed :=
       fst (refreshPalettes_resumed
              (Normal {| active_palette := activePalette;
                         custom_palettes := customPalettes |}) st) in
     AppearanceContext.customPalettes committed = customPalettes /\
     AppearanceContext.activePalette committed = result /\
     resolvable (AppearanceContext.customPalettes committed)
                (AppearanceContext.activePalette committed)).
Proof.
  cbv zeta.
  split; [apply normalize_custom_only_if_known|].
  split; [apply normalize_custom_unknown|].
  split; [apply normalize_resolvable|].
  intros st.
  assert (Hcommitted :
            AppearanceContext.customPalettes
              (fst (refreshPalettes_resumed
                      (Normal {| active_palette := activePalette;
                                 custom_palettes := customPalettes |}) st)) = customPalettes
            /\ AppearanceContext.activePalette
                 (fst (refreshPalettes_resumed
                         (Normal {| active_palette := activePalette;
                                    custom_palettes := customPalettes |}) st))
               = normalizeActivePaletteSelection activePalette customPalettes).
  { unfold refreshPalettes_resumed. cbn [active_palette custom_palettes].
    destruct (if String.eqb _ "preset" then _ else None) as [[|c preset]|];
      split; reflexivity. }
  destruct Hcommitted as [Hlist Hactive].
  rewrite Hlist, Hactive.
  repeat split. apply normalize_resolvable.
Qed.

Definition orphanedSelection : ActivePaletteSelection :=
  {| palette_type := "custom"; preset_palette := None;
     custom_palette_id := Some "7f3c" |}.

(** Witness of C7: the server names a custom palette that the fetched list
    does not hold. *)
Lemma normalizeActivePaletteSelection_references_existing_witness :
  normalizeActivePaletteSelection orphanedSelection [] = createPresetSelection TokyoNight.
Proof.
  destruct (normalizeActivePaletteSelection_references_existing orphanedSelection [])
    as (_ & Horphan & _).
  apply Horphan.
  - reflexivity.
  - intros customId _ Hin. exact Hin.
Defined.

(** C8.  For an id that no known custom palette has, [selectCustomPalette]
    settles at once with the error and leaves the provider as it was: the
    active selection, the list, the preferences, and no request sent. *)
Theorem selectCustomPalette_unknown_id_throws_first
    (customPaletteId : string) (st : Provider) :
  ~ In customPaletteId (map AppearanceContext.id (customPalettes st)) ->
  selectCustomPalette customPaletteId st
  = (st, Settled (Throw "Custom palette not found.")).
Proof.
  intros Hunknown. unfold selectCustomPalette.
  rewrite (somePaletteHasId_not_In _ _ Hunknown).
  reflexivity.
Qed.

Definition signedInProvider : Provider :=
  {| persist := true; isLoggedIn := true;
     preferences := DEFAULT_APPEARANCE_PREFERENCES;
     activePalette := createPresetSelection TokyoNight;
     customPalettes := [];
     requests := [] |}.

(** Witness of C8: a signed-in provider that knows no custom palette. *)
Lemma selectCustomPalette_unknown_id_throws_first_witness :
  selectCustomPalette "7f3c" signedInProvider
  = (signedInProvider, Settled (Throw "Custom palette not found.")).
Proof.
  apply selectCustomPalette_unknown_id_throws_first.
  intros Hin. exact Hin.
Defined.

End PaletteSelectionTheorems.

(** ** The HTTP client *)

Module HttpClientFacts.

Import JsString HttpClient.
Local Open Scope nat_scope.
Local Open Scope list_scope.

(** *** The gate of the interceptor *)

Lemma onRejected_no_config (error : AxiosError) :
  config error = None -> onRejected error = Rethrow error.
Proof. intros H. unfold onRejected. now rewrite H. Qed.

Lemma onRejected_already_retried (error : AxiosError) (sent : RetryableRequestConfig) :
  config error = Some sent -> _retry sent = true -> onRejected error = Rethrow error.
Proof.
  intros Hconfig Hretry. unfold onRejected. rewrite Hconfig, Hretry.
  now rewrite orb_true_r.
Qed.

Lemma onRejected_auth_endpoint (error : AxiosError) (sent : RetryableRequestConfig)
    (address : string) :
  config error = Some sent -> url sent = Some address ->
  includes address "/auth/log-in" || includes address "/auth/refresh" = true ->
  onRejected error = Rethrow error.
Proof.
  intros Hconfig Hurl Hauth. unfold onRejected. rewrite Hconfig.
  cbn [mbind option_bind]. rewrite Hurl. cbn [default from_option id].
  rewrite <- !orb_assoc, Hauth. now rewrite !orb_true_r.
Qed.

(** What lets an error through the gate, and what the retry looks like. *)
Lemma onRejected_retry (error : AxiosError) (next : RetryableRequestConfig) :
  onRejected error = RefreshThenRetry next ->
  exists sent,
    config error = Some sent /\ status error = Some 401%Z /\ _retry sent = false /\
    next = {| url := url sent; _retry := true |}.
Proof.
  unfold onRejected. destruct (config error) as [sent|]; [|discriminate].
  destruct (negb (bool_decide (status error = Some 401%Z))) eqn:Hstatus; [discriminate|].
  destruct (_retry sent) eqn:Hretry; [discriminate|].
  cbn [orb]. destruct (includes _ _ || includes _ _); [discriminate|].
  intros [= <-]. exists sent.
  apply negb_false_iff, bool_decide_eq_true_1 in Hstatus. auto.
Qed.

(** The refresh POST never passes the gate: its URL is the refresh URL. *)
Lemma refreshPost_rethrown (a : answer) :
  onRejected (errorOf a refreshRequest) = Rethrow (errorOf a refreshRequest).
Proof.
  destruct a; try reflexivity.
  unfold onRejected, errorOf. cbn [config status mbind option_bind default url refreshRequest].
  destruct (negb _); [reflexivity|]. reflexivity.
Qed.


(** *** Counting what was sent *)

Lemma timesSent_log (call : nat) (st st' : Client) :
  adapterLog st' = adapterLog st -> timesSent call st' = timesSent call st.
Proof. unfold timesSent. now intros ->. Qed.

Lemma refreshPostsSent_log (st st' : Client) :
  adapterLog st' = adapterLog st -> refreshPostsSent st' = refreshPostsSent st.
Proof. unfold refreshPostsSent. now intros ->. Qed.

Lemma timesSent_dispatch (call : nat) (who : origin) (st : Client) :
  timesSent call (dispatch who st)
  = (if isFor call who then 1 else 0) + timesSent call st.
Proof.
  unfold timesSent, dispatch. cbn [adapterLog]. rewrite filter_cons.
  destruct (isFor call who); [rewrite decide_True by done | rewrite decide_False by done];
    reflexivity.
Qed.

Lemma refreshPostsSent_dispatch (who : origin) (st : Client) :
  refreshPostsSent (dispatch who st)
  = (if isRefresh who then 1 else 0) + refreshPostsSent st.
Proof.
  unfold refreshPostsSent, dispatch. cbn [adapterLog]. rewrite filter_cons.
  destruct (isRefresh who); [rewrite decide_True by done | rewrite decide_False by done];
    reflexivity.
Qed.

(** *** Flights *)

Lemma takeFlight_elem (t : nat) (flights : list flight) (f : flight) :
  takeFlight t flights = Some f -> f ∈ flights /\ ticket f = t.
Proof.
  unfold takeFlight. intros H. apply find_some in H. destruct H as [Hin Heq].
  split; [now apply list_elem_of_In | now apply Nat.eqb_eq].
Qed.

Lemma takeFlight_unique (flights : list flight) (f : flight) :
  NoDup (ticket <$> flights) -> f ∈ flights -> takeFlight (ticket f) flights = Some f.
Proof.
  induction flights as [|g rest IH]; intros Hnodup Hin.
  - now apply elem_of_nil in Hin.
  - rewrite fmap_cons in Hnodup. apply NoDup_cons in Hnodup. destruct Hnodup as [Hfresh Hnodup].
    unfold takeFlight. cbn [find].
    destruct (Nat.eqb (ticket g) (ticket f)) eqn:Heq.
    + apply Nat.eqb_eq in Heq. apply elem_of_cons in Hin. destruct Hin as [->|Hin]; [reflexivity|].
      exfalso. apply Hfresh. rewrite Heq. now apply list_elem_of_fmap_2.
    + apply elem_of_cons in Hin. destruct Hin as [->|Hin].
      * now rewrite Nat.eqb_refl in Heq.
      * now apply IH.
Qed.

(** Dropping the ticket of a flight removes that flight and no other. *)
Lemma dropFlight_split (before after : list flight) (f : flight) :
  NoDup (ticket <$> (before ++ f :: after)) ->
  dropFlight (ticket f) (before ++ f :: after) = before ++ after.
Proof.
  intros Hnodup. rewrite fmap_app, fmap_cons in Hnodup.
  apply NoDup_app in Hnodup. destruct Hnodup as (_ & Hbefore & Hafter).
  apply NoDup_cons in Hafter. destruct Hafter as [Hafter _].
  assert (Hkeep : forall l, ticket f ∉ ticket <$> l -> dropFlight (ticket f) l = l).
  { induction l as [|g l IH]; [reflexivity|].
    rewrite fmap_cons, not_elem_of_cons. intros [Hne Hrest].
    unfold dropFlight. rewrite filter_cons_True by congruence.
    f_equal. now apply IH. }
  unfold dropFlight. rewrite filter_app, filter_cons_False by (intros H; now apply H).
  fold (dropFlight (ticket f) before). fold (dropFlight (ticket f) after).
  rewrite !Hkeep; [reflexivity | exact Hafter |].
  intros Hin. apply (Hbefore _ Hin). now left.
Qed.


(** *** The invariant

    [pending] are interceptors taken off the waiting list whose resumption
    is still to run: the state in the middle of [settleRefresh]. *)

Definition callOf (f : flight) : option nat :=
  match sender f with
  | FromApplication call _ => Some call
  | RefreshPost => None
  end.

Definition appCalls (flights : list flight) : list nat := omap callOf flights.

(** The application calls that have not settled. *)
Definition liveCalls (pending : list suspended) (st : Client) : list nat :=
  appCalls (wire st) ++ (forCall <$> waiting st) ++ (forCall <$> pending).

Definition flightCounted (st : Client) (f : flight) : Prop :=
  match sender f with
  | FromApplication call sent =>
      1 <= timesSent call st /\ timesSent call st <= 2
      /\ (_retry sent = false -> timesSent call st = 1)
  | RefreshPost => True
  end.

Definition waiterCounted (st : Client) (w : suspended) : Prop :=
  timesSent (forCall w) st = 1 /\ _retry (retryConfig w) = true.

Record coherent (pending : list suspended) (st : Client) : Prop := {
  tickets_fresh : forall f, f ∈ wire st -> ticket f < nextId st;
  tickets_nodup : NoDup (ticket <$> wire st);
  refresh_is_handle :
    forall f, f ∈ wire st -> sender f = RefreshPost ->
              inFlightRefreshPromise st = Some (ticket f);
  handle_is_refresh :
    forall p, inFlightRefreshPromise st = Some p ->
              {| ticket := p; sender := RefreshPost |} ∈ wire st;
  waiting_share :
    forall w, w ∈ waiting st -> inFlightRefreshPromise st = Some (awaited w);
  calls_fresh : forall call, 0 < timesSent call st -> call < nextId st;
  live_nodup : NoDup (liveCalls pending st);
  wire_counted : forall f, f ∈ wire st -> flightCounted st f;
  waiters_counted : forall w, w ∈ waiting st ++ pending -> waiterCounted st w;
  sent_bound : forall call, timesSent call st <= 2;
}.

Lemma coherent_initial : coherent [] initial.
Proof.
  split; cbn; try (intros; exfalso; eapply elem_of_nil; eassumption);
    try constructor; try discriminate; intros; lia.
Qed.

Lemma appCalls_elem (flights : list flight) (f : flight) (call : nat)
    (sent : RetryableRequestConfig) :
  f ∈ flights -> sender f = FromApplication call sent -> call ∈ appCalls flights.
Proof.
  intros Hin Hsender. apply list_elem_of_omap. exists f.
  split; [exact Hin|]. unfold callOf. now rewrite Hsender.
Qed.

Lemma liveCalls_flight (pending : list suspended) (st : Client) (f : flight)
    (call : nat) (sent : RetryableRequestConfig) :
  f ∈ wire st -> sender f = FromApplication call sent -> call ∈ liveCalls pending st.
Proof.
  intros Hin Hsender. unfold liveCalls. apply elem_of_app. left.
  eapply appCalls_elem; eassumption.
Qed.

Lemma liveCalls_waiter (pending : list suspended) (st : Client) (w : suspended) :
  w ∈ waiting st ++ pending -> forCall w ∈ liveCalls pending st.
Proof.
  intros Hin. unfold liveCalls. apply elem_of_app. right.
  rewrite <- fmap_app. now apply list_elem_of_fmap_2.
Qed.

(** Settling an application call touches nothing the invariant reads. *)
Lemma coherent_settleCall (pending : list suspended) (st : Client)
    (call : nat) (result : settlement) :
  coherent pending st -> coherent pending (settleCall call result st).
Proof. intros [? ? ? ? ? ? ? ? ? ?]. split; assumption. Qed.

(** A request on behalf of a call that is not live, sent for the first time
    or, marked, for the second. *)
Lemma coherent_dispatch_app (pending : list suspended) (st : Client)
    (call : nat) (sent : RetryableRequestConfig) :
  coherent pending st ->
  call ∉ liveCalls pending st ->
  call <= nextId st ->
  timesSent call st < 2 ->
  (_retry sent = false -> timesSent call st = 0) ->
  coherent pending (dispatch (FromApplication call sent) st).
Proof.
  intros [Hfresh Hnodup Hrefresh Hhandle Hshare Hcalls Hlive Hwire Hwaiters Hbound]
         Hnew Hle Hlt Hfirst.
  assert (Hcount : forall c, timesSent c (dispatch (FromApplication call sent) st)
                             = (if Nat.eqb call c then 1 else 0) + timesSent c st).
  { intros c. rewrite timesSent_dispatch. cbn [isFor]. reflexivity. }
  assert (Hother : forall c, c ∈ liveCalls pending st ->
                             timesSent c (dispatch (FromApplication call sent) st)
                             = timesSent c st).
  { intros c Hin. rewrite Hcount.
    destruct (Nat.eqb call c) eqn:Heq; [|reflexivity].
    apply Nat.eqb_eq in Heq. subst c. contradiction. }
  split; cbn [wire waiting inFlightRefreshPromise nextId dispatch].
  - intros f Hin. apply elem_of_app in Hin. destruct Hin as [Hin|Hin].
    + specialize (Hfresh f Hin). lia.
    + apply list_elem_of_singleton in Hin. subst f. cbn. lia.
  - rewrite fmap_app. apply NoDup_app. split; [exact Hnodup|]. split; [|apply NoDup_singleton].
    intros t Hin Hin'. apply list_elem_of_singleton in Hin'. subst t.
    apply list_elem_of_fmap in Hin. destruct Hin as (f & Heq & Hin).
    specialize (Hfresh f Hin). cbn in Heq. lia.
  - intros f Hin Hsender. apply elem_of_app in Hin. destruct Hin as [Hin|Hin].
    + now apply Hrefresh.
    + apply list_elem_of_singleton in Hin. subst f. discriminate Hsender.
  - intros p Hp. apply elem_of_app. left. now apply Hhandle.
  - exact Hshare.
  - intros c Hc. rewrite Hcount in Hc.
    destruct (Nat.eqb call c) eqn:Heq.
    + apply Nat.eqb_eq in Heq. subst c. lia.
    + specialize (Hcalls c). cbn in Hc. lia.
  - unfold liveCalls in *. cbn [wire waiting dispatch].
    unfold appCalls in *. rewrite omap_app. cbn [omap callOf sender].
    rewrite <- app_assoc. cbn [app].
    apply NoDup_app in Hlive. destruct Hlive as (Hcalls1 & Hdisjoint & Hrest).
    apply NoDup_app. split; [exact Hcalls1|]. split.
    + intros c Hin Hin'. apply elem_of_cons in Hin'. destruct Hin' as [->|Hin'].
      * apply Hnew. apply elem_of_app. now left.
      * exact (Hdisjoint c Hin Hin').
    + apply NoDup_cons. split; [|exact Hrest].
      intros Hin. apply Hnew. apply elem_of_app. now right.
  - intros f Hin. apply elem_of_app in Hin. destruct Hin as [Hin|Hin].
    + specialize (Hwire f Hin). unfold flightCounted in *.
      destruct (sender f) as [c cfg|] eqn:Hsender; [|exact I].
      rewrite (Hother c (liveCalls_flight pending st f c cfg Hin Hsender)). exact Hwire.
    + apply list_elem_of_singleton in Hin. subst f. unfold flightCounted. cbn [sender].
      rewrite Hcount, Nat.eqb_refl. split; [lia|]. split; [lia|].
      intros Hretry. rewrite (Hfirst Hretry). reflexivity.
  - intros w Hin. specialize (Hwaiters w Hin). unfold waiterCounted in *.
    rewrite (Hother _ (liveCalls_waiter pending st w Hin)). exact Hwaiters.
  - intros c. rewrite Hcount. specialize (Hbound c).
    destruct (Nat.eqb call c) eqn:Heq; [|cbn; lia].
    apply Nat.eqb_eq in Heq. subst c. lia.
Qed.


(** The next pending interceptor: its call is live nowhere else. *)
Lemma coherent_next_pending (w : suspended) (pending : list suspended) (st : Client) :
  coherent (w :: pending) st ->
  coherent pending st /\ (forCall w ∉ liveCalls pending st) /\ waiterCounted st w.
Proof.
  intros [Hfresh Hnodup Hrefresh Hhandle Hshare Hcalls Hlive Hwire Hwaiters Hbound].
  assert (Hperm : liveCalls (w :: pending) st ≡ₚ (forCall w :: liveCalls pending st)).
  { unfold liveCalls. rewrite fmap_cons.
    rewrite !app_assoc. symmetry. apply Permutation_middle. }
  rewrite Hperm in Hlive. apply NoDup_cons in Hlive. destruct Hlive as [Hnew Hlive].
  split; [|split].
  - split; try assumption.
    intros w' Hin. apply Hwaiters. apply elem_of_app in Hin. apply elem_of_app.
    destruct Hin as [Hin|Hin]; [now left | right; now right].
  - exact Hnew.
  - apply Hwaiters. apply elem_of_app. right. now left.
Qed.

Lemma coherent_resume (result : settlement) (w : suspended)
    (pending : list suspended) (st : Client) :
  coherent (w :: pending) st -> coherent pending (resume result w st).
Proof.
  intros Hco. destruct (coherent_next_pending w pending st Hco) as (Hrest & Hnew & Hone & Hretry).
  destruct result as [|error]; cbn [resume].
  - apply coherent_dispatch_app; try assumption.
    + pose proof (calls_fresh _ _ Hrest (forCall w)). lia.
    + lia.
    + rewrite Hretry. discriminate.
  - now apply coherent_settleCall.
Qed.

Lemma coherent_resume_all (result : settlement) (pending : list suspended) (st : Client) :
  coherent pending st ->
  coherent [] (fold_left (fun acc w => resume result w acc) pending st).
Proof.
  revert st. induction pending as [|w pending IH]; intros st Hco; [exact Hco|].
  cbn [fold_left]. apply IH. now apply coherent_resume.
Qed.

Lemma appCalls_split (before after : list flight) (f : flight) (call : nat)
    (sent : RetryableRequestConfig) :
  sender f = FromApplication call sent ->
  appCalls (before ++ f :: after) = appCalls before ++ call :: appCalls after.
Proof.
  intros Hsender. unfold appCalls. rewrite omap_app. f_equal.
  assert (Hcall : callOf f = Some call) by (unfold callOf; now rewrite Hsender).
  change (omap callOf (f :: after))
    with (match callOf f with Some c => c :: omap callOf after | None => omap callOf after end).
  now rewrite Hcall.
Qed.

(** Taking an application request off the wire. *)
Lemma coherent_take_app (pending : list suspended) (st : Client) (t : nat)
    (f : flight) (call : nat) (sent : RetryableRequestConfig) :
  coherent pending st ->
  takeFlight t (wire st) = Some f ->
  sender f = FromApplication call sent ->
  coherent pending (setWire (dropFlight t (wire st)) st)
  /\ (call ∉ liveCalls pending (setWire (dropFlight t (wire st)) st))
  /\ flightCounted st f.
Proof.
  intros [Hfresh Hnodup Hrefresh Hhandle Hshare Hcalls Hlive Hwire Hwaiters Hbound]
         Htake Hsender.
  apply takeFlight_elem in Htake. destruct Htake as [Hin <-].
  pose proof (Hwire f Hin) as Hcounted.
  apply list_elem_of_split in Hin. destruct Hin as (before & after & Hsplit).
  rewrite Hsplit in Hnodup.
  rewrite Hsplit. rewrite (dropFlight_split before after f Hnodup).
  assert (Hsub : forall g, g ∈ before ++ after -> g ∈ wire st).
  { intros g Hg. rewrite Hsplit. apply elem_of_app in Hg. apply elem_of_app.
    destruct Hg as [Hg|Hg]; [now left | right; now right]. }
  unfold liveCalls in Hlive. rewrite Hsplit in Hlive.
  rewrite (appCalls_split before after f call sent Hsender) in Hlive.
  rewrite <- app_assoc in Hlive. cbn [app] in Hlive.
  apply NoDup_app in Hlive. destruct Hlive as (Hb & Hdisjoint & Hrest).
  apply NoDup_cons in Hrest. destruct Hrest as [Hnew Hrest].
  split; [|split; [|exact Hcounted]].
  - split; cbn [wire waiting inFlightRefreshPromise nextId setWire]; try assumption.
    + intros g Hg. apply Hfresh. now apply Hsub.
    + rewrite fmap_app, fmap_cons in Hnodup. rewrite fmap_app.
      apply NoDup_app in Hnodup. destruct Hnodup as (H1 & H2 & H3).
      apply NoDup_cons in H3. destruct H3 as [_ H3].
      apply NoDup_app. split; [exact H1|]. split; [|exact H3].
      intros x Hx Hx'. apply (H2 x Hx). now right.
    + intros g Hg. apply Hrefresh. now apply Hsub.
    + intros p Hp. specialize (Hhandle p Hp). rewrite Hsplit in Hhandle.
      apply elem_of_app in Hhandle. apply elem_of_app.
      destruct Hhandle as [Hh|Hh]; [now left|].
      apply elem_of_cons in Hh. destruct Hh as [Hh|Hh]; [|now right].
      subst f. discriminate Hsender.
    + unfold liveCalls. cbn [wire waiting setWire]. unfold appCalls in *.
      rewrite omap_app, <- app_assoc.
      apply NoDup_app. split; [exact Hb|]. split; [|exact Hrest].
      intros x Hx Hx'. apply (Hdisjoint x Hx). now right.
    + intros g Hg. apply (Hwire g). now apply Hsub.
  - unfold liveCalls. cbn [wire waiting setWire]. unfold appCalls in *.
    rewrite omap_app, <- app_assoc. intros Hin.
    apply elem_of_app in Hin. destruct Hin as [Hin|Hin].
    + apply (Hdisjoint call Hin). now left.
    + exact (Hnew Hin).
Qed.

(** A waiter joins the handle that is in flight. *)
Lemma coherent_suspend (pending : list suspended) (st : Client) (w : suspended) :
  coherent pending st ->
  forCall w ∉ liveCalls pending st ->
  waiterCounted st w ->
  inFlightRefreshPromise st = Some (awaited w) ->
  coherent pending (setWaiting (waiting st ++ [w]) st).
Proof.
  intros [Hfresh Hnodup Hrefresh Hhandle Hshare Hcalls Hlive Hwire Hwaiters Hbound]
         Hnew Hcounted Hawaits.
  split; cbn [wire waiting inFlightRefreshPromise nextId setWaiting]; try assumption.
  - intros w' Hin. apply elem_of_app in Hin. destruct Hin as [Hin|Hin]; [now apply Hshare|].
    apply list_elem_of_singleton in Hin. now subst w'.
  - unfold liveCalls in *. cbn [wire waiting setWaiting].
    rewrite fmap_app. cbn [fmap list_fmap].
    assert (Hperm : appCalls (wire st) ++ (((forCall <$> waiting st) ++ [forCall w])
                                       ++ (forCall <$> pending))
                    ≡ₚ forCall w :: (appCalls (wire st) ++ ((forCall <$> waiting st)
                                 ++ (forCall <$> pending)))).
    { rewrite <- !app_assoc. cbn [app]. rewrite !app_assoc.
      symmetry. apply Permutation_middle. }
    rewrite Hperm. apply NoDup_cons. split; assumption.
  - intros w' Hin. rewrite <- app_assoc in Hin.
    apply elem_of_app in Hin. destruct Hin as [Hin|Hin].
    + apply Hwaiters. apply elem_of_app. now left.
    + apply elem_of_cons in Hin. destruct Hin as [->|Hin]; [exact Hcounted|].
      apply Hwaiters. apply elem_of_app. now right.
Qed.

(** [refreshAccessToken] with no handle: the POST goes out and becomes the
    handle. *)
Lemma coherent_refresh_post (pending : list suspended) (st : Client) :
  coherent pending st ->
  inFlightRefreshPromise st = None ->
  coherent pending (setInFlight (Some (nextId st)) (dispatch RefreshPost st)).
Proof.
  intros [Hfresh Hnodup Hrefresh Hhandle Hshare Hcalls Hlive Hwire Hwaiters Hbound] Hnone.
  assert (Hcount : forall c, timesSent c (setInFlight (Some (nextId st)) (dispatch RefreshPost st))
                             = timesSent c st).
  { intros c. rewrite (timesSent_log c (dispatch RefreshPost st)) by reflexivity.
    now rewrite timesSent_dispatch. }
  split; cbn [wire waiting inFlightRefreshPromise nextId setInFlight dispatch].
  - intros f Hin. apply elem_of_app in Hin. destruct Hin as [Hin|Hin].
    + specialize (Hfresh f Hin). lia.
    + apply list_elem_of_singleton in Hin. subst f. cbn. lia.
  - rewrite fmap_app. apply NoDup_app. split; [exact Hnodup|]. split; [|apply NoDup_singleton].
    intros t Hin Hin'. apply list_elem_of_singleton in Hin'. subst t.
    apply list_elem_of_fmap in Hin. destruct Hin as (f & Heq & Hin).
    specialize (Hfresh f Hin). cbn in Heq. lia.
  - intros f Hin Hsender. apply elem_of_app in Hin. destruct Hin as [Hin|Hin].
    + specialize (Hrefresh f Hin Hsender). congruence.
    + apply list_elem_of_singleton in Hin. now subst f.
  - intros p [= <-]. apply elem_of_app. right. now apply list_elem_of_singleton.
  - intros w Hin. specialize (Hshare w Hin). congruence.
  - intros c. rewrite Hcount. intros Hc. specialize (Hcalls c Hc). lia.
  - unfold liveCalls in *. cbn [wire waiting setInFlight dispatch].
    unfold appCalls in *. rewrite omap_app. cbn [omap callOf sender].
    now rewrite app_nil_r.
  - intros f Hin. apply elem_of_app in Hin. destruct Hin as [Hin|Hin].
    + specialize (Hwire f Hin). unfold flightCounted in *.
      destruct (sender f); [|exact I]. now rewrite Hcount.
    + apply list_elem_of_singleton in Hin. now subst f.
  - intros w Hin. specialize (Hwaiters w Hin). unfold waiterCounted in *.
    now rewrite Hcount.
  - intros c. rewrite Hcount. apply Hbound.
Qed.


Lemma filter_keeps_all {A} (P : A -> Prop) `{forall x, Decision (P x)} (l : list A) :
  (forall x, x ∈ l -> P x) -> filter P l = l.
Proof.
  induction l as [|x l IH]; intros Hall; [reflexivity|].
  rewrite filter_cons_True by (apply Hall; now left).
  f_equal. apply IH. intros y Hy. apply Hall. now right.
Qed.

Lemma filter_keeps_none {A} (P : A -> Prop) `{forall x, Decision (P x)} (l : list A) :
  (forall x, x ∈ l -> ~ P x) -> filter P l = [].
Proof.
  induction l as [|x l IH]; intros Hnone; [reflexivity|].
  rewrite filter_cons_False by (apply Hnone; now left).
  apply IH. intros y Hy. apply Hnone. now right.
Qed.

Lemma appCalls_skip_refresh (before after : list flight) (f : flight) :
  sender f = RefreshPost ->
  appCalls (before ++ f :: after) = appCalls (before ++ after).
Proof.
  intros Hsender. unfold appCalls. rewrite !omap_app. f_equal.
  assert (Hcall : callOf f = None) by (unfold callOf; now rewrite Hsender).
  change (omap callOf (f :: after))
    with (match callOf f with Some c => c :: omap callOf after | None => omap callOf after end).
  now rewrite Hcall.
Qed.

(** Taking the refresh POST off the wire: it is the handle, every suspended
    interceptor awaits it, and with the handle cleared they are all pending. *)
Lemma coherent_take_refresh (st : Client) (t : nat) (f : flight) :
  coherent [] st ->
  takeFlight t (wire st) = Some f ->
  sender f = RefreshPost ->
  inFlightRefreshPromise st = Some t
  /\ filter (fun w => awaited w = t) (waiting st) = waiting st
  /\ filter (fun w => awaited w ≠ t) (waiting st) = []
  /\ coherent (waiting st)
       (setWaiting [] (setInFlight None (setWire (dropFlight t (wire st)) st))).
Proof.
  intros [Hfresh Hnodup Hrefresh Hhandle Hshare Hcalls Hlive Hwire Hwaiters Hbound]
         Htake Hsender.
  apply takeFlight_elem in Htake. destruct Htake as [Hin <-].
  pose proof (Hrefresh f Hin Hsender) as Hpromise.
  assert (Hawait : forall w, w ∈ waiting st -> awaited w = ticket f).
  { intros w Hw. specialize (Hshare w Hw). congruence. }
  split; [exact Hpromise|].
  split; [now apply filter_keeps_all|].
  split; [apply filter_keeps_none; intros w Hw Hne; now apply Hne, Hawait|].
  apply list_elem_of_split in Hin. destruct Hin as (before & after & Hsplit).
  rewrite Hsplit in Hnodup.
  rewrite Hsplit. rewrite (dropFlight_split before after f Hnodup).
  assert (Hsub : forall g, g ∈ before ++ after -> g ∈ wire st).
  { intros g Hg. rewrite Hsplit. apply elem_of_app in Hg. apply elem_of_app.
    destruct Hg as [Hg|Hg]; [now left | right; now right]. }
  assert (Hgone : ticket f ∉ ticket <$> (before ++ after)).
  { rewrite fmap_app, fmap_cons in Hnodup. rewrite fmap_app.
    apply NoDup_app in Hnodup. destruct Hnodup as (_ & H2 & H3).
    apply NoDup_cons in H3. destruct H3 as [H3 _].
    intros Hg. apply elem_of_app in Hg. destruct Hg as [Hg|Hg]; [|contradiction].
    apply (H2 _ Hg). now left. }
  split; cbn [wire waiting inFlightRefreshPromise nextId setWire setInFlight setWaiting];
    try assumption.
  - intros g Hg. apply Hfresh. now apply Hsub.
  - rewrite fmap_app, fmap_cons in Hnodup. rewrite fmap_app.
    apply NoDup_app in Hnodup. destruct Hnodup as (H1 & H2 & H3).
    apply NoDup_cons in H3. destruct H3 as [_ H3].
    apply NoDup_app. split; [exact H1|]. split; [|exact H3].
    intros x Hx Hx'. apply (H2 x Hx). now right.
  - intros g Hg Hg'. exfalso. apply Hgone.
    pose proof (Hrefresh g (Hsub g Hg) Hg') as Hsame.
    assert (Heq : ticket f = ticket g) by congruence.
    rewrite Heq. now apply list_elem_of_fmap_2.
  - discriminate.
  - intros w Hw. now apply elem_of_nil in Hw.
  - unfold liveCalls in *. cbn [wire waiting setWire setInFlight setWaiting].
    rewrite Hsplit, (appCalls_skip_refresh before after f Hsender) in Hlive.
    cbn [fmap list_fmap app] in *. now rewrite app_nil_r in Hlive.
  - intros g Hg. apply (Hwire g). now apply Hsub.
  - intros w Hw. apply Hwaiters. now rewrite app_nil_r.
Qed.

Lemma coherent_settleRefresh (st : Client) (t : nat) (f : flight) (result : settlement) :
  coherent [] st ->
  takeFlight t (wire st) = Some f ->
  sender f = RefreshPost ->
  coherent [] (settleRefresh t result (setWire (dropFlight t (wire st)) st)).
Proof.
  intros Hco Htake Hsender.
  destruct (coherent_take_refresh st t f Hco Htake Hsender) as (_ & Hall & Hnone & Hrest).
  unfold settleRefresh. cbn [waiting setInFlight setWire].
  rewrite Hall, Hnone. now apply coherent_resume_all.
Qed.

Lemma live_call_sent (st : Client) (call : nat) :
  coherent [] st -> call ∈ liveCalls [] st -> 0 < timesSent call st.
Proof.
  intros Hco Hin. unfold liveCalls in Hin. cbn [fmap list_fmap] in Hin.
  rewrite app_nil_r in Hin. apply elem_of_app in Hin. destruct Hin as [Hin|Hin].
  - apply list_elem_of_omap in Hin. destruct Hin as (f & Hf & Hcall).
    pose proof (wire_counted _ _ Hco f Hf) as Hcounted.
    unfold flightCounted in Hcounted. unfold callOf in Hcall.
    destruct (sender f); [|discriminate]. injection Hcall as ->. lia.
  - apply list_elem_of_fmap in Hin. destruct Hin as (w & -> & Hw).
    assert (Hw' : w ∈ waiting st ++ []) by now rewrite app_nil_r.
    destruct (waiters_counted _ _ Hco w Hw') as [Hone _]. lia.
Qed.

Lemma coherent_request (st : Client) (requestConfig : RetryableRequestConfig) :
  coherent [] st -> coherent [] (request requestConfig st).
Proof.
  intros Hco. unfold request.
  assert (Hzero : timesSent (nextId st) st = 0).
  { destruct (timesSent (nextId st) st) eqn:E; [reflexivity|].
    pose proof (calls_fresh _ _ Hco (nextId st)). lia. }
  apply coherent_dispatch_app; try assumption; try lia.
  intros Hin. apply (live_call_sent st _ Hco) in Hin. lia.
Qed.

Lemma errorOf_config (a : answer) (sent sent' : RetryableRequestConfig) :
  config (errorOf a sent) = Some sent' -> sent' = sent.
Proof. destruct a; cbn; congruence. Qed.

Lemma coherent_answered (st : Client) (t : nat) (a : answer) :
  coherent [] st -> coherent [] (answered t a st).
Proof.
  intros Hco. unfold answered.
  destruct (takeFlight t (wire st)) as [f|] eqn:Htake; [|exact Hco].
  destruct (sender f) as [call sent|] eqn:Hsender.
  - destruct (coherent_take_app [] st t f call sent Hco Htake Hsender)
      as (Hrest & Hnew & Hcounted).
    unfold flightCounted in Hcounted. rewrite Hsender in Hcounted.
    destruct Hcounted as (Hge & Hle & Hfirst).
    set (st1 := setWire (dropFlight t (wire st)) st) in *.
    assert (Hsuspend : forall next,
               onRejected (errorOf a sent) = RefreshThenRetry next ->
               coherent []
                 (let '(promise, st2) := refreshAccessToken st1 in
                  setWaiting (waiting st2 ++ [ {| awaited := promise; forCall := call;
                                                 retryConfig := next;
                                                 originalError := errorOf a sent |} ]) st2)).
    { intros next Hgate. apply onRejected_retry in Hgate.
      destruct Hgate as (sent' & Hconfig & _ & Hretry & ->).
      apply errorOf_config in Hconfig. subst sent'.
      specialize (Hfirst Hretry).
      unfold refreshAccessToken.
      destruct (inFlightRefreshPromise st1) as [pending|] eqn:Hhandle.
      - apply coherent_suspend; try assumption. split; [exact Hfirst | reflexivity].
      - apply coherent_suspend.
        + now apply coherent_refresh_post.
        + unfold liveCalls in *. cbn [wire waiting setInFlight dispatch].
          unfold appCalls in *. rewrite omap_app. cbn [omap callOf sender].
          now rewrite app_nil_r.
        + split; [|reflexivity]. cbn [forCall].
          rewrite (timesSent_log call (dispatch RefreshPost st1)) by reflexivity.
          rewrite timesSent_dispatch. exact Hfirst.
        + reflexivity. }
    destruct a; try (now apply coherent_settleCall);
      match goal with
      | |- context [onRejected ?e] =>
          destruct (onRejected e) eqn:Hgate;
          [now apply coherent_settleCall | now apply Hsuspend]
      end.
  - destruct a; try (eapply coherent_settleRefresh; eassumption);
      rewrite refreshPost_rethrown; eapply coherent_settleRefresh; eassumption.
Qed.

Lemma coherent_run (events : list event) : coherent [] (run events).
Proof.
  unfold run. induction events as [|e events IH] using rev_ind; [exact coherent_initial|].
  rewrite fold_left_app. cbn [fold_left].
  destruct e; [now apply coherent_request | now apply coherent_answered].
Qed.


(** *** What the invariant says about refreshes in flight *)

Lemma refreshesInFlight_handle (st : Client) :
  coherent [] st ->
  refreshesInFlight st = match inFlightRefreshPromise st with Some _ => 1 | None => 0 end.
Proof.
  intros Hco. unfold refreshesInFlight.
  destruct (inFlightRefreshPromise st) as [p|] eqn:Hhandle.
  - pose proof (handle_is_refresh _ _ Hco p Hhandle) as Hin.
    apply list_elem_of_split in Hin. destruct Hin as (before & after & Hsplit).
    pose proof (tickets_nodup _ _ Hco) as Hnodup. rewrite Hsplit in Hnodup.
    rewrite fmap_app, fmap_cons in Hnodup. cbn [ticket] in Hnodup.
    apply NoDup_app in Hnodup. destruct Hnodup as (_ & Hbefore & Hafter).
    apply NoDup_cons in Hafter. destruct Hafter as [Hafter _].
    assert (Hother : forall g, g ∈ before ++ after -> ~ isRefresh (sender g) = true).
    { intros g Hg Hrefresh.
      assert (Hsender : sender g = RefreshPost) by (destruct (sender g); [discriminate | reflexivity]).
      assert (Hwire : g ∈ wire st).
      { rewrite Hsplit. apply elem_of_app in Hg. apply elem_of_app.
        destruct Hg as [Hg|Hg]; [now left | right; now right]. }
      pose proof (refresh_is_handle _ _ Hco g Hwire Hsender) as Hsame.
      assert (Hp : ticket g = p) by congruence.
      apply elem_of_app in Hg. destruct Hg as [Hg|Hg].
      - apply (Hbefore p); [rewrite <- Hp; now apply list_elem_of_fmap_2 | now left].
      - apply Hafter. rewrite <- Hp. now apply list_elem_of_fmap_2. }
    rewrite Hsplit, filter_app, filter_cons_True by reflexivity.
    rewrite (filter_keeps_none _ before), (filter_keeps_none _ after).
    + reflexivity.
    + intros g Hg. apply Hother. apply elem_of_app. now right.
    + intros g Hg. apply Hother. apply elem_of_app. now left.
  - rewrite filter_keeps_none; [reflexivity|].
    intros g Hg Hrefresh.
    assert (Hsender : sender g = RefreshPost) by (destruct (sender g); [discriminate | reflexivity]).
    pose proof (refresh_is_handle _ _ Hco g Hg Hsender). congruence.
Qed.

Lemma coherent_no_waiters (st : Client) :
  coherent [] st -> inFlightRefreshPromise st = None -> waiting st = [].
Proof.
  intros Hco Hnone. destruct (waiting st) as [|w ws] eqn:E; [reflexivity|].
  pose proof (waiting_share _ _ Hco w) as Hshare.
  rewrite E in Hshare. specialize (Hshare (ltac:(now left))). congruence.
Qed.

(** *** Closed forms of the steps *)

Definition settlementOf (a : answer) : settlement :=
  match a with
  | Fulfilled => Resolved
  | _ => Rejected (errorOf a refreshRequest)
  end.

(** The answer to the refresh POST, in a coherent state. *)
Lemma answered_refresh (st : Client) (p : nat) (a : answer) :
  coherent [] st ->
  inFlightRefreshPromise st = Some p ->
  answered p a st
  = fold_left (fun acc w => resume (settlementOf a) w acc) (waiting st)
      (setWaiting [] (setInFlight None (setWire (dropFlight p (wire st)) st))).
Proof.
  intros Hco Hhandle.
  pose proof (handle_is_refresh _ _ Hco p Hhandle) as Hin.
  pose proof (takeFlight_unique _ _ (tickets_nodup _ _ Hco) Hin) as Htake.
  cbn [ticket] in Htake.
  destruct (coherent_take_refresh st p _ Hco Htake eq_refl) as (_ & Hall & Hnone & _).
  unfold answered. rewrite Htake. cbn [sender].
  assert (Hsettle : forall result,
             settleRefresh p result (setWire (dropFlight p (wire st)) st)
             = fold_left (fun acc w => resume result w acc) (waiting st)
                 (setWaiting [] (setInFlight None (setWire (dropFlight p (wire st)) st)))).
  { intros result. unfold settleRefresh. cbn [waiting setInFlight setWire].
    now rewrite Hall, Hnone. }
  destruct a; cbn [settlementOf]; try rewrite refreshPost_rethrown; apply Hsettle.
Qed.

Lemma resume_all_rejected (error : AxiosError) (ws : list suspended) (st : Client) :
  let st' := fold_left (fun acc w => resume (Rejected error) w acc) ws st in
  inFlightRefreshPromise st' = inFlightRefreshPromise st
  /\ wire st' = wire st /\ waiting st' = waiting st
  /\ adapterLog st' = adapterLog st /\ nextId st' = nextId st
  /\ outcomes st'
     = rev ((fun w => (forCall w, Rejected error)) <$> ws) ++ outcomes st.
Proof.
  cbv zeta. revert st. induction ws as [|w ws IH]; intros st.
  - repeat split; reflexivity.
  - cbn [fold_left].
    destruct (IH (resume (Rejected error) w st)) as (H1 & H2 & H3 & H4 & H5 & H6).
    rewrite H1, H2, H3, H4, H5, H6.
    cbn [resume settleCall inFlightRefreshPromise wire waiting adapterLog nextId outcomes].
    repeat split. rewrite fmap_cons. cbn [rev]. now rewrite <- app_assoc.
Qed.

Lemma resume_all_resolved (ws : list suspended) (st : Client) :
  let st' := fold_left (fun acc w => resume Resolved w acc) ws st in
  inFlightRefreshPromise st' = inFlightRefreshPromise st
  /\ waiting st' = waiting st /\ outcomes st' = outcomes st
  /\ adapterLog st'
     = rev ((fun w => FromApplication (forCall w) (retryConfig w)) <$> ws) ++ adapterLog st.
Proof.
  cbv zeta. revert st. induction ws as [|w ws IH]; intros st.
  - repeat split; reflexivity.
  - cbn [fold_left].
    destruct (IH (resume Resolved w st)) as (H1 & H2 & H3 & H4).
    rewrite H1, H2, H3, H4.
    cbn [resume dispatch inFlightRefreshPromise waiting adapterLog outcomes].
    repeat split. rewrite fmap_cons. cbn [rev]. now rewrite <- app_assoc.
Qed.

Lemma refreshPostsSent_app_calls (ws : list suspended) (log : list origin) :
  length (filter (fun o => isRefresh o = true)
            (rev ((fun w => FromApplication (forCall w) (retryConfig w)) <$> ws) ++ log))
  = length (filter (fun o => isRefresh o = true) log).
Proof.
  rewrite filter_app, length_app.
  rewrite filter_keeps_none; [reflexivity|].
  intros o Ho. apply list_elem_of_In in Ho. apply in_rev in Ho.
  apply list_elem_of_In in Ho. apply list_elem_of_fmap in Ho. destruct Ho as (w & -> & _). discriminate.
Qed.

End HttpClientFacts.

Module HttpClientTheorems.

Import JsString HttpClient HttpClientFacts.
Local Open Scope nat_scope.
Local Open Scope list_scope.

(** An application request on the wire that is about to be answered 401. *)
Record expiring := {
  onTicket : nat;
  ofCall : nat;
  withConfig : RetryableRequestConfig;
}.

Definition flightOf (x : expiring) : flight :=
  {| ticket := onTicket x; sender := FromApplication (ofCall x) (withConfig x) |}.

(** The interceptor invocation that the 401 leaves suspended on [promise]. *)
Definition waiterOf (promise : nat) (x : expiring) : suspended :=
  {| awaited := promise;
     forCall := ofCall x;
     retryConfig := {| url := url (withConfig x); _retry := true |};
     originalError := errorOf (BadStatus 401) (withConfig x) |}.

(** The request is on the wire and its 401 passes the gate of the interceptor. *)
Definition expires (st : Client) (x : expiring) : Prop :=
  takeFlight (onTicket x) (wire st) = Some (flightOf x)
  /\ onRejected (errorOf (BadStatus 401) (withConfig x))
     = RefreshThenRetry {| url := url (withConfig x); _retry := true |}.

Definition fail401 (st : Client) (x : expiring) : Client :=
  answered (onTicket x) (BadStatus 401) st.

Lemma takeFlight_dropFlight_ne (t t' : nat) (flights : list flight) :
  t' <> t -> takeFlight t' (dropFlight t flights) = takeFlight t' flights.
Proof.
  intros Hne. induction flights as [|g flights IH]; [reflexivity|].
  unfold dropFlight, takeFlight in *. rewrite filter_cons.
  destruct (decide (ticket g ≠ t)) as [Hkeep|Hdrop]; cbn [find].
  - now rewrite IH.
  - rewrite IH. apply dec_stable in Hdrop.
    destruct (Nat.eqb (ticket g) t') eqn:Heq; [|reflexivity].
    apply Nat.eqb_eq in Heq. congruence.
Qed.

Lemma takeFlight_app_l (t : nat) (flights more : list flight) (f : flight) :
  takeFlight t flights = Some f -> takeFlight t (flights ++ more) = Some f.
Proof.
  unfold takeFlight. induction flights as [|g flights IH]; [discriminate|].
  cbn [find app]. destruct (Nat.eqb (ticket g) t); [trivial | exact IH].
Qed.

Lemma fail401_joins (st : Client) (x : expiring) (p : nat) :
  expires st x -> inFlightRefreshPromise st = Some p ->
  fail401 st x
  = setWaiting (waiting st ++ [waiterOf p x]) (setWire (dropFlight (onTicket x) (wire st)) st).
Proof.
  intros [Htake Hgate] Hhandle. unfold fail401, answered.
  rewrite Htake. cbn [sender flightOf]. rewrite Hgate.
  unfold refreshAccessToken. cbn [inFlightRefreshPromise setWire]. rewrite Hhandle.
  reflexivity.
Qed.

Lemma fail401_starts (st : Client) (x : expiring) :
  expires st x -> inFlightRefreshPromise st = None ->
  fail401 st x
  = setWaiting (waiting st ++ [waiterOf (nextId st) x])
      (setInFlight (Some (nextId st))
         (dispatch RefreshPost (setWire (dropFlight (onTicket x) (wire st)) st))).
Proof.
  intros [Htake Hgate] Hhandle. unfold fail401, answered.
  rewrite Htake. cbn [sender flightOf]. rewrite Hgate.
  unfold refreshAccessToken. cbn [inFlightRefreshPromise setWire]. rewrite Hhandle.
  reflexivity.
Qed.

(** Requests that fail while a refresh is in flight all attach to it: no
    request goes out and nothing settles. *)
Lemma failures_join (failing : list expiring) (st : Client) (p : nat) :
  inFlightRefreshPromise st = Some p ->
  NoDup (onTicket <$> failing) ->
  Forall (expires st) failing ->
  let st' := fold_left fail401 failing st in
  inFlightRefreshPromise st' = Some p
  /\ adapterLog st' = adapterLog st
  /\ outcomes st' = outcomes st
  /\ waiting st' = waiting st ++ (waiterOf p <$> failing).
Proof.
  cbv zeta. revert st. induction failing as [|x failing IH]; intros st Hhandle Hnodup Hall.
  - cbn. now rewrite app_nil_r.
  - rewrite fmap_cons in Hnodup. apply NoDup_cons in Hnodup. destruct Hnodup as [Hfresh Hnodup].
    apply Forall_cons in Hall. destruct Hall as [Hx Hall].
    cbn [fold_left]. rewrite (fail401_joins st x p Hx Hhandle).
    set (st1 := setWaiting _ _).
    destruct (IH st1) as (H1 & H2 & H3 & H4); [exact Hhandle | exact Hnodup | |].
    + apply Forall_forall. intros y Hy.
      rewrite Forall_forall in Hall. destruct (Hall y Hy) as [Htake Hgate].
      split; [|exact Hgate]. subst st1. cbn [wire setWaiting setWire].
      rewrite takeFlight_dropFlight_ne; [exact Htake|].
      intros Heq. apply Hfresh. rewrite <- Heq. now apply list_elem_of_fmap_2.
    + rewrite H1, H2, H3, H4. subst st1. cbn [waiting setWaiting adapterLog outcomes setWire].
      repeat split. rewrite fmap_cons, <- app_assoc. reflexivity.
Qed.

(** The first failure starts the refresh; the others attach to it. *)
Lemma failures_coalesce (failing : list expiring) (st : Client) :
  failing <> [] ->
  inFlightRefreshPromise st = None ->
  NoDup (onTicket <$> failing) ->
  Forall (expires st) failing ->
  let st' := fold_left fail401 failing st in
  inFlightRefreshPromise st' = Some (nextId st)
  /\ adapterLog st' = RefreshPost :: adapterLog st
  /\ outcomes st' = outcomes st
  /\ waiting st' = waiting st ++ (waiterOf (nextId st) <$> failing).
Proof.
  cbv zeta. destruct failing as [|x failing]; [congruence|]. intros _ Hhandle Hnodup Hall.
  rewrite fmap_cons in Hnodup. apply NoDup_cons in Hnodup. destruct Hnodup as [Hfresh Hnodup].
  apply Forall_cons in Hall. destruct Hall as [Hx Hall].
  cbn [fold_left]. rewrite (fail401_starts st x Hx Hhandle).
  set (st1 := setWaiting _ _).
  destruct (failures_join failing st1 (nextId st)) as (H1 & H2 & H3 & H4);
    [reflexivity | exact Hnodup | |].
  - apply Forall_forall. intros y Hy.
    rewrite Forall_forall in Hall. destruct (Hall y Hy) as [Htake Hgate].
    split; [|exact Hgate]. subst st1. cbn [wire setWaiting setInFlight dispatch setWire].
    apply takeFlight_app_l.
    rewrite takeFlight_dropFlight_ne; [exact Htake|].
    intros Heq. apply Hfresh. rewrite <- Heq. now apply list_elem_of_fmap_2.
  - rewrite H1, H2, H3, H4. subst st1.
    cbn [waiting setWaiting setInFlight dispatch adapterLog outcomes setWire].
    repeat split. rewrite fmap_cons, <- app_assoc. reflexivity.
Qed.

Lemma coherent_failures (failing : list expiring) (st : Client) :
  coherent [] st -> coherent [] (fold_left fail401 failing st).
Proof.
  revert st. induction failing as [|x failing IH]; intros st Hco; [exact Hco|].
  cbn [fold_left]. apply IH. now apply coherent_answered.
Qed.

End HttpClientTheorems.

(** ** The session controller *)

Module AuthContextFacts.

Import AuthContext.
Local Open Scope nat_scope.
Local Open Scope list_scope.

(** The [GET /auth/me] calls in flight are the one the ref points to, and every
    pending caller awaits it. *)
Record coherentSession (st : Session) : Prop := {
  requests_are_handle : meRequests st = option_list (inFlightRefreshRef st);
  callers_share : forall c, c ∈ callers st -> inFlightRefreshRef st = Some (awaited c);
}.

Lemma coherentSession_initial : coherentSession initial.
Proof. split; [reflexivity|]. intros c Hc. now apply elem_of_nil in Hc. Qed.

Lemma coherentSession_no_callers (st : Session) :
  coherentSession st -> inFlightRefreshRef st = None -> callers st = [].
Proof.
  intros [_ Hshare] Hnone. destruct (callers st) as [|c cs] eqn:E; [reflexivity|].
  specialize (Hshare c (ltac:(now left))). congruence.
Qed.

Lemma refreshUser_starts (options : option RefreshUserOptions) (st : Session) :
  inFlightRefreshRef st = None ->
  refreshUser options st
  = attach {| callerId := nextId st; awaited := nextId st; options := options;
              startedRequest := true |}
      (setInFlight (Some (nextId st)) (getMe (nextId st) st)).
Proof. intros Hnone. unfold refreshUser. now rewrite Hnone. Qed.

Lemma refreshUser_attaches (options : option RefreshUserOptions) (st : Session) (p : nat) :
  inFlightRefreshRef st = Some p ->
  refreshUser options st
  = attach {| callerId := nextId st; awaited := p; options := options;
              startedRequest := false |} st.
Proof. intros Hsome. unfold refreshUser. now rewrite Hsome. Qed.

Lemma coherentSession_refreshUser (options : option RefreshUserOptions) (st : Session) :
  coherentSession st -> coherentSession (refreshUser options st).
Proof.
  intros Hco. pose proof Hco as [Hrequests Hshare].
  destruct (inFlightRefreshRef st) as [p|] eqn:Hhandle.
  - rewrite (refreshUser_attaches options st p Hhandle).
    split; cbn [meRequests inFlightRefreshRef callers attach].
    + rewrite Hhandle. exact Hrequests.
    + intros c Hc. rewrite Hhandle. apply elem_of_app in Hc. destruct Hc as [Hc|Hc].
      * now apply Hshare.
      * apply list_elem_of_singleton in Hc. now subst c.
  - rewrite (refreshUser_starts options st Hhandle).
    split; cbn [meRequests inFlightRefreshRef callers attach setInFlight getMe].
    + rewrite Hrequests. reflexivity.
    + rewrite (coherentSession_no_callers st Hco Hhandle).
      intros c Hc. apply list_elem_of_singleton in Hc. now subst c.
Qed.

(** What a caller gets from its [catch] on the shared promise. *)
Definition delivered (reply : meReply) (options : option RefreshUserOptions) : settlement :=
  match reply with
  | MeOk _ => Resolved
  | MeFailed error => catchHandler options error
  end.

Definition userAfter (reply : meReply) : option AuthUser :=
  match reply with
  | MeOk current => Some current
  | MeFailed _ => None
  end.

Definition seenBy (reply : meReply) (c : caller) : observation :=
  {| observer := callerId c;
     result := delivered reply (options c);
     userSeen := userAfter reply |}.

Lemma observe_all (outcome : settlement) (cs : list caller) (st : Session) :
  let st' := fold_left (fun acc c => observe outcome c acc) cs st in
  user st' = user st /\ inFlightRefreshRef st' = inFlightRefreshRef st
  /\ meRequests st' = meRequests st /\ meRequestsIssued st' = meRequestsIssued st
  /\ callers st' = callers st /\ nextId st' = nextId st
  /\ observations st'
     = rev ((fun c => {| observer := callerId c;
                         result := match outcome with
                                   | Resolved => Resolved
                                   | Rejected error => catchHandler (options c) error
                                   end;
                         userSeen := user st |}) <$> cs) ++ observations st.
Proof.
  cbv zeta. revert st. induction cs as [|c cs IH]; intros st.
  - repeat split; reflexivity.
  - cbn [fold_left].
    destruct (IH (observe outcome c st)) as (H1 & H2 & H3 & H4 & H5 & H6 & H7).
    rewrite H1, H2, H3, H4, H5, H6, H7.
    cbn [observe user inFlightRefreshRef meRequests meRequestsIssued callers nextId
         observations].
    repeat split. rewrite fmap_cons. cbn [rev]. now rewrite <- app_assoc.
Qed.

(** The settlement of the request the ref points to, in a coherent state. *)
Lemma meSettled_handle (st : Session) (p : nat) (reply : meReply) :
  coherentSession st ->
  inFlightRefreshRef st = Some p ->
  let st' := meSettled p reply st in
  user st' = userAfter reply
  /\ inFlightRefreshRef st' = None
  /\ meRequests st' = []
  /\ meRequestsIssued st' = meRequestsIssued st
  /\ callers st' = []
  /\ nextId st' = nextId st
  /\ observations st' = rev (seenBy reply <$> callers st) ++ observations st.
Proof.
  intros [Hrequests Hshare] Hhandle. cbv zeta.
  rewrite Hhandle in Hrequests. change (meRequests st = [p]) in Hrequests.
  unfold meSettled. rewrite Hrequests.
  rewrite bool_decide_eq_true_2 by (now apply list_elem_of_singleton).
  assert (Hall : filter (fun c => awaited c = p) (callers st) = callers st).
  { apply HttpClientFacts.filter_keeps_all. intros c Hc. specialize (Hshare c Hc). congruence. }
  assert (Hnone : filter (fun c => awaited c ≠ p) (callers st) = []).
  { apply HttpClientFacts.filter_keeps_none. intros c Hc Hne.
    specialize (Hshare c Hc). congruence. }
  destruct reply as [current|error];
    cbn [callers setInFlight setUser dropRequest]; rewrite Hall, Hnone;
    match goal with
    | |- context [fold_left (fun acc c => observe ?o c acc) ?cs ?s] =>
        destruct (observe_all o cs s) as (H1 & H2 & H3 & H4 & H5 & H6 & H7)
    end;
    rewrite H1, H2, H3, H4, H5, H6, H7;
    cbn [user inFlightRefreshRef meRequests meRequestsIssued callers nextId observations
         setCallers setInFlight setUser dropRequest userAfter];
    rewrite Hrequests, filter_cons_False, filter_nil by (intros H; now apply H);
    repeat split.
Qed.

Lemma coherentSession_meSettled (st : Session) (p : nat) (reply : meReply) :
  coherentSession st -> coherentSession (meSettled p reply st).
Proof.
  intros Hco. destruct (decide (p ∈ meRequests st)) as [Hin|Hout].
  - pose proof (requests_are_handle _ Hco) as Hrequests.
    destruct (inFlightRefreshRef st) as [p'|] eqn:Hhandle.
    + change (meRequests st = [p']) in Hrequests. rewrite Hrequests in Hin. apply list_elem_of_singleton in Hin. subst p'.
      destruct (meSettled_handle st p reply Hco Hhandle) as (_ & H2 & H3 & _ & H5 & _).
      split; [now rewrite H2, H3|]. rewrite H5. intros c Hc. now apply elem_of_nil in Hc.
    + change (meRequests st = []) in Hrequests. rewrite Hrequests in Hin.
      now apply elem_of_nil in Hin.
  - unfold meSettled. now rewrite bool_decide_eq_false_2.
Qed.

Lemma coherentSession_run (events : list event) : coherentSession (run events).
Proof.
  unfold run. induction events as [|e events IH] using rev_ind;
    [exact coherentSession_initial|].
  rewrite fold_left_app. cbn [fold_left].
  destruct e as [options|p reply|next]; cbn [step].
  - now apply coherentSession_refreshUser.
  - now apply coherentSession_meSettled.
  - destruct IH as [H1 H2]. split; assumption.
Qed.

(** Calls of [refreshUser] while a request is in flight attach to it. *)
Lemma refreshUsers_attach (optionss : list (option RefreshUserOptions)) (st : Session) (p : nat) :
  inFlightRefreshRef st = Some p ->
  let st' := fold_left (fun acc o => refreshUser o acc) optionss st in
  inFlightRefreshRef st' = Some p
  /\ meRequests st' = meRequests st
  /\ meRequestsIssued st' = meRequestsIssued st
  /\ user st' = user st
  /\ observations st' = observations st
  /\ options <$> callers st' = (options <$> callers st) ++ optionss
  /\ (forall c, c ∈ callers st' -> c ∈ callers st \/ awaited c = p /\ startedRequest c = false).
Proof.
  cbv zeta. revert st. induction optionss as [|o optionss IH]; intros st Hhandle.
  - cbn [fold_left]. rewrite app_nil_r.
    split; [exact Hhandle|]. split; [reflexivity|]. split; [reflexivity|].
    split; [reflexivity|]. split; [reflexivity|]. split; [reflexivity|].
    intros c Hc. now left.
  - cbn [fold_left]. rewrite (refreshUser_attaches o st p Hhandle).
    set (st1 := attach _ st).
    destruct (IH st1 Hhandle) as (H1 & H2 & H3 & H4 & H5 & H6 & H7).
    rewrite H1, H2, H3, H4, H5, H6. subst st1.
    cbn [attach meRequests meRequestsIssued user observations callers].
    split; [reflexivity|]. split; [reflexivity|]. split; [reflexivity|].
    split; [reflexivity|]. split; [reflexivity|]. split.
    + rewrite fmap_app, <- app_assoc. reflexivity.
    + intros c Hc. destruct (H7 c Hc) as [Hold|Hnew]; [|now right].
      cbn [attach callers] in Hold. apply elem_of_app in Hold.
      destruct Hold as [Hold|Hold]; [now left|].
      apply list_elem_of_singleton in Hold. subst c. right. split; reflexivity.
Qed.

End AuthContextFacts.

(** ** Single flight, bounded retries, failing refreshes *)

Module RefreshTheorems.

Import JsString HttpClient HttpClientFacts HttpClientTheorems AuthContextFacts.
Local Open Scope nat_scope.
Local Open Scope list_scope.

Lemma refreshesInFlight_run (events : list HttpClient.event) :
  refreshesInFlight (HttpClient.run events) <= 1.
Proof.
  rewrite (refreshesInFlight_handle _ (coherent_run events)).
  destruct (inFlightRefreshPromise _); lia.
Qed.

Lemma meRequests_run (events : list AuthContext.event) :
  length (AuthContext.meRequests (AuthContext.run events)) <= 1.
Proof.
  rewrite (requests_are_handle _ (coherentSession_run events)).
  destruct (AuthContext.inFlightRefreshRef _); cbn; lia.
Qed.

(** The client half of the single-flight scenario. *)
Lemma client_failures_share_one_refresh
    (events : list HttpClient.event) (failing : list expiring) (a : answer) :
  let st := HttpClient.run events in
  failing <> [] ->
  inFlightRefreshPromise st = None ->
  NoDup (onTicket <$> failing) ->
  Forall (expires st) failing ->
  let st1 := fold_left fail401 failing st in
  let p := HttpClient.nextId st in
  let st2 := answered p a st1 in
  refreshPostsSent st1 = S (refreshPostsSent st)
  /\ inFlightRefreshPromise st1 = Some p
  /\ refreshesInFlight st1 = 1
  /\ waiting st1 = waiterOf p <$> failing
  /\ inFlightRefreshPromise st2 = None
  /\ refreshesInFlight st2 = 0
  /\ waiting st2 = []
  /\ refreshPostsSent st2 = refreshPostsSent st1
  /\ (a = Fulfilled ->
      outcomes st2 = outcomes st
      /\ adapterLog st2
         = rev ((fun x => FromApplication (ofCall x)
                            {| url := url (withConfig x); _retry := true |}) <$> failing)
           ++ adapterLog st1)
  /\ (a <> Fulfilled ->
      adapterLog st2 = adapterLog st1
      /\ outcomes st2
         = rev ((fun x => (ofCall x, Rejected (errorOf a refreshRequest))) <$> failing)
           ++ outcomes st)
  /\ refreshPostsSent (snd (refreshAccessToken st2)) = S (refreshPostsSent st2).
Proof.
  cbv zeta. intros Hsome Hnone Hnodup Hall.
  pose proof (coherent_run events) as Hco.
  destruct (failures_coalesce failing _ Hsome Hnone Hnodup Hall) as (H1 & H2 & H3 & H4).
  rewrite (coherent_no_waiters _ Hco Hnone) in H4. cbn [app] in H4.
  pose proof (coherent_failures failing _ Hco) as Hco1.
  set (st := HttpClient.run events) in *.
  set (st1 := fold_left fail401 failing st) in *.
  pose proof (coherent_answered st1 (HttpClient.nextId st) a Hco1) as Hco2.
  pose proof (answered_refresh st1 (HttpClient.nextId st) a Hco1 H1) as Hsettle.
  set (st2 := answered (HttpClient.nextId st) a st1) in *.
  assert (Hsent1 : refreshPostsSent st1 = S (refreshPostsSent st)).
  { unfold refreshPostsSent. rewrite H2. now rewrite filter_cons_True by reflexivity. }
  assert (Hhandle2 : inFlightRefreshPromise st2 = None /\ waiting st2 = []
                     /\ refreshPostsSent st2 = refreshPostsSent st1
                     /\ (a = Fulfilled ->
                         outcomes st2 = outcomes st
                         /\ adapterLog st2
                            = rev ((fun w => FromApplication (forCall w) (retryConfig w))
                                     <$> waiting st1) ++ adapterLog st1)
                     /\ (a <> Fulfilled ->
                         adapterLog st2 = adapterLog st1
                         /\ outcomes st2
                            = rev ((fun w => (forCall w, Rejected (errorOf a refreshRequest)))
                                     <$> waiting st1) ++ outcomes st)).
  { rewrite Hsettle. destruct a; cbn [settlementOf].
    - destruct (resume_all_resolved (waiting st1)
                  (setWaiting [] (setInFlight None
                     (setWire (dropFlight (HttpClient.nextId st) (wire st1)) st1))))
        as (R1 & R2 & R3 & R4).
      unfold refreshPostsSent. rewrite R1, R2, R3, R4.
      cbn [inFlightRefreshPromise waiting outcomes adapterLog setWaiting setInFlight setWire].
      rewrite refreshPostsSent_app_calls, H3.
      repeat split; congruence.
    - match goal with
      | |- context [fold_left (fun acc w => resume (Rejected ?e) w acc) ?ws ?s] =>
          destruct (resume_all_rejected e ws s) as (R1 & R2 & R3 & R4 & R5 & R6)
      end.
      unfold refreshPostsSent. rewrite R1, R3, R4, R6.
      cbn [inFlightRefreshPromise waiting outcomes adapterLog setWaiting setInFlight setWire].
      rewrite H3. repeat split; congruence.
    - match goal with
      | |- context [fold_left (fun acc w => resume (Rejected ?e) w acc) ?ws ?s] =>
          destruct (resume_all_rejected e ws s) as (R1 & R2 & R3 & R4 & R5 & R6)
      end.
      unfold refreshPostsSent. rewrite R1, R3, R4, R6.
      cbn [inFlightRefreshPromise waiting outcomes adapterLog setWaiting setInFlight setWire].
      rewrite H3. repeat split; congruence.
    - match goal with
      | |- context [fold_left (fun acc w => resume (Rejected ?e) w acc) ?ws ?s] =>
          destruct (resume_all_rejected e ws s) as (R1 & R2 & R3 & R4 & R5 & R6)
      end.
      unfold refreshPostsSent. rewrite R1, R3, R4, R6.
      cbn [inFlightRefreshPromise waiting outcomes adapterLog setWaiting setInFlight setWire].
      rewrite H3. repeat split; congruence. }
  destruct Hhandle2 as (Hnone2 & Hwait2 & Hsent2 & Hok & Hfail).
  rewrite H4, <- !list_fmap_compose in Hok, Hfail.
  split; [exact Hsent1|]. split; [exact H1|].
  split; [rewrite (refreshesInFlight_handle _ Hco1), H1; reflexivity|].
  split; [exact H4|]. split; [exact Hnone2|].
  split; [rewrite (refreshesInFlight_handle _ Hco2), Hnone2; reflexivity|].
  split; [exact Hwait2|]. split; [exact Hsent2|].
  split; [exact Hok|]. split; [exact Hfail|].
  unfold refreshAccessToken. rewrite Hnone2. cbn [snd].
  rewrite (refreshPostsSent_log (dispatch RefreshPost st2)) by reflexivity.
  now rewrite refreshPostsSent_dispatch.
Qed.


Lemma coherentSession_refreshUsers
    (optionss : list (option AuthContext.RefreshUserOptions)) (st : AuthContext.Session) :
  coherentSession st ->
  coherentSession (fold_left (fun acc o => AuthContext.refreshUser o acc) optionss st).
Proof.
  revert st. induction optionss as [|o optionss IH]; intros st Hco; [exact Hco|].
  cbn [fold_left]. apply IH. now apply coherentSession_refreshUser.
Qed.

(** The session half of the single-flight scenario. *)
Lemma session_callers_share_one_request
    (events : list AuthContext.event)
    (optionss : list (option AuthContext.RefreshUserOptions)) (reply : AuthContext.meReply) :
  let st := AuthContext.run events in
  optionss <> [] ->
  AuthContext.inFlightRefreshRef st = None ->
  let st1 := fold_left (fun acc o => AuthContext.refreshUser o acc) optionss st in
  let p := AuthContext.nextId st in
  let st2 := AuthContext.meSettled p reply st1 in
  AuthContext.meRequestsIssued st1 = S (AuthContext.meRequestsIssued st)
  /\ AuthContext.inFlightRefreshRef st1 = Some p
  /\ AuthContext.meRequests st1 = [p]
  /\ AuthContext.options <$> AuthContext.callers st1 = optionss
  /\ (forall c, c ∈ AuthContext.callers st1 -> AuthContext.awaited c = p)
  /\ AuthContext.inFlightRefreshRef st2 = None
  /\ AuthContext.meRequests st2 = []
  /\ AuthContext.callers st2 = []
  /\ AuthContext.meRequestsIssued st2 = AuthContext.meRequestsIssued st1
  /\ AuthContext.user st2 = userAfter reply
  /\ AuthContext.observations st2
     = rev (seenBy reply <$> AuthContext.callers st1) ++ AuthContext.observations st
  /\ (forall o, AuthContext.meRequestsIssued (AuthContext.refreshUser o st2)
                = S (AuthContext.meRequestsIssued st2)).
Proof.
  cbv zeta. intros Hsome Hnone.
  pose proof (coherentSession_run events) as Hco.
  set (st := AuthContext.run events) in *.
  destruct optionss as [|o optionss]; [congruence|].
  cbn [fold_left]. rewrite (refreshUser_starts o st Hnone).
  set (st0 := AuthContext.attach _ _).
  assert (Hco0 : coherentSession st0).
  { subst st0. rewrite <- (refreshUser_starts o st Hnone).
    now apply coherentSession_refreshUser. }
  destruct (refreshUsers_attach optionss st0 (AuthContext.nextId st) eq_refl)
    as (H1 & H2 & H3 & H4 & H5 & H6 & H7).
  set (st1 := fold_left _ optionss st0) in *.
  assert (Hco1 : coherentSession st1) by (now apply coherentSession_refreshUsers).
  destruct (meSettled_handle st1 (AuthContext.nextId st) reply Hco1 H1)
    as (S1 & S2 & S3 & S4 & S5 & S6 & S7).
  subst st0.
  cbn [AuthContext.attach AuthContext.setInFlight AuthContext.getMe
       AuthContext.meRequests AuthContext.meRequestsIssued AuthContext.user
       AuthContext.observations AuthContext.callers] in H2, H3, H4, H5, H6, H7.
  rewrite (coherentSession_no_callers st Hco Hnone) in H6, H7.
  rewrite (requests_are_handle _ Hco), Hnone in H2.
  split; [exact H3|]. split; [exact H1|]. split; [exact H2|].
  split; [exact H6|]. split.
  { intros c Hc. destruct (H7 c Hc) as [Hold|[Hnew _]]; [|exact Hnew].
    apply list_elem_of_singleton in Hold. now subst c. }
  split; [exact S2|]. split; [exact S3|]. split; [exact S5|].
  split; [exact S4|]. split; [exact S1|].
  split; [rewrite S7, H5; reflexivity|].
  intros o'. now rewrite (refreshUser_starts o' _ S2).
Qed.

(** C1.  Both refresh paths are single-flight.  In the HTTP client: at most
    one refresh POST is on the wire in any reachable state; when requests
    fail with 401 (one or more, the handle being clear) before the refresh
    settles, one POST goes out, every interceptor waits on the one promise,
    and the answer to the POST clears the handle, resumes them all with that
    one result (all retried, or all rejected with the same error) and sends
    no further POST; a later call of [refreshAccessToken] posts again.  In
    the session controller: at most one [GET /auth/me] is pending in any
    reachable state; calls of [refreshUser] made before it settles issue one
    request, its settlement sets the user, clears the ref and settles every
    caller from that one reply, and a later call issues a new request. *)
Theorem refresh_is_single_flight :
  (forall events, refreshesInFlight (HttpClient.run events) <= 1)
  /\ (forall events failing a,
        let st := HttpClient.run events in
        failing <> [] ->
        inFlightRefreshPromise st = None ->
        NoDup (onTicket <$> failing) ->
        Forall (expires st) failing ->
        let st1 := fold_left fail401 failing st in
        let p := HttpClient.nextId st in
        let st2 := answered p a st1 in
        refreshPostsSent st1 = S (refreshPostsSent st)
        /\ inFlightRefreshPromise st1 = Some p
        /\ refreshesInFlight st1 = 1
        /\ waiting st1 = waiterOf p <$> failing
        /\ inFlightRefreshPromise st2 = None
        /\ refreshesInFlight st2 = 0
        /\ waiting st2 = []
        /\ refreshPostsSent st2 = refreshPostsSent st1
        /\ (a = Fulfilled ->
            outcomes st2 = outcomes st
            /\ adapterLog st2
               = rev ((fun x => FromApplication (ofCall x)
                                  {| url := url (withConfig x); _retry := true |}) <$> failing)
                 ++ adapterLog st1)
        /\ (a <> Fulfilled ->
            adapterLog st2 = adapterLog st1
            /\ outcomes st2
               = rev ((fun x => (ofCall x, Rejected (errorOf a refreshRequest))) <$> failing)
                 ++ outcomes st)
        /\ refreshPostsSent (snd (refreshAccessToken st2)) = S (refreshPostsSent st2))
  /\ (forall events, length (AuthContext.meRequests (AuthContext.run events)) <= 1)
  /\ (forall events optionss reply,
        let st := AuthContext.run events in
        optionss <> [] ->
        AuthContext.inFlightRefreshRef st = None ->
        let st1 := fold_left (fun acc o => AuthContext.refreshUser o acc) optionss st in
        let p := AuthContext.nextId st in
        let st2 := AuthContext.meSettled p reply st1 in
        AuthContext.meRequestsIssued st1 = S (AuthContext.meRequestsIssued st)
        /\ AuthContext.inFlightRefreshRef st1 = Some p
        /\ AuthContext.meRequests st1 = [p]
        /\ AuthContext.options <$> AuthContext.callers st1 = optionss
        /\ (forall c, c ∈ AuthContext.callers st1 -> AuthContext.awaited c = p)
        /\ AuthContext.inFlightRefreshRef st2 = None
        /\ AuthContext.meRequests st2 = []
        /\ AuthContext.callers st2 = []
        /\ AuthContext.meRequestsIssued st2 = AuthContext.meRequestsIssued st1
        /\ AuthContext.user st2 = userAfter reply
        /\ AuthContext.observations st2
           = rev (seenBy reply <$> AuthContext.callers st1) ++ AuthContext.observations st
        /\ (forall o, AuthContext.meRequestsIssued (AuthContext.refreshUser o st2)
                      = S (AuthContext.meRequestsIssued st2))).
Proof.
  split; [exact refreshesInFlight_run|].
  split; [exact client_failures_share_one_refresh|].
  split; [exact meRequests_run|].
  exact session_callers_share_one_request.
Qed.


Definition protectedRequest : RetryableRequestConfig :=
  {| url := Some "/protected"; _retry := false |}.

Definition twoRequests : list HttpClient.event :=
  [Request protectedRequest; Request protectedRequest].

Definition bothExpire : list expiring :=
  [ {| onTicket := 0; ofCall := 0; withConfig := protectedRequest |};
    {| onTicket := 1; ofCall := 1; withConfig := protectedRequest |} ].

Definition unauthorizedRefresh : AxiosError :=
  {| config := Some refreshRequest; status := Some 401%Z |}.

Definition unauthorizedRequest : AxiosError :=
  {| config := Some protectedRequest; status := Some 401%Z |}.

Definition throwing : option AuthContext.RefreshUserOptions :=
  Some {| AuthContext.throwOnError := Some true |}.

(** Witness of C1: two requests expire together and the refresh is refused;
    two callers of [refreshUser], one of them with [throwOnError], and the
    request fails. *)
Lemma refresh_is_single_flight_witness :
  refreshPostsSent (fold_left fail401 bothExpire (HttpClient.run twoRequests)) = 1
  /\ outcomes (answered 2 (BadStatus 401)
                 (fold_left fail401 bothExpire (HttpClient.run twoRequests)))
     = [ (1, Rejected unauthorizedRefresh); (0, Rejected unauthorizedRefresh) ]
  /\ AuthContext.meRequestsIssued
       (fold_left (fun acc o => AuthContext.refreshUser o acc) [throwing; None]
                  (AuthContext.run [])) = 1
  /\ AuthContext.user
       (AuthContext.meSettled 0 (AuthContext.MeFailed unauthorizedRequest)
          (fold_left (fun acc o => AuthContext.refreshUser o acc) [throwing; None]
                     (AuthContext.run []))) = None.
Proof.
  destruct refresh_is_single_flight as (_ & Hclient & _ & Hsession).
  destruct (Hclient twoRequests bothExpire (BadStatus 401))
    as (Hsent & _ & _ & _ & _ & _ & _ & _ & _ & Hrejected & _).
  - discriminate.
  - reflexivity.
  - apply NoDup_cons. split; [|apply NoDup_singleton].
    intros H. apply list_elem_of_singleton in H. discriminate H.
  - repeat constructor.
  - destruct (Hsession [] [throwing; None] (AuthContext.MeFailed unauthorizedRequest))
      as (Hissued & _ & _ & _ & _ & _ & _ & _ & _ & Huser & _).
    + discriminate.
    + reflexivity.
    + destruct Hrejected as [_ Houtcomes]; [discriminate|].
      split; [rewrite Hsent; reflexivity|].
      split; [exact Houtcomes|].
      split; [rewrite Hissued; reflexivity | exact Huser].
Defined.

(** C2.  No application call is handed to the adapter more than twice.  A
    failure of a request that is marked [_retry], whose URL contains the
    log-in or the refresh path, or that carries no config, goes back to the
    caller as it is; whatever passes the gate is the same request marked
    [_retry]; and a rethrown failure settles the call with no request sent. *)
Theorem request_is_resent_at_most_once :
  (forall events call, timesSent call (HttpClient.run events) <= 2)
  /\ (forall error sent,
        config error = Some sent -> _retry sent = true ->
        onRejected error = Rethrow error)
  /\ (forall error sent address,
        config error = Some sent -> url sent = Some address ->
        includes address "/auth/log-in" || includes address "/auth/refresh" = true ->
        onRejected error = Rethrow error)
  /\ (forall error, config error = None -> onRejected error = Rethrow error)
  /\ (forall error next,
        onRejected error = RefreshThenRetry next ->
        _retry next = true /\ status error = Some 401%Z)
  /\ (forall st t call sent a,
        takeFlight t (wire st)
        = Some {| ticket := t; sender := FromApplication call sent |} ->
        a <> Fulfilled ->
        onRejected (errorOf a sent) = Rethrow (errorOf a sent) ->
        adapterLog (answered t a st) = adapterLog st
        /\ waiting (answered t a st) = waiting st
        /\ outcomes (answered t a st) = (call, Rejected (errorOf a sent)) :: outcomes st).
Proof.
  split; [intros events call; exact (sent_bound _ _ (coherent_run events) call)|].
  split; [exact onRejected_already_retried|].
  split; [exact onRejected_auth_endpoint|].
  split; [exact onRejected_no_config|].
  split.
  { intros error next Hgate. apply onRejected_retry in Hgate.
    destruct Hgate as (sent & _ & Hstatus & _ & ->). split; [reflexivity | exact Hstatus]. }
  intros st t call sent a Htake Hfailed Hgate.
  unfold answered. rewrite Htake. cbn [sender].
  destruct a; [congruence | rewrite Hgate; repeat split ..].
Qed.

Definition retriedOnce : list HttpClient.event :=
  [ Request protectedRequest; Answered 0 (BadStatus 401); Answered 1 Fulfilled;
    Answered 2 (BadStatus 401) ].

(** Witness of C2: a request that gets 401, is resent after the refresh and
    gets 401 again. *)
Lemma request_is_resent_at_most_once_witness :
  timesSent 0 (HttpClient.run retriedOnce) = 2
  /\ outcomes (HttpClient.run retriedOnce)
     = [ (0, Rejected {| config := Some {| url := Some "/protected"; _retry := true |};
                         status := Some 401%Z |}) ]
  /\ onRejected {| config := Some {| url := Some "/auth/log-in"; _retry := false |};
                   status := Some 401%Z |}
     = Rethrow {| config := Some {| url := Some "/auth/log-in"; _retry := false |};
                  status := Some 401%Z |}.
Proof.
  destruct request_is_resent_at_most_once as (Hbound & _ & Hauth & _).
  split; [|split].
  - pose proof (Hbound retriedOnce 0) as Hle.
    assert (Hge : 2 <= timesSent 0 (HttpClient.run retriedOnce)) by (vm_compute; lia).
    lia.
  - reflexivity.
  - eapply Hauth; reflexivity.
Defined.

Definition refusedRefresh : list HttpClient.event :=
  [ Request protectedRequest; Answered 0 (BadStatus 401); Answered 1 (BadStatus 401) ].

(** C3 as stated fails: the request to [/protected] gets 401, the refresh it
    sets off gets 401 too, and what the caller is given is the error of the
    refresh POST, not the 401 of its own request. *)
Lemma refresh_failure_reaches_caller :
  originalError <$> waiting (HttpClient.run [Request protectedRequest; Answered 0 (BadStatus 401)])
  = [unauthorizedRequest]
  /\ outcomes (HttpClient.run refusedRefresh) = [ (0, Rejected unauthorizedRefresh) ]
  /\ unauthorizedRefresh <> unauthorizedRequest.
Proof.
  split; [reflexivity|].
  split; [reflexivity|].
  unfold unauthorizedRefresh, unauthorizedRequest. intros Heq.
  injection Heq as Heq. discriminate Heq.
Qed.

(** C3, amended.  When the refresh in flight is answered, the handle is
    cleared whatever the answer; when the answer is a failure, every
    interceptor that awaited the refresh rejects with the failure of the
    refresh POST, and no request is sent. *)
Theorem refresh_failure_is_propagated
    (events : list HttpClient.event) (p : nat) (a : answer) :
  let st := HttpClient.run events in
  inFlightRefreshPromise st = Some p ->
  let st' := answered p a st in
  inFlightRefreshPromise st' = None
  /\ waiting st' = []
  /\ (a <> Fulfilled ->
      adapterLog st' = adapterLog st
      /\ outcomes st'
         = rev ((fun w => (forCall w, Rejected (errorOf a refreshRequest))) <$> waiting st)
           ++ outcomes st).
Proof.
  cbv zeta. intros Hhandle.
  rewrite (answered_refresh _ p a (coherent_run events) Hhandle).
  destruct a; cbn [settlementOf].
  - match goal with
    | |- context [fold_left (fun acc w => resume Resolved w acc) ?ws ?s] =>
        destruct (resume_all_resolved ws s) as (R1 & R2 & _)
    end.
    rewrite R1, R2. split; [reflexivity|]. split; [reflexivity|]. congruence.
  - match goal with
    | |- context [fold_left (fun acc w => resume (Rejected ?e) w acc) ?ws ?s] =>
        destruct (resume_all_rejected e ws s) as (R1 & _ & R3 & R4 & _ & R6)
    end.
    rewrite R1, R3, R4, R6. repeat split.
  - match goal with
    | |- context [fold_left (fun acc w => resume (Rejected ?e) w acc) ?ws ?s] =>
        destruct (resume_all_rejected e ws s) as (R1 & _ & R3 & R4 & _ & R6)
    end.
    rewrite R1, R3, R4, R6. repeat split.
  - match goal with
    | |- context [fold_left (fun acc w => resume (Rejected ?e) w acc) ?ws ?s] =>
        destruct (resume_all_rejected e ws s) as (R1 & _ & R3 & R4 & _ & R6)
    end.
    rewrite R1, R3, R4, R6. repeat split.
Qed.

(** Witness of C3: the trace of the counterexample. *)
Lemma refresh_failure_is_propagated_witness :
  inFlightRefreshPromise (HttpClient.run refusedRefresh) = None
  /\ adapterLog (HttpClient.run refusedRefresh)
     = [ RefreshPost; FromApplication 0 protectedRequest ]
  /\ outcomes (HttpClient.run refusedRefresh) = [ (0, Rejected unauthorizedRefresh) ].
Proof.
  destruct (refresh_failure_is_propagated
              [Request protectedRequest; Answered 0 (BadStatus 401)] 1 (BadStatus 401))
    as (Hcleared & _ & Hfailed).
  - reflexivity.
  - destruct Hfailed as [Hlog Houtcomes]; [discriminate|].
    split; [exact Hcleared|]. split; [exact Hlog | exact Houtcomes].
Defined.

(** C4.  When the [GET /auth/me] in flight fails, the user snapshot is
    [None] in the state every pending caller of [refreshUser] observes (the
    one that issued the request and those that attached to it), and a
    caller's promise rejects with that error exactly when it passed
    [throwOnError]; otherwise it resolves. *)
Theorem refreshUser_failure_clears_user
    (events : list AuthContext.event) (p : nat) (error : AxiosError) :
  let st := AuthContext.run events in
  p ∈ AuthContext.meRequests st ->
  let st' := AuthContext.meSettled p (AuthContext.MeFailed error) st in
  AuthContext.user st' = None
  /\ AuthContext.inFlightRefreshRef st' = None
  /\ AuthContext.callers st' = []
  /\ AuthContext.observations st'
     = rev ((fun c =>
               {| AuthContext.observer := AuthContext.callerId c;
                  AuthContext.result :=
                    if AuthContext.wantsError (AuthContext.options c)
                    then AuthContext.Rejected error
                    else AuthContext.Resolved;
                  AuthContext.userSeen := None |}) <$> AuthContext.callers st)
       ++ AuthContext.observations st
  /\ (forall options,
        (AuthContext.catchHandler options error = AuthContext.Rejected error
         <-> AuthContext.wantsError options = true)
        /\ (AuthContext.catchHandler options error = AuthContext.Resolved
            <-> AuthContext.wantsError options = false)).
Proof.
  cbv zeta. intros Hin.
  pose proof (coherentSession_run events) as Hco.
  pose proof (requests_are_handle _ Hco) as Hrequests.
  destruct (AuthContext.inFlightRefreshRef (AuthContext.run events)) as [p'|] eqn:Hhandle.
  - change (AuthContext.meRequests (AuthContext.run events) = [p']) in Hrequests.
    rewrite Hrequests in Hin. apply list_elem_of_singleton in Hin. subst p'.
    destruct (meSettled_handle _ p (AuthContext.MeFailed error) Hco Hhandle)
      as (S1 & S2 & _ & _ & S5 & _ & S7).
    split; [exact S1|]. split; [exact S2|]. split; [exact S5|]. split; [exact S7|].
    intros options. unfold AuthContext.catchHandler.
    destruct (AuthContext.wantsError options); split; split; congruence.
  - change (AuthContext.meRequests (AuthContext.run events) = []) in Hrequests.
    rewrite Hrequests in Hin. now apply elem_of_nil in Hin.
Qed.

Definition twoCallers : list AuthContext.event :=
  [ AuthContext.RefreshUser throwing; AuthContext.RefreshUser None ].

(** Witness of C4: the first caller starts the request and asks for the
    error, the second attaches and does not. *)
Lemma refreshUser_failure_clears_user_witness :
  AuthContext.startedRequest <$> AuthContext.callers (AuthContext.run twoCallers)
  = [true; false]
  /\ AuthContext.observations
       (AuthContext.meSettled 0 (AuthContext.MeFailed unauthorizedRequest)
          (AuthContext.run twoCallers))
     = [ {| AuthContext.observer := 1; AuthContext.result := AuthContext.Resolved;
            AuthContext.userSeen := None |};
         {| AuthContext.observer := 0;
            AuthContext.result := AuthContext.Rejected unauthorizedRequest;
            AuthContext.userSeen := None |} ].
Proof.
  destruct (refreshUser_failure_clears_user twoCallers 0 unauthorizedRequest)
    as (_ & _ & _ & Hobserved & _).
  - apply list_elem_of_singleton. reflexivity.
  - split; [reflexivity | exact Hobserved].
Defined.

End RefreshTheorems.

Module AppearanceDomFacts.

Import JsString Json Appearance PaletteFacts PreferenceFacts AppearanceDom.
Local Open Scope list_scope.

Definition variableNames : list string := map snd PALETTE_TOKEN_VARIABLE_NAMES.

Lemma variableNames_NoDup : NoDup variableNames.
Proof. apply (bool_decide_unpack _). vm_compute. reflexivity. Qed.

Definition setTokens (tokens : PaletteRgbTokens)
    (entries : list ((PaletteRgbTokens -> string) * string)) (el : HTMLElement) : HTMLElement :=
  fold_left (fun acc entry => setProperty (snd entry) (fst entry tokens) acc) entries el.

Definition removeAll (names : list string) (el : HTMLElement) : HTMLElement :=
  fold_left (fun acc variableName => removeProperty variableName acc) names el.

Lemma setTokens_cons tokens e entries el :
  setTokens tokens (e :: entries) el
  = setTokens tokens entries (setProperty (snd e) (fst e tokens) el).
Proof. reflexivity. Qed.

Lemma removeAll_cons n names el :
  removeAll (n :: names) el = removeAll names (removeProperty n el).
Proof. reflexivity. Qed.

Lemma setTokens_attributes tokens entries el :
  attributes (setTokens tokens entries el) = attributes el.
Proof.
  revert el. induction entries as [|e entries IH]; intros el; [reflexivity|].
  rewrite setTokens_cons. now rewrite IH.
Qed.

Lemma removeAll_attributes names el :
  attributes (removeAll names el) = attributes el.
Proof.
  revert el. induction names as [|n names IH]; intros el; [reflexivity|].
  rewrite removeAll_cons. now rewrite IH.
Qed.

Lemma setProperty_other name value el other :
  other <> name -> style (setProperty name value el) !! other = style el !! other.
Proof.
  intros Hne. unfold setProperty. cbn [style].
  destruct value; [now rewrite lookup_delete_ne | now rewrite lookup_insert_ne].
Qed.

Lemma setProperty_same name value el :
  value <> EmptyString -> style (setProperty name value el) !! name = Some value.
Proof.
  intros Hvalue. unfold setProperty. cbn [style].
  destruct value; [congruence | now rewrite lookup_insert_eq].
Qed.

Lemma setTokens_other tokens entries el name :
  name ∉ map snd entries ->
  style (setTokens tokens entries el) !! name = style el !! name.
Proof.
  revert el. induction entries as [|e entries IH]; intros el Hname; [reflexivity|].
  cbn [map] in Hname. apply not_elem_of_cons in Hname as [Hne Hrest].
  rewrite setTokens_cons.
  rewrite (IH _ Hrest). now apply setProperty_other.
Qed.

Lemma setTokens_entry tokens entries el get name :
  NoDup (map snd entries) ->
  (get, name) ∈ entries ->
  get tokens <> EmptyString ->
  style (setTokens tokens entries el) !! name = Some (get tokens).
Proof.
  revert el. induction entries as [|e entries IH]; intros el Hnodup Hin Hvalue.
  - now apply elem_of_nil in Hin.
  - cbn [map] in Hnodup. apply NoDup_cons in Hnodup as [Hfresh Hnodup].
    rewrite setTokens_cons.
    apply elem_of_cons in Hin as [<-|Hin].
    + cbn [fst snd] in *. rewrite (setTokens_other _ _ _ _ Hfresh).
      now apply setProperty_same.
    + now apply IH.
Qed.

Lemma removeAll_other names el name :
  name ∉ names -> style (removeAll names el) !! name = style el !! name.
Proof.
  revert el. induction names as [|n names IH]; intros el Hname; [reflexivity|].
  apply not_elem_of_cons in Hname as [Hne Hrest].
  rewrite removeAll_cons.
  rewrite (IH _ Hrest). unfold removeProperty. cbn [style].
  now rewrite lookup_delete_ne.
Qed.

Lemma removeAll_removed names el name :
  name ∈ names -> style (removeAll names el) !! name = None.
Proof.
  revert el. induction names as [|n names IH]; intros el Hname.
  - now apply elem_of_nil in Hname.
  - rewrite removeAll_cons.
    destruct (decide (name ∈ names)) as [Hin|Hout]; [now apply IH|].
    apply elem_of_cons in Hname as [->|Hin]; [|contradiction].
    rewrite (removeAll_other _ _ _ Hout). unfold removeProperty. cbn [style].
    now rewrite lookup_delete_eq.
Qed.

Lemma HTMLElement_eq (a b : HTMLElement) :
  attributes a = attributes b -> style a = style b -> a = b.
Proof. destruct a, b. cbn. now intros -> ->. Qed.

Lemma toRgbTriplet_nonempty (channels : Z * Z * Z) : toRgbTriplet channels <> EmptyString.
Proof.
  destruct channels as [[r g] b]. unfold toRgbTriplet.
  destruct (ofInteger r); cbn; discriminate.
Qed.

Lemma shadeHexColor_nonempty (hex : string) (mix : float) (shade : string) :
  shadeHexColor hex mix = Normal shade -> shade <> EmptyString.
Proof.
  unfold shadeHexColor.
  destruct (parseHexToRgbChannels hex) as [[[r g] b]|]; cbn [mbind completion_bind].
  - intros [= <-].
    exact (toRgbTriplet_nonempty
             (lightenChannel r mix, lightenChannel g mix, lightenChannel b mix)).
  - discriminate.
Qed.

(** No generated token is the empty string. *)
Lemma generated_tokens_nonempty (seedColors : PaletteSeedHexColors) (tokens : PaletteRgbTokens) :
  generatePaletteTokensFromSeeds seedColors = Normal tokens ->
  Forall (fun entry => fst entry tokens <> EmptyString) PALETTE_TOKEN_VARIABLE_NAMES.
Proof.
  unfold generatePaletteTokensFromSeeds.
  repeat match goal with
         | |- context [shadeHexColor ?h ?m] =>
             let H := fresh "Hshade" in
             pose proof (shadeHexColor_nonempty h m) as H;
             destruct (shadeHexColor h m);
             [ specialize (H _ eq_refl); cbn [mbind completion_bind]
             | cbn [mbind completion_bind]; discriminate ]
         end.
  intros [= <-]. unfold PALETTE_TOKEN_VARIABLE_NAMES.
  repeat (apply Forall_cons; split; [cbn; assumption|]).
  apply Forall_nil. exact I.
Qed.

End AppearanceDomFacts.

Module AppearanceDomTheorems.

Import JsString Json Appearance PaletteFacts PreferenceFacts AppearanceDom AppearanceDomFacts.
Import PaletteTheorems.
Local Open Scope list_scope.


Definition bareElement : HTMLElement :=
  {| attributes := {[ "lang" := "en" ]}; style := {[ "color" := "red" ]} |}.




(** X3.  Starting up after a preference was saved: on a storage that accepts
    the write and the read, [initializeAppearance] returns the saved
    preference, sets [data-theme] to the resolved theme (the saved mode when
    it is light or dark, the system theme when it is [system]) and
    [data-palette] to the saved palette, and changes no other attribute and
    no style declaration. *)
Theorem initializeAppearance_after_persist
    (preferences : AppearancePreferences) (st : AppearanceStorage)
    (window : Window) (el : HTMLElement) :
  writesRefused st = false -> readsRefused st = false ->
  exists stored el',
    persistAppearancePreferences preferences (Some st) = Normal (Some stored) /\
    initializeAppearance (Some stored) window (Some el) = Normal (Some el', preferences) /\
    attributes el' !! "data-theme"
    = Some (resolvedThemeName (resolveThemeMode (mode preferences) (getSystemTheme window))) /\
    (mode preferences <> ModeSystem ->
     attributes el' !! "data-theme" = Some (themeModeName (mode preferences))) /\
    attributes el' !! "data-palette" = Some (colorPaletteName (palette preferences)) /\
    (forall name, name <> "data-theme" -> name <> "data-palette" ->
                  attributes el' !! name = attributes el !! name) /\
    style el' = style el.
Proof.
  intros Hwrite Hread.
  unfold persistAppearancePreferences, setItem. rewrite Hwrite.
  cbn [mbind completion_bind tryCatch].
  eexists. eexists. split; [reflexivity|].
  unfold initializeAppearance.
  rewrite (load_of_text _ (Json.stringify (preferencesObject preferences))
                        (preferencesObject preferences)).
  2: { unfold getItem. cbn [readsRefused items]. rewrite Hread.
       now rewrite lookup_insert_eq. }
  2: apply parse_stringify_preferences.
  rewrite parseStoredPreferences_object.
  cbn [mbind completion_bind applyAppearancePreferences applyTheme applyPalette fst].
  split; [reflexivity|].
  unfold setAttribute. cbn [attributes style paletteAttributeName].
  split; [|split; [|split; [|split]]].
  - rewrite lookup_insert_ne by discriminate. now rewrite lookup_insert_eq.
  - intros Hmode. rewrite lookup_insert_ne by discriminate. rewrite lookup_insert_eq.
    destruct (mode preferences); [contradiction| |]; reflexivity.
  - now rewrite lookup_insert_eq.
  - intros name Htheme Hpalette.
    rewrite lookup_insert_ne by congruence. now rewrite lookup_insert_ne by congruence.
  - reflexivity.
Qed.

Lemma initializeAppearance_after_persist_witness :
  exists stored el',
    persistAppearancePreferences {| mode := ModeDark; palette := Everforest |}
      (Some PreferenceTheorems.emptyStorage) = Normal (Some stored) /\
    initializeAppearance (Some stored) (Some false) (Some bareElement)
    = Normal (Some el', {| mode := ModeDark; palette := Everforest |}) /\
    attributes el' !! "data-theme" = Some "dark" /\
    attributes el' !! "data-palette" = Some "everforest" /\
    attributes el' !! "lang" = Some "en".
Proof.
  destruct (initializeAppearance_after_persist
              {| mode := ModeDark; palette := Everforest |}
              PreferenceTheorems.emptyStorage (Some false) bareElement eq_refl eq_refl)
    as (stored & el' & Hpersist & Hinit & Htheme & _ & Hpalette & Hother & _).
  exists stored, el'.
  split; [exact Hpersist|]. split; [exact Hinit|].
  split; [exact Htheme|]. split; [exact Hpalette|].
  rewrite Hother by discriminate. reflexivity.
Defined.

(** X4.  [persistAppearancePreferences] never throws and touches nothing but
    the preference key: every other item, and what the storage refuses, are
    as before.  A refused write leaves the storage as it was; an accepted
    one replaces what was stored, so that of two saves the later one is
    loaded. *)
Theorem persistAppearancePreferences_only_its_key
    (preferences : AppearancePreferences) (st : AppearanceStorage) :
  persistAppearancePreferences preferences None = Normal None /\
  exists after,
    persistAppearancePreferences preferences (Some st) = Normal (Some after) /\
    readsRefused after = readsRefused st /\
    writesRefused after = writesRefused st /\
    (forall key, key <> APPEARANCE_STORAGE_KEY -> items after !! key = items st !! key) /\
    (writesRefused st = true -> after = st) /\
    (writesRefused st = false ->
     items after !! APPEARANCE_STORAGE_KEY
     = Some (Json.stringify (preferencesObject preferences)) /\
     forall earlier,
       (saved ← persistAppearancePreferences earlier (Some st);
        persistAppearancePreferences preferences saved) = Normal (Some after)).
Proof.
  split; [reflexivity|].
  unfold persistAppearancePreferences, setItem.
  destruct (writesRefused st) eqn:Hwrite; cbn [mbind completion_bind tryCatch].
  - exists st. split; [reflexivity|]. split; [reflexivity|]. split; [exact Hwrite|].
    split; [reflexivity|]. split; [reflexivity|]. intros Hfalse. discriminate Hfalse.
  - eexists. split; [reflexivity|]. cbn [readsRefused writesRefused items].
    split; [reflexivity|]. split; [reflexivity|].
    split; [intros key Hkey; now rewrite lookup_insert_ne|].
    split; [discriminate|]. intros _.
    split; [now rewrite lookup_insert_eq|].
    intros earlier.
    cbn [mbind completion_bind tryCatch readsRefused writesRefused items].
    now rewrite insert_insert_eq.
Qed.

Lemma persistAppearancePreferences_only_its_key_witness :
  exists after,
    persistAppearancePreferences {| mode := ModeLight; palette := Catppuccin |}
      (Some (storageHolding PreferenceTheorems.sepiaText)) = Normal (Some after) /\
    loadAppearancePreferences (Some after)
    = Normal {| mode := ModeLight; palette := Catppuccin |}.
Proof.
  destruct (persistAppearancePreferences_only_its_key
              {| mode := ModeLight; palette := Catppuccin |}
              (storageHolding PreferenceTheorems.sepiaText))
    as (_ & after & Hpersist & Hreads & _ & _ & _ & Hwritten).
  destruct (Hwritten eq_refl) as [Hitem _].
  exists after. split; [exact Hpersist|].
  rewrite (load_of_text after
             (Json.stringify
                (preferencesObject {| mode := ModeLight; palette := Catppuccin |}))
             (preferencesObject {| mode := ModeLight; palette := Catppuccin |})).
  - reflexivity.
  - unfold getItem. rewrite Hreads. cbn [storageHolding readsRefused]. now rewrite Hitem.
  - vm_compute. reflexivity.
Defined.

(** X5.  What [parseStoredPreferences] falls back on.  An array, like any
    value that is not an object, gives the default pair.  In an object a
    palette name that is neither a legacy name nor a current identifier
    gives the default palette, the names of the members of
    [Object.prototype] included; a mode that is one of the three names is
    kept whatever the palette is. *)
Theorem parseStoredPreferences_fallbacks :
  (forall elements,
      parseStoredPreferences (JArray elements) = DEFAULT_APPEARANCE_PREFERENCES) /\
  (forall value, isRecord value = false ->
      parseStoredPreferences value = DEFAULT_APPEARANCE_PREFERENCES) /\
  (forall fields name,
      getField "palette" fields = Some (JString name) ->
      name ∉ ["sunset"; "default"; "forest"] ->
      colorPaletteOfName name = None ->
      palette (parseStoredPreferences (JObject fields)) = TokyoNight) /\
  (forall fields m,
      getField "mode" fields = Some (JString (themeModeName m)) ->
      mode (parseStoredPreferences (JObject fields)) = m).
Proof.
  split; [reflexivity|].
  split; [intros value Hrecord; unfold parseStoredPreferences; now rewrite Hrecord|].
  split.
  - intros fields name Hfield Hlegacy Hcurrent.
    unfold parseStoredPreferences. cbn [isRecord negb getProperty palette].
    rewrite Hfield. destruct name as [|c name]; [reflexivity|].
    unfold LEGACY_COLOR_PALETTE_MAP.
    destruct (String.eqb_spec (String c name) "default") as [Heq|_];
      [exfalso; apply Hlegacy; rewrite Heq; repeat constructor|].
    destruct (String.eqb_spec (String c name) "sunset") as [Heq|_];
      [exfalso; apply Hlegacy; rewrite Heq; repeat constructor|].
    destruct (String.eqb_spec (String c name) "forest") as [Heq|_];
      [exfalso; apply Hlegacy; rewrite Heq; repeat constructor|].
    destruct (existsb _ OBJECT_PROTOTYPE_KEYS); [reflexivity|].
    unfold isColorPalette. rewrite Hcurrent. reflexivity.
  - intros fields m Hfield.
    unfold parseStoredPreferences. cbn [isRecord negb getProperty mode].
    rewrite Hfield. now destruct m.
Qed.

Lemma parseStoredPreferences_fallbacks_witness :
  parseStoredPreferences
    (JObject [ ("mode", JString "dark"); ("palette", JString "constructor") ])
  = {| mode := ModeDark; palette := TokyoNight |}.
Proof.
  destruct parseStoredPreferences_fallbacks as (_ & _ & Hpalette & Hmode).
  set (fields := [ ("mode", JString "dark"); ("palette", JString "constructor") ]).
  rewrite (preferences_eta (parseStoredPreferences _)).
  rewrite (Hmode fields ModeDark eq_refl).
  rewrite (Hpalette fields "constructor" eq_refl); [reflexivity | | reflexivity].
  apply (bool_decide_unpack _). vm_compute. reflexivity.
Defined.

(** The order of the shades on every byte, and from a byte to the next. *)
Definition shadesOrdered (c : Z) : bool :=
  (c <=? lightenChannel c 0.2)
  && (lightenChannel c 0.2 <=? lightenChannel c 0.4)
  && (lightenChannel c 0.4 <=? 255)
  && (lightenChannel c 0.2 <=? lightenChannel (c + 1) 0.2)
  && (lightenChannel c 0.4 <=? lightenChannel (c + 1) 0.4).

Lemma shadesOrdered_bytes : forallb shadesOrdered bytes = true.
Proof. vm_compute. reflexivity. Qed.

Lemma shadesOrdered_byte (c : Z) :
  isByte c ->
  c <= lightenChannel c 0.2 <= lightenChannel c 0.4 /\
  lightenChannel c 0.4 <= 255 /\
  lightenChannel c 0.2 <= lightenChannel (c + 1) 0.2 /\
  lightenChannel c 0.4 <= lightenChannel (c + 1) 0.4.
Proof.
  intros Hc.
  pose proof shadesOrdered_bytes as All. rewrite forallb_forall in All.
  specialize (All c (isByte_cases c Hc)). unfold shadesOrdered in All.
  repeat (apply andb_prop in All; destruct All as [All ?]).
  repeat match goal with
         | H : (_ <=? _) = true |- _ => apply Z.leb_le in H
         end.
  repeat split; assumption.
Qed.

Lemma lightenChannel_steps (n : nat) (c : Z) :
  0 <= c -> c + Z.of_nat n <= 255 ->
  lightenChannel c 0.2 <= lightenChannel (c + Z.of_nat n) 0.2 /\
  lightenChannel c 0.4 <= lightenChannel (c + Z.of_nat n) 0.4.
Proof.
  induction n as [|n IH]; intros Hlow Hhigh.
  - rewrite Z.add_0_r. lia.
  - destruct IH as [IH80 IH60]; [lia..|].
    destruct (shadesOrdered_byte (c + Z.of_nat n)) as (_ & _ & H80 & H60);
      [unfold isByte; lia|].
    replace (c + Z.of_nat (S n)) with (c + Z.of_nat n + 1) by lia. lia.
Qed.

(** X6.  On a channel that is a byte, lightening never darkens and the two
    mixes are ordered: the channel is at most its 80 shade, which is at most
    its 60 shade, which is at most 255; white stays white.  Both mixes keep
    the order of channels. *)
Theorem lightenChannel_orders_shades (c c' : Z) :
  isByte c -> isByte c' ->
  c <= lightenChannel c 0.2 <= lightenChannel c 0.4 /\
  lightenChannel c 0.4 <= 255 /\
  (c = 255 -> lightenChannel c 0.2 = 255 /\ lightenChannel c 0.4 = 255) /\
  (c <= c' -> lightenChannel c 0.2 <= lightenChannel c' 0.2 /\
              lightenChannel c 0.4 <= lightenChannel c' 0.4).
Proof.
  intros Hc Hc'.
  destruct (shadesOrdered_byte c Hc) as (Horder & Htop & _).
  split; [exact Horder|]. split; [exact Htop|]. split; [lia|].
  intros Hle. unfold isByte in Hc, Hc'.
  replace c' with (c + Z.of_nat (Z.to_nat (c' - c))) by lia.
  apply lightenChannel_steps; lia.
Qed.

Lemma lightenChannel_orders_shades_witness :
  51 <= lightenChannel 51 0.2 <= lightenChannel 51 0.4 /\
  lightenChannel 51 0.4 <= lightenChannel 102 0.4.
Proof.
  assert (H51 : isByte 51) by (unfold isByte; lia).
  assert (H102 : isByte 102) by (unfold isByte; lia).
  destruct (lightenChannel_orders_shades 51 102 H51 H102) as (Horder & _ & _ & Hmono).
  split; [exact Horder|]. apply Hmono. lia.
Defined.

End AppearanceDomTheorems.

Module JsStringCaseFacts.

Import JsString JsStringFacts JsStringCase Appearance PaletteFacts.

Lemma isWhiteSpace_lower (c : ascii) : isWhiteSpace (toLowerCaseUnit c) = isWhiteSpace c.
Proof. destruct c as [[] [] [] [] [] [] [] []]; reflexivity. Qed.

Lemma toLowerCaseUnit_idempotent (c : ascii) :
  toLowerCaseUnit (toLowerCaseUnit c) = toLowerCaseUnit c.
Proof. destruct c as [[] [] [] [] [] [] [] []]; reflexivity. Qed.

Lemma isHexDigit_lower (c : ascii) : isHexDigit (toLowerCaseUnit c) = isHexDigit c.
Proof. destruct c as [[] [] [] [] [] [] [] []]; reflexivity. Qed.

Lemma toLowerCase_idempotent (s : string) : toLowerCase (toLowerCase s) = toLowerCase s.
Proof.
  induction s as [|c rest IH]; [reflexivity|].
  cbn [toLowerCase]. now rewrite toLowerCaseUnit_idempotent, IH.
Qed.

Lemma trimStart_lower (s : string) : trimStart (toLowerCase s) = toLowerCase (trimStart s).
Proof.
  induction s as [|c rest IH]; [reflexivity|].
  cbn [toLowerCase trimStart]. rewrite isWhiteSpace_lower.
  destruct (isWhiteSpace c); [exact IH | reflexivity].
Qed.

Lemma trimEnd_lower (s : string) : trimEnd (toLowerCase s) = toLowerCase (trimEnd s).
Proof.
  induction s as [|c rest IH]; [reflexivity|].
  cbn [toLowerCase trimEnd]. rewrite IH, isWhiteSpace_lower.
  destruct (trimEnd rest) as [|k kept]; cbn [toLowerCase]; [|reflexivity].
  destruct (isWhiteSpace c); reflexivity.
Qed.

Lemma trim_lower (s : string) : trim (toLowerCase s) = toLowerCase (trim s).
Proof. unfold trim. now rewrite trimStart_lower, trimEnd_lower. Qed.

Lemma matchesHexColorPattern_lower (s : string) :
  matchesHexColorPattern (toLowerCase s) = matchesHexColorPattern s.
Proof.
  destruct s as [|h [|a [|b [|c [|d [|e [|f [|? ?]]]]]]]];
    try (destruct h as [[] [] [] [] [] [] [] []]; reflexivity); try reflexivity.
  destruct h as [[] [] [] [] [] [] [] []]; try reflexivity.
  cbn [toLowerCase]. change (toLowerCaseUnit "#") with "#"%char.
  cbn [matchesHexColorPattern]. now rewrite !isHexDigit_lower.
Qed.

(** Two hexadecimal digits read the same in either case. *)
Lemma parseInt16_lower (a b : ascii) :
  isHexDigit a = true -> isHexDigit b = true ->
  parseInt16 (String (toLowerCaseUnit a) (String (toLowerCaseUnit b) EmptyString))
  = parseInt16 (String a (String b EmptyString)).
Proof.
  intros Ha Hb.
  assert (All : forallb (fun x => forallb (fun y =>
            match parseInt16 (String (toLowerCaseUnit x)
                                (String (toLowerCaseUnit y) EmptyString)),
                  parseInt16 (String x (String y EmptyString)) with
            | Some n, Some m => n =? m
            | None, None => true
            | _, _ => false
            end) hexDigits) hexDigits = true) by (vm_compute; reflexivity).
  rewrite forallb_forall in All.
  specialize (All a (isHexDigit_cases a Ha)).
  rewrite forallb_forall in All.
  specialize (All b (isHexDigit_cases b Hb)).
  destruct (parseInt16 (String (toLowerCaseUnit a) _)) as [n|],
           (parseInt16 (String a _)) as [m|]; try discriminate All; [|reflexivity].
  apply Z.eqb_eq in All. now subst.
Qed.

(** A seed parses to the same channels after [trim().toLowerCase()]. *)
Lemma parseHexToRgbChannels_normalized (hex : string) :
  parseHexToRgbChannels (toLowerCase (trim hex)) = parseHexToRgbChannels hex.
Proof.
  unfold parseHexToRgbChannels, isValidHexColor.
  rewrite !trim_lower, !trim_idempotent, matchesHexColorPattern_lower.
  destruct (matchesHexColorPattern (trim hex)) eqn:Hvalid; cbn [negb]; [|reflexivity].
  destruct (trim hex) as [|h [|a [|b [|c [|d [|e [|f [|? ?]]]]]]]];
    try (cbn in Hvalid; repeat (destruct h as [[] [] [] [] [] [] [] []]; try discriminate Hvalid);
         discriminate Hvalid).
  assert (Hdigits : isHexDigit a && isHexDigit b && isHexDigit c
                    && isHexDigit d && isHexDigit e && isHexDigit f = true).
  { revert Hvalid. unfold matchesHexColorPattern.
    destruct h as [[] [] [] [] [] [] [] []]; try discriminate; auto. }
  repeat (apply andb_prop in Hdigits; destruct Hdigits as [Hdigits ?]).
  unfold parseHexChannel, slice. cbn [toLowerCase String.substring Nat.sub].
  rewrite !parseInt16_lower by assumption. reflexivity.
Qed.

Lemma shadeHexColor_normalized (hex : string) (mix : float) :
  shadeHexColor (toLowerCase (trim hex)) mix = shadeHexColor hex mix.
Proof. unfold shadeHexColor. now rewrite parseHexToRgbChannels_normalized. Qed.

(** The generator looks at the seeds only through [parseHexToRgbChannels]. *)
Lemma generatePaletteTokensFromSeeds_ext (s1 s2 : PaletteSeedHexColors) :
  parseHexToRgbChannels (background_seed_hex s1) = parseHexToRgbChannels (background_seed_hex s2) ->
  parseHexToRgbChannels (text_seed_hex s1) = parseHexToRgbChannels (text_seed_hex s2) ->
  parseHexToRgbChannels (primary_seed_hex s1) = parseHexToRgbChannels (primary_seed_hex s2) ->
  parseHexToRgbChannels (secondary_seed_hex s1) = parseHexToRgbChannels (secondary_seed_hex s2) ->
  parseHexToRgbChannels (green_seed_hex s1) = parseHexToRgbChannels (green_seed_hex s2) ->
  parseHexToRgbChannels (red_seed_hex s1) = parseHexToRgbChannels (red_seed_hex s2) ->
  parseHexToRgbChannels (yellow_seed_hex s1) = parseHexToRgbChannels (yellow_seed_hex s2) ->
  parseHexToRgbChannels (blue_seed_hex s1) = parseHexToRgbChannels (blue_seed_hex s2) ->
  parseHexToRgbChannels (magenta_seed_hex s1) = parseHexToRgbChannels (magenta_seed_hex s2) ->
  parseHexToRgbChannels (cyan_seed_hex s1) = parseHexToRgbChannels (cyan_seed_hex s2) ->
  generatePaletteTokensFromSeeds s1 = generatePaletteTokensFromSeeds s2.
Proof.
  intros H1 H2 H3 H4 H5 H6 H7 H8 H9 H10.
  unfold generatePaletteTokensFromSeeds, shadeHexColor.
  generalize dependent (parseHexToRgbChannels (background_seed_hex s1)); intros; subst.
  generalize dependent (parseHexToRgbChannels (text_seed_hex s1)); intros; subst.
  generalize dependent (parseHexToRgbChannels (primary_seed_hex s1)); intros; subst.
  generalize dependent (parseHexToRgbChannels (secondary_seed_hex s1)); intros; subst.
  generalize dependent (parseHexToRgbChannels (green_seed_hex s1)); intros; subst.
  generalize dependent (parseHexToRgbChannels (red_seed_hex s1)); intros; subst.
  generalize dependent (parseHexToRgbChannels (yellow_seed_hex s1)); intros; subst.
  generalize dependent (parseHexToRgbChannels (blue_seed_hex s1)); intros; subst.
  generalize dependent (parseHexToRgbChannels (magenta_seed_hex s1)); intros; subst.
  generalize dependent (parseHexToRgbChannels (cyan_seed_hex s1)); intros; subst.
  reflexivity.
Qed.

End JsStringCaseFacts.

Module AppearanceProviderFacts.

Import JsString JsStringFacts JsStringCase JsStringCaseFacts.
Import Appearance PaletteFacts PaletteTheorems AppearanceContext PaletteSelectionTheorems.
Import AppearanceDom AppearanceDomFacts AppearanceProvider.
Local Open Scope list_scope.

(** The generator returns tokens for valid seeds and the format error for
    any other. *)
Lemma generated_or_format_error (seedColors : PaletteSeedHexColors) :
  match generatePaletteTokensFromSeeds seedColors with
  | Normal _ => allSeedsValid seedColors = true
  | Throw message =>
      allSeedsValid seedColors = false /\ message = "Color must use 6-digit hex format."
  end.
Proof.
  unfold generatePaletteTokensFromSeeds.
  repeat seed_case.
  settle_validity. reflexivity.
Qed.

Lemma generate_normalized (payload : CreateCustomPaletteRequest.t) :
  generatePaletteTokensFromSeeds
    (CreateCustomPaletteRequest.seeds (normalizeCreatePalettePayload payload))
  = generatePaletteTokensFromSeeds (CreateCustomPaletteRequest.seeds payload).
Proof.
  apply generatePaletteTokensFromSeeds_ext;
    cbn [normalizeCreatePalettePayload CreateCustomPaletteRequest.seeds
         background_seed_hex text_seed_hex primary_seed_hex secondary_seed_hex
         green_seed_hex red_seed_hex yellow_seed_hex blue_seed_hex
         magenta_seed_hex cyan_seed_hex];
    apply parseHexToRgbChannels_normalized.
Qed.

Lemma normalized_seed (hex : string) :
  toLowerCase (trim (toLowerCase (trim hex))) = toLowerCase (trim hex).
Proof. now rewrite trim_lower, trim_idempotent, toLowerCase_idempotent. Qed.

Lemma find_by_id (customPalettes : list CustomPalette) (wanted : string) :
  somePaletteHasId customPalettes wanted = true ->
  exists found,
    List.find (fun palette => String.eqb (id palette) wanted) customPalettes = Some found /\
    In found customPalettes /\ id found = wanted.
Proof.
  intros Hsome. unfold somePaletteHasId in Hsome.
  destruct (List.find _ customPalettes) as [found|] eqn:Hfind.
  - exists found. split; [reflexivity|].
    apply find_some in Hfind as [Hin Heq]. split; [exact Hin|]. now apply String.eqb_eq.
  - apply existsb_exists in Hsome as (p & Hin & Heq).
    pose proof (find_none _ _ Hfind p Hin) as Hnone. cbn in Hnone. congruence.
Qed.

Lemma find_by_id_none (customPalettes : list CustomPalette) (wanted : string) :
  somePaletteHasId customPalettes wanted = false ->
  List.find (fun palette => String.eqb (id palette) wanted) customPalettes = None.
Proof.
  intros Hnone. destruct (List.find _ customPalettes) as [found|] eqn:Hfind; [|reflexivity].
  apply find_some in Hfind as [Hin Heq].
  assert (somePaletteHasId customPalettes wanted = true)
    by (apply existsb_exists; now exists found).
  congruence.
Qed.

Lemma replacePalette_ids (updated : CustomPalette) (previous : list CustomPalette) :
  map id (replacePalette updated previous) = map id previous.
Proof.
  unfold replacePalette. rewrite map_map. apply map_ext.
  intros p. destruct (String.eqb_spec (id p) (id updated)) as [Heq|_]; congruence.
Qed.

Lemma replacePalette_others (updated : CustomPalette) (previous : list CustomPalette)
    (p : CustomPalette) :
  In p previous -> id p <> id updated -> In p (replacePalette updated previous).
Proof.
  intros Hin Hne. unfold replacePalette. apply in_map_iff. exists p.
  split; [|exact Hin]. destruct (String.eqb_spec (id p) (id updated)); congruence.
Qed.

Lemma replacePalette_replaced (updated : CustomPalette) (previous : list CustomPalette)
    (p : CustomPalette) :
  In p (replacePalette updated previous) -> id p = id updated -> p = updated.
Proof.
  unfold replacePalette. intros Hin Hid. apply in_map_iff in Hin as (q & Hq & _).
  destruct (String.eqb_spec (id q) (id updated)); congruence.
Qed.

Lemma resolvable_same_ids (before after : list CustomPalette)
    (selection : ActivePaletteSelection) :
  map id after = map id before ->
  resolvable before selection -> resolvable after selection.
Proof.
  intros Hids [(Htype & Hpreset & customId & Hid & Hin)|Hpreset]; [left|now right].
  split; [exact Htype|]. split; [exact Hpreset|].
  exists customId. split; [exact Hid|]. unfold AppearanceContext.id in *.
  now rewrite Hids.
Qed.

Lemma customSelection_resolvable (customPalettes : list CustomPalette) (customId : string) :
  In customId (map id customPalettes) -> resolvable customPalettes (customSelection customId).
Proof. intros Hin. left. repeat split. now exists customId. Qed.

End AppearanceProviderFacts.

Module AppearanceProviderTheorems.

Import JsString JsStringFacts JsStringCase JsStringCaseFacts.
Import Appearance PaletteFacts PaletteTheorems AppearanceContext PaletteSelectionTheorems.
Import AppearanceDom AppearanceDomFacts AppearanceProvider AppearanceProviderFacts.
Local Open Scope list_scope.

(** X7.  [normalizeCreatePalettePayload] is idempotent, and the payload it
    returns generates what the payload it was given generates: the tokens,
    or the format error, do not depend on the white space around a seed or
    on the case of its digits. *)
Theorem normalizeCreatePalettePayload_is_neutral (payload : CreateCustomPaletteRequest.t) :
  normalizeCreatePalettePayload (normalizeCreatePalettePayload payload)
  = normalizeCreatePalettePayload payload /\
  generatePaletteTokensFromSeeds
    (CreateCustomPaletteRequest.seeds (normalizeCreatePalettePayload payload))
  = generatePaletteTokensFromSeeds (CreateCustomPaletteRequest.seeds payload) /\
  allSeedsValid (CreateCustomPaletteRequest.seeds (normalizeCreatePalettePayload payload))
  = allSeedsValid (CreateCustomPaletteRequest.seeds payload).
Proof.
  split; [|split].
  - unfold normalizeCreatePalettePayload.
    cbn [CreateCustomPaletteRequest.name CreateCustomPaletteRequest.seeds
         background_seed_hex text_seed_hex primary_seed_hex secondary_seed_hex
         green_seed_hex red_seed_hex yellow_seed_hex blue_seed_hex
         magenta_seed_hex cyan_seed_hex].
    now rewrite trim_idempotent, !normalized_seed.
  - apply generate_normalized.
  - pose proof (generated_or_format_error
                  (CreateCustomPaletteRequest.seeds (normalizeCreatePalettePayload payload)))
      as Hnormalized.
    pose proof (generated_or_format_error (CreateCustomPaletteRequest.seeds payload))
      as Hgiven.
    rewrite generate_normalized in Hnormalized.
    destruct (generatePaletteTokensFromSeeds (CreateCustomPaletteRequest.seeds payload)).
    + congruence.
    + destruct Hnormalized, Hgiven. congruence.
Qed.

(** X8.  [createCustomPalette] without a server (not persisting, or signed
    out) settles at once.  A name that trims to nothing is refused first and
    a seed that is not a hex colour next, both with the provider as it was.
    Otherwise the new palette has the local id, the trimmed name and the
    tokens generated from the seeds as given; it is put in front of the list
    and becomes the active selection, which the list resolves. *)
Theorem createCustomPalette_local
    (env : Environment) (payload : CreateCustomPaletteRequest.t) (st : Provider) :
  persist st && isLoggedIn st = false ->
  let after := fst (createCustomPalette env payload st) in
  match snd (createCustomPalette env payload st) with
  | EditAwaiting _ => False
  | EditSettled (Throw message) =>
      after = st /\
      (trim (CreateCustomPaletteRequest.name payload) = EmptyString /\
       message = "Palette name is required."
       \/
       trim (CreateCustomPaletteRequest.name payload) <> EmptyString /\
       allSeedsValid (CreateCustomPaletteRequest.seeds payload) = false /\
       message = "Color must use 6-digit hex format.")
  | EditSettled (Normal created) =>
      trim (CreateCustomPaletteRequest.name payload) <> EmptyString /\
      allSeedsValid (CreateCustomPaletteRequest.seeds payload) = true /\
      id created = createLocalPaletteId env /\
      name created = trim (CreateCustomPaletteRequest.name payload) /\
      generatePaletteTokensFromSeeds (CreateCustomPaletteRequest.seeds payload)
      = Normal (generated_tokens created) /\
      created_at created = nowIso env /\ updated_at created = nowIso env /\
      customPalettes after = created :: customPalettes st /\
      activePalette after = customSelection (id created) /\
      preferences after = preferences st /\
      resolvable (customPalettes after) (activePalette after)
  end.
Proof.
  intros Hlocal. cbv zeta. unfold createCustomPalette.
  pose proof (generate_normalized payload) as Hsame.
  pose proof (generated_or_format_error (CreateCustomPaletteRequest.seeds payload))
    as Houtcome.
  assert (Hname : CreateCustomPaletteRequest.name (normalizeCreatePalettePayload payload)
                  = trim (CreateCustomPaletteRequest.name payload)) by reflexivity.
  generalize dependent (normalizeCreatePalettePayload payload).
  intros normalizedPayload Hsame Hname. rewrite <- Hname.
  destruct (CreateCustomPaletteRequest.name normalizedPayload) as [|c rest].
  { cbn [fst snd]. split; [reflexivity|]. left. split; reflexivity. }
  rewrite Hlocal, Hsame.
  destruct (generatePaletteTokensFromSeeds (CreateCustomPaletteRequest.seeds payload))
    as [tokens|message]; cbn [fst snd].
  - split; [discriminate|]. split; [exact Houtcome|].
    cbn [id name generated_tokens created_at updated_at customPalettes activePalette
         preferences setActivePalette setCustomPalettes].
    repeat (split; [reflexivity|]).
    apply customSelection_resolvable. cbn [map id]. now left.
  - destruct Houtcome as [Hinvalid ->].
    split; [reflexivity|]. right. split; [discriminate|]. split; [exact Hinvalid | reflexivity].
Qed.

Definition signedOutProvider : Provider :=
  {| persist := true; isLoggedIn := false;
     preferences := DEFAULT_APPEARANCE_PREFERENCES;
     activePalette := createPresetSelection TokyoNight;
     customPalettes := [];
     requests := [] |}.

Definition sampleEnvironment : Environment :=
  {| randomUUID := Throw "TypeError"; now := 1700000000000;
     randomSuffix := "k3j9x0aq"; nowIso := "2023-11-14T22:13:20.000Z" |}.

(** The seeds of the unit test, in capitals and with white space around. *)
Definition loudPayload : CreateCustomPaletteRequest.t :=
  {| CreateCustomPaletteRequest.name := "  Dusk ";
     CreateCustomPaletteRequest.seeds :=
       {| background_seed_hex := " #A9B1D6"; text_seed_hex := "#1A1B26 ";
          primary_seed_hex := "#9ECE6A"; secondary_seed_hex := "#7AA2F7";
          green_seed_hex := "#336699"; red_seed_hex := "#E65100";
          yellow_seed_hex := "#F9A825"; blue_seed_hex := "#1E88E5";
          magenta_seed_hex := "#8E24AA"; cyan_seed_hex := "#00838F" |} |}.

Lemma createCustomPalette_local_witness :
  exists created,
    snd (createCustomPalette sampleEnvironment loudPayload signedOutProvider)
    = EditSettled (Normal created) /\
    id created = "local-palette-1700000000000-k3j9x0aq" /\
    name created = "Dusk" /\
    customPalettes (fst (createCustomPalette sampleEnvironment loudPayload signedOutProvider))
    = [created].
Proof.
  pose proof (createCustomPalette_local sampleEnvironment loudPayload signedOutProvider
                eq_refl) as Hcreate.
  cbv zeta in Hcreate.
  destruct (snd (createCustomPalette sampleEnvironment loudPayload signedOutProvider))
    as [[created|message]|request] eqn:Hsettled.
  - destruct Hcreate as (_ & _ & Hid & Hname & _ & _ & _ & Hlist & _).
    exists created. split; [reflexivity|].
    split; [rewrite Hid; reflexivity|]. split; [rewrite Hname; reflexivity|]. exact Hlist.
  - exfalso. destruct Hcreate as (_ & [[Hempty _]|(_ & Hinvalid & _)]).
    + vm_compute in Hempty. discriminate Hempty.
    + vm_compute in Hinvalid. discriminate Hinvalid.
  - destruct Hcreate.
Defined.

(** X9.  [updateCustomPalette] checks in a fixed order and changes nothing
    when a check fails: the name, then that the palette is known, then
    (without a server) that no other palette has the name in any case, then
    the seeds.  A successful local update keeps the ids of the list in
    their order, the id and the creation time of the palette, every palette
    with another id, and the active selection, which the list still
    resolves. *)
Theorem updateCustomPalette_local
    (env : Environment) (customPaletteId : string)
    (payload : CreateCustomPaletteRequest.t) (st : Provider) :
  persist st && isLoggedIn st = false ->
  let after := fst (updateCustomPalette env customPaletteId payload st) in
  let newName := trim (CreateCustomPaletteRequest.name payload) in
  let taken :=
    existsb (fun palette => negb (String.eqb (id palette) customPaletteId)
                            && String.eqb (toLowerCase (name palette)) (toLowerCase newName))
            (customPalettes st) in
  match snd (updateCustomPalette env customPaletteId payload st) with
  | EditAwaiting _ => False
  | EditSettled (Throw message) =>
      after = st /\
      (newName = EmptyString /\ message = "Palette name is required."
       \/
       newName <> EmptyString /\
       ~ In customPaletteId (map id (customPalettes st)) /\
       message = "Custom palette not found."
       \/
       newName <> EmptyString /\
       In customPaletteId (map id (customPalettes st)) /\
       taken = true /\
       message = "You already have a custom palette with this name."
       \/
       newName <> EmptyString /\
       In customPaletteId (map id (customPalettes st)) /\
       taken = false /\
       allSeedsValid (CreateCustomPaletteRequest.seeds payload) = false /\
       message = "Color must use 6-digit hex format.")
  | EditSettled (Normal updated) =>
      newName <> EmptyString /\ taken = false /\
      allSeedsValid (CreateCustomPaletteRequest.seeds payload) = true /\
      (exists existing,
          List.find (fun palette => String.eqb (id palette) customPaletteId)
                    (customPalettes st) = Some existing /\
          created_at updated = created_at existing) /\
      id updated = customPaletteId /\
      name updated = newName /\
      updated_at updated = nowIso env /\
      generatePaletteTokensFromSeeds (CreateCustomPaletteRequest.seeds payload)
      = Normal (generated_tokens updated) /\
      map id (customPalettes after) = map id (customPalettes st) /\
      (forall palette, In palette (customPalettes st) -> id palette <> customPaletteId ->
                       In palette (customPalettes after)) /\
      (forall palette, In palette (customPalettes after) -> id palette = customPaletteId ->
                       palette = updated) /\
      activePalette after = activePalette st /\
      preferences after = preferences st /\
      (resolvable (customPalettes st) (activePalette st) ->
       resolvable (customPalettes after) (activePalette after))
  end.
Proof.
  intros Hlocal. cbv zeta. unfold updateCustomPalette.
  pose proof (generate_normalized payload) as Hsame.
  pose proof (generated_or_format_error (CreateCustomPaletteRequest.seeds payload))
    as Houtcome.
  assert (Hname : CreateCustomPaletteRequest.name (normalizeCreatePalettePayload payload)
                  = trim (CreateCustomPaletteRequest.name payload)) by reflexivity.
  generalize dependent (normalizeCreatePalettePayload payload).
  intros normalizedPayload Hsame Hname. rewrite <- Hname.
  destruct (CreateCustomPaletteRequest.name normalizedPayload) as [|c rest] eqn:Hnew.
  { cbn [fst snd]. split; [reflexivity|]. left. split; reflexivity. }
  destruct (somePaletteHasId (customPalettes st) customPaletteId) eqn:Hknown.
  2: { rewrite (find_by_id_none _ _ Hknown). cbn [fst snd].
       split; [reflexivity|]. right. left. split; [discriminate|].
       split; [|reflexivity]. intros Hin. apply somePaletteHasId_In in Hin. congruence. }
  destruct (find_by_id _ _ Hknown) as (existing & Hfind & Hin & Hid).
  apply somePaletteHasId_In in Hknown.
  rewrite Hfind, Hlocal.
  destruct (existsb _ (customPalettes st)) eqn:Htaken.
  { cbn [fst snd]. split; [reflexivity|]. right. right. left.
    split; [discriminate|]. split; [exact Hknown|]. split; reflexivity. }
  rewrite Hsame.
  destruct (generatePaletteTokensFromSeeds (CreateCustomPaletteRequest.seeds payload))
    as [tokens|message]; cbn [fst snd].
  - split; [discriminate|]. split; [reflexivity|]. split; [exact Houtcome|].
    split; [exists existing; split; reflexivity|].
    cbn [id name generated_tokens created_at updated_at customPalettes activePalette
         preferences setCustomPalettes].
    split; [exact Hid|]. do 3 (split; [reflexivity|]).
    split; [apply replacePalette_ids|].
    split; [intros palette Hp Hne; apply replacePalette_others; [exact Hp|]; cbn [id];
            congruence|].
    split; [intros palette Hp Heq; apply (replacePalette_replaced _ _ _ Hp); cbn [id];
            congruence|].
    split; [reflexivity|]. split; [reflexivity|].
    apply resolvable_same_ids, replacePalette_ids.
  - destruct Houtcome as [Hinvalid ->].
    split; [reflexivity|]. right. right. right.
    split; [discriminate|]. split; [exact Hknown|]. split; [reflexivity|].
    split; [exact Hinvalid | reflexivity].
Qed.

Definition duskProvider : Provider :=
  fst (createCustomPalette sampleEnvironment loudPayload signedOutProvider).

Definition dawnPayload : CreateCustomPaletteRequest.t :=
  {| CreateCustomPaletteRequest.name := "Dawn";
     CreateCustomPaletteRequest.seeds := sampleSeeds |}.

Definition laterEnvironment : Environment :=
  {| randomUUID := Throw "TypeError"; now := 1700000360000;
     randomSuffix := "p0q1r2s3"; nowIso := "2023-11-14T22:19:20.000Z" |}.

Lemma updateCustomPalette_local_witness :
  exists updated,
    snd (updateCustomPalette laterEnvironment "local-palette-1700000000000-k3j9x0aq"
           dawnPayload duskProvider)
    = EditSettled (Normal updated) /\
    name updated = "Dawn" /\
    updated_at updated = "2023-11-14T22:19:20.000Z" /\
    map id (customPalettes
              (fst (updateCustomPalette laterEnvironment
                      "local-palette-1700000000000-k3j9x0aq" dawnPayload duskProvider)))
    = [ "local-palette-1700000000000-k3j9x0aq" ].
Proof.
  pose proof (updateCustomPalette_local laterEnvironment
                "local-palette-1700000000000-k3j9x0aq" dawnPayload duskProvider eq_refl)
    as Hupdate.
  cbv zeta in Hupdate.
  destruct (snd (updateCustomPalette laterEnvironment _ dawnPayload duskProvider))
    as [[updated|message]|request] eqn:Hsettled.
  - destruct Hupdate as (_ & _ & _ & _ & _ & Hname & Hat & _ & Hids & _).
    exists updated. split; [reflexivity|].
    split; [rewrite Hname; reflexivity|]. split; [rewrite Hat; reflexivity|].
    rewrite Hids. vm_compute. reflexivity.
  - exfalso. vm_compute in Hsettled. discriminate Hsettled.
  - destruct Hupdate.
Defined.

Lemma resolvable_more (before after : list CustomPalette) (selection : ActivePaletteSelection) :
  incl (map id before) (map id after) ->
  resolvable before selection -> resolvable after selection.
Proof.
  intros Hincl [(Htype & Hpreset & customId & Hid & Hin)|Hpreset]; [left|now right].
  split; [exact Htype|]. split; [exact Hpreset|].
  exists customId. split; [exact Hid|]. now apply Hincl.
Qed.

(** X10.  With a server (persisting and signed in) the editing callbacks
    send the normalised payload and change nothing before the reply; the
    seeds are not checked locally.  A failed reply is passed on with the
    provider as it was.  The reply to a creation puts the created palette in
    front, leaves no other palette with its id, keeps the palettes with
    other ids, and commits a selection the new list resolves; the reply to an
    update keeps the ids of the list and the selection. *)
Theorem editing_with_server (st : Provider) :
  (forall env payload,
      persist st && isLoggedIn st = true ->
      CreateCustomPaletteRequest.name (normalizeCreatePalettePayload payload) <> EmptyString ->
      createCustomPalette env payload st
      = (st, EditAwaiting (PostPalette (normalizeCreatePalettePayload payload)))) /\
  (forall env customPaletteId payload,
      persist st && isLoggedIn st = true ->
      CreateCustomPaletteRequest.name (normalizeCreatePalettePayload payload) <> EmptyString ->
      In customPaletteId (map id (customPalettes st)) ->
      updateCustomPalette env customPaletteId payload st
      = (st, EditAwaiting (PutPalette customPaletteId (normalizeCreatePalettePayload payload)))) /\
  (forall error,
      createCustomPalette_resumed (Throw error) st = (st, EditSettled (Throw error)) /\
      updateCustomPalette_resumed (Throw error) st = (st, EditSettled (Throw error))) /\
  (forall response,
      let created := CreateCustomPaletteResponse.palette response in
      let after := fst (createCustomPalette_resumed (Normal response) st) in
      snd (createCustomPalette_resumed (Normal response) st) = EditSettled (Normal created) /\
      (exists others,
          customPalettes after = created :: others /\
          ~ In (id created) (map id others) /\
          forall palette, In palette others
                          <-> In palette (customPalettes st) /\ id palette <> id created) /\
      resolvable (customPalettes after) (activePalette after)) /\
  (forall response,
      let updated := UpdateCustomPaletteResponse.palette response in
      let after := fst (updateCustomPalette_resumed (Normal response) st) in
      snd (updateCustomPalette_resumed (Normal response) st) = EditSettled (Normal updated) /\
      map id (customPalettes after) = map id (customPalettes st) /\
      activePalette after = activePalette st /\
      (resolvable (customPalettes st) (activePalette st) ->
       resolvable (customPalettes after) (activePalette after))).
Proof.
  split; [|split; [|split; [|split]]].
  - intros env payload Hserver Hname. unfold createCustomPalette.
    destruct (CreateCustomPaletteRequest.name (normalizeCreatePalettePayload payload));
      [congruence|].
    now rewrite Hserver.
  - intros env customPaletteId payload Hserver Hname Hknown. unfold updateCustomPalette.
    destruct (CreateCustomPaletteRequest.name (normalizeCreatePalettePayload payload));
      [congruence|].
    apply somePaletteHasId_In in Hknown.
    destruct (find_by_id _ _ Hknown) as (existing & -> & _).
    now rewrite Hserver.
  - intros error. split; reflexivity.
  - intros response. cbv zeta. unfold createCustomPalette_resumed. cbn [fst snd].
    cbn [customPalettes activePalette setActivePalette setCustomPalettes].
    split; [reflexivity|]. split.
    + eexists. split; [reflexivity|]. split.
      * intros Hin. apply in_map_iff in Hin as (p & Hid & Hp).
        apply filter_In in Hp as [_ Hne].
        rewrite Hid, String.eqb_refl in Hne. discriminate Hne.
      * intros palette. rewrite filter_In. split.
        -- intros [Hin Hne]. split; [exact Hin|].
           intros Heq. rewrite Heq, String.eqb_refl in Hne. discriminate Hne.
        -- intros [Hin Hne]. split; [exact Hin|].
           destruct (String.eqb_spec (id palette)
                       (id (CreateCustomPaletteResponse.palette response)));
             [contradiction | reflexivity].
    + apply (resolvable_more [CreateCustomPaletteResponse.palette response]).
      * intros x [<-|[]]. now left.
      * apply normalize_resolvable.
  - intros response. cbv zeta. unfold updateCustomPalette_resumed. cbn [fst snd].
    cbn [customPalettes activePalette setCustomPalettes].
    split; [reflexivity|]. split; [apply replacePalette_ids|]. split; [reflexivity|].
    apply resolvable_same_ids, replacePalette_ids.
Qed.

Definition noTokens : PaletteRgbTokens :=
  let e := EmptyString in
  {| background := e; text := e; primary_100 := e; primary_80 := e; primary_60 := e;
     secondary_100 := e; secondary_80 := e; secondary_60 := e; black := e; white := e;
     green_100 := e; green_80 := e; green_60 := e; red_100 := e; red_80 := e; red_60 := e;
     yellow_100 := e; yellow_80 := e; yellow_60 := e; blue_100 := e; blue_80 := e;
     blue_60 := e; magenta_100 := e; magenta_80 := e; magenta_60 := e;
     cyan_100 := e; cyan_80 := e; cyan_60 := e |}.

Definition serverDusk : CustomPalette :=
  {| id := "9b2e"; name := "Dusk"; seeds := sampleSeeds;
     generated_tokens :=
       match generatePaletteTokensFromSeeds sampleSeeds with
       | Normal tokens => tokens
       | Throw _ => noTokens
       end;
     generation_version := 2;
     created_at := "2023-11-14T22:13:20.000Z";
     updated_at := "2023-11-14T22:13:20.000Z" |}.

Lemma editing_with_server_witness :
  createCustomPalette sampleEnvironment loudPayload signedInProvider
  = (signedInProvider, EditAwaiting (PostPalette (normalizeCreatePalettePayload loudPayload)))
  /\
  activePalette
    (fst (createCustomPalette_resumed
            (Normal {| CreateCustomPaletteResponse.message := "Palette created.";
                       CreateCustomPaletteResponse.palette := serverDusk;
                       CreateCustomPaletteResponse.active_palette := customSelection "9b2e" |})
            signedInProvider))
  = customSelection "9b2e".
Proof.
  destruct (editing_with_server signedInProvider) as (Hsend & _ & _ & Hcreated & _).
  split.
  - apply Hsend; [reflexivity|]. vm_compute. discriminate.
  - destruct (Hcreated {| CreateCustomPaletteResponse.message := "Palette created.";
                          CreateCustomPaletteResponse.palette := serverDusk;
                          CreateCustomPaletteResponse.active_palette :=
                            customSelection "9b2e" |})
      as (_ & _ & _).
    reflexivity.
Defined.

(** What the appearance effect writes, by the kind of the active selection. *)
Lemma appearanceEffect_custom (systemTheme : ResolvedTheme) (st : Provider)
    (el : HTMLElement) (selected : CustomPalette) :
  palette_type (activePalette st) = "custom" ->
  custom_palette_id (activePalette st) = Some (id selected) ->
  id selected <> EmptyString ->
  List.find (fun palette => String.eqb (id palette) (id selected)) (customPalettes st)
  = Some selected ->
  appearanceEffect systemTheme st (Some el)
  = Some (setTokens (generated_tokens selected) PALETTE_TOKEN_VARIABLE_NAMES
            (setAttribute "data-palette" "custom"
               (setAttribute "data-theme"
                  (resolvedThemeName (resolveThemeMode (mode (preferences st)) systemTheme))
                  el))).
Proof.
  intros Htype Hid Hnonempty Hfind. unfold appearanceEffect.
  rewrite Hid, Htype, Hfind.
  destruct (String.eqb_spec (id selected) EmptyString) as [Heq|_]; [contradiction|].
  reflexivity.
Qed.

Lemma appearanceEffect_preset (systemTheme : ResolvedTheme) (st : Provider)
    (el : HTMLElement) :
  custom_palette_id (activePalette st) = None ->
  appearanceEffect systemTheme st (Some el)
  = Some (setAttribute "data-palette" (colorPaletteName (palette (preferences st)))
            (removeAll variableNames
               (setAttribute "data-theme"
                  (resolvedThemeName (resolveThemeMode (mode (preferences st)) systemTheme))
                  el))).
Proof. intros Hid. unfold appearanceEffect. rewrite Hid. reflexivity. Qed.

(** The element shows the selection of the provider: the resolved theme,
    and either the tokens of the selected custom palette under the palette
    name [custom], or the selected preset with no token variable declared. *)
Definition showsSelection (systemTheme : ResolvedTheme) (st : Provider) (el' : HTMLElement)
  : Prop :=
  attributes el' !! "data-theme"
  = Some (resolvedThemeName (resolveThemeMode (mode (preferences st)) systemTheme)) /\
  ((exists selected,
       activePalette st = customSelection (id selected) /\
       In selected (customPalettes st) /\
       attributes el' !! "data-palette" = Some "custom" /\
       forall get name, (get, name) ∈ PALETTE_TOKEN_VARIABLE_NAMES ->
                        style el' !! name = Some (get (generated_tokens selected)))
   \/
   (exists preset,
       activePalette st = createPresetSelection preset /\
       attributes el' !! "data-palette" = Some (colorPaletteName preset) /\
       forall name, name ∈ variableNames -> style el' !! name = None)).

(** What holds of the provider between two calls: the list resolves the
    active selection, an active preset is the preset of the preferences, no
    custom palette has the empty id, and the tokens of every custom palette
    are what its seeds generate. *)
Definition consistent (st : Provider) : Prop :=
  resolvable (customPalettes st) (activePalette st) /\
  (palette_type (activePalette st) = "preset" ->
   preset_palette (activePalette st)
   = Some (colorPaletteName (palette (preferences st)))) /\
  ~ In EmptyString (map id (customPalettes st)) /\
  Forall (fun palette => generatePaletteTokensFromSeeds (seeds palette)
                         = Normal (generated_tokens palette))
         (customPalettes st).

Lemma selection_eta (selection : ActivePaletteSelection) :
  selection = {| palette_type := palette_type selection;
                 preset_palette := preset_palette selection;
                 custom_palette_id := custom_palette_id selection |}.
Proof. now destruct selection. Qed.

Lemma consistent_shows (systemTheme : ResolvedTheme) (st : Provider) (el : HTMLElement) :
  consistent st ->
  exists el',
    appearanceEffect systemTheme st (Some el) = Some el' /\
    showsSelection systemTheme st el'.
Proof.
  intros (Hresolvable & Hpreset & Hids & Htokens).
  destruct Hresolvable as [(Htype & Hnone & customId & Hid & Hin)
                          |(Htype & Hnone & preset & Hname)].
  - apply somePaletteHasId_In in Hin.
    destruct (find_by_id _ _ Hin) as (selected & Hfind & Hselected & <-).
    assert (Hnonempty : id selected <> EmptyString).
    { intros Hempty. apply Hids. rewrite <- Hempty. now apply in_map. }
    eexists. split.
    { apply (appearanceEffect_custom systemTheme st el selected); assumption. }
    split.
    + rewrite setTokens_attributes. unfold setAttribute. cbn [attributes].
      rewrite lookup_insert_ne by discriminate. now rewrite lookup_insert_eq.
    + left. exists selected.
      split; [rewrite (selection_eta (activePalette st)), Htype, Hnone, Hid; reflexivity|].
      split; [exact Hselected|]. split.
      * rewrite setTokens_attributes. unfold setAttribute. cbn [attributes].
        now rewrite lookup_insert_eq.
      * intros get name Hentry.
        rewrite Forall_forall in Htokens. apply list_elem_of_In in Hselected.
        pose proof (generated_tokens_nonempty _ _ (Htokens selected Hselected))
          as Hnonempties.
        rewrite Forall_forall in Hnonempties.
        apply setTokens_entry; [exact variableNames_NoDup | exact Hentry |].
        exact (Hnonempties (get, name) Hentry).
  - eexists. split; [apply (appearanceEffect_preset systemTheme st el Hnone)|].
    specialize (Hpreset Htype). rewrite Hname in Hpreset.
    split.
    + unfold setAttribute at 1. cbn [attributes].
      rewrite lookup_insert_ne by discriminate.
      rewrite removeAll_attributes. unfold setAttribute. cbn [attributes].
      now rewrite lookup_insert_eq.
    + right. exists preset.
      split; [rewrite (selection_eta (activePalette st)), Htype, Hnone, Hname; reflexivity|].
      split.
      * unfold setAttribute at 1. cbn [attributes].
        rewrite lookup_insert_eq. congruence.
      * intros name Hin. unfold setAttribute at 1. cbn [style].
        now apply removeAll_removed.
Qed.

Lemma presetSelected_state (preset : ColorPalette) (st : Provider) :
  activePalette (presetSelected preset st) = createPresetSelection preset /\
  palette (preferences (presetSelected preset st)) = preset /\
  mode (preferences (presetSelected preset st)) = mode (preferences st) /\
  customPalettes (presetSelected preset st) = customPalettes st /\
  persist (presetSelected preset st) = persist st /\
  isLoggedIn (presetSelected preset st) = isLoggedIn st /\
  requests (presetSelected preset st) = requests st.
Proof.
  unfold presetSelected, setPreferences, setActivePalette.
  cbn [activePalette preferences customPalettes persist isLoggedIn requests].
  repeat (split; [reflexivity|]). split; [|split; [|repeat split]].
  - destruct (String.eqb_spec (colorPaletteName (palette (preferences st)))
                (colorPaletteName preset)) as [Heq|_]; [|reflexivity].
    destruct (palette (preferences st)), preset; (reflexivity || discriminate Heq).
  - now destruct (String.eqb _ _).
Qed.

Lemma presetSelected_consistent (preset : ColorPalette) (st : Provider) :
  consistent st -> consistent (presetSelected preset st).
Proof.
  intros (_ & _ & Hids & Htokens).
  destruct (presetSelected_state preset st) as (Hactive & Hpalette & _ & Hlist & _).
  unfold consistent. rewrite Hactive, Hlist, Hpalette.
  split; [apply createPresetSelection_resolvable|].
  split; [reflexivity|]. split; assumption.
Qed.

(** X11.  [selectPresetPalette] commits the preset to the active selection
    and to the preferences together, keeping the mode and the custom
    palettes.  Without a server it does so at once; with one it first sends
    the request and changes nothing else, commits on the reply, and on a
    failed reply passes the error on with the provider as it was.  Once
    committed, the appearance effect shows the preset and declares none of
    the token variables. *)
Theorem selectPresetPalette_commits_both (preset : ColorPalette) (st : Provider) :
  let selected := presetSelected preset st in
  activePalette selected = createPresetSelection preset /\
  preferences selected = {| mode := mode (preferences st); palette := preset |} /\
  customPalettes selected = customPalettes st /\
  (persist st && isLoggedIn st = false ->
   selectPresetPalette preset st = (selected, Settled (Normal tt))) /\
  (persist st && isLoggedIn st = true ->
   selectPresetPalette preset st
   = (send (PutActivePreset preset) st, Awaiting (PutActivePreset preset))) /\
  selectPresetPalette_resumed preset (Normal tt) st = (selected, Settled (Normal tt)) /\
  (forall error,
      selectPresetPalette_resumed preset (Throw error) st = (st, Settled (Throw error))) /\
  (forall systemTheme el,
      exists el',
        appearanceEffect systemTheme selected (Some el) = Some el' /\
        attributes el' !! "data-palette" = Some (colorPaletteName preset) /\
        attributes el' !! "data-theme"
        = Some (resolvedThemeName (resolveThemeMode (mode (preferences st)) systemTheme)) /\
        forall name, name ∈ map snd PALETTE_TOKEN_VARIABLE_NAMES -> style el' !! name = None).
Proof.
  cbv zeta.
  destruct (presetSelected_state preset st) as (Hactive & Hpalette & Hmode & Hlist & _).
  split; [exact Hactive|].
  split; [rewrite (PreferenceFacts.preferences_eta (preferences _)), Hpalette, Hmode; reflexivity|].
  split; [exact Hlist|].
  split; [intros Hlocal; unfold selectPresetPalette; now rewrite Hlocal|].
  split; [intros Hserver; unfold selectPresetPalette; now rewrite Hserver|].
  split; [reflexivity|]. split; [reflexivity|].
  intros systemTheme el. eexists.
  split.
  { apply appearanceEffect_preset. now rewrite Hactive. }
  rewrite Hpalette, Hmode.
  split; [|split].
  - unfold setAttribute at 1. cbn [attributes]. now rewrite lookup_insert_eq.
  - unfold setAttribute at 1. cbn [attributes].
    rewrite lookup_insert_ne by discriminate.
    rewrite removeAll_attributes. unfold setAttribute. cbn [attributes].
    now rewrite lookup_insert_eq.
  - intros name Hin. unfold setAttribute at 1. cbn [style]. now apply removeAll_removed.
Qed.

Lemma selectPresetPalette_commits_both_witness :
  selectPresetPalette Everforest signedOutProvider
  = (presetSelected Everforest signedOutProvider, Settled (Normal tt)) /\
  preferences (presetSelected Everforest signedOutProvider)
  = {| mode := ModeSystem; palette := Everforest |} /\
  selectPresetPalette Everforest signedInProvider
  = (send (PutActivePreset Everforest) signedInProvider, Awaiting (PutActivePreset Everforest)).
Proof.
  destruct (selectPresetPalette_commits_both Everforest signedOutProvider)
    as (_ & Hpreferences & _ & Hlocal & _).
  destruct (selectPresetPalette_commits_both Everforest signedInProvider)
    as (_ & _ & _ & _ & Hserver & _).
  split; [apply Hlocal; reflexivity|].
  split; [exact Hpreferences|]. apply Hserver. reflexivity.
Defined.

(** *** Any sequence of calls without a server *)

Inductive LocalCall : Type :=
| CallSetMode (mode : ThemeMode)
| CallSelectPreset (preset : ColorPalette)
| CallSelectCustom (customPaletteId : string)
| CallCreate (env : Environment) (payload : CreateCustomPaletteRequest.t)
| CallUpdate (env : Environment) (customPaletteId : string)
             (payload : CreateCustomPaletteRequest.t).

Definition localStep (st : Provider) (call : LocalCall) : Provider :=
  match call with
  | CallSetMode mode => setMode mode st
  | CallSelectPreset preset => fst (selectPresetPalette preset st)
  | CallSelectCustom customPaletteId => fst (selectCustomPalette customPaletteId st)
  | CallCreate env payload => fst (createCustomPalette env payload st)
  | CallUpdate env customPaletteId payload =>
      fst (updateCustomPalette env customPaletteId payload st)
  end.

Definition runLocal (calls : list LocalCall) (st : Provider) : Provider :=
  fold_left localStep calls st.

(** [crypto.randomUUID()], where it returns, returns a UUID and so not the
    empty string. *)
Definition givesUuid (call : LocalCall) : Prop :=
  match call with
  | CallCreate env _ => randomUUID env <> Normal EmptyString
  | _ => True
  end.

Definition noServer (st : Provider) : Prop := persist st && isLoggedIn st = false.

Lemma createLocalPaletteId_nonempty (env : Environment) :
  randomUUID env <> Normal EmptyString -> createLocalPaletteId env <> EmptyString.
Proof.
  unfold createLocalPaletteId. destruct (randomUUID env) as [uuid|]; [congruence|].
  intros _. discriminate.
Qed.

Lemma setMode_consistent (mode : ThemeMode) (st : Provider) :
  consistent st -> consistent (setMode mode st).
Proof.
  intros (Hresolvable & Hpreset & Hids & Htokens).
  unfold consistent, setMode, setPreferences.
  cbn [customPalettes activePalette preferences].
  split; [exact Hresolvable|]. split; [|split; assumption].
  intros Htype. rewrite (Hpreset Htype). now destruct (String.eqb _ _).
Qed.

Lemma selectCustomPalette_consistent (customPaletteId : string) (st : Provider) :
  noServer st -> consistent st ->
  consistent (fst (selectCustomPalette customPaletteId st)).
Proof.
  intros Hlocal Hconsistent. unfold selectCustomPalette.
  destruct (somePaletteHasId (customPalettes st) customPaletteId) eqn:Hknown;
    cbn [negb fst]; [|exact Hconsistent].
  unfold noServer in Hlocal. rewrite Hlocal. cbn [fst].
  destruct Hconsistent as (_ & _ & Hids & Htokens).
  unfold consistent. cbn [customPalettes activePalette preferences setActivePalette].
  split; [apply customSelection_resolvable; now apply somePaletteHasId_In|].
  split; [discriminate|]. split; assumption.
Qed.

Lemma createCustomPalette_consistent (env : Environment)
    (payload : CreateCustomPaletteRequest.t) (st : Provider) :
  noServer st -> randomUUID env <> Normal EmptyString -> consistent st ->
  consistent (fst (createCustomPalette env payload st)).
Proof.
  intros Hlocal Huuid Hconsistent. unfold createCustomPalette.
  destruct (CreateCustomPaletteRequest.name (normalizeCreatePalettePayload payload));
    [exact Hconsistent|].
  unfold noServer in Hlocal. rewrite Hlocal.
  destruct (generatePaletteTokensFromSeeds _) as [tokens|message] eqn:Hgenerated;
    cbn [fst]; [|exact Hconsistent].
  destruct Hconsistent as (_ & _ & Hids & Htokens).
  unfold consistent.
  cbn [customPalettes activePalette preferences setActivePalette setCustomPalettes id map].
  split; [apply customSelection_resolvable; now left|].
  split; [discriminate|]. split.
  - intros [Hempty|Hin]; [|contradiction].
    now apply (createLocalPaletteId_nonempty env Huuid).
  - apply Forall_cons. split; [exact Hgenerated | exact Htokens].
Qed.

Lemma replacePalette_Forall (P : CustomPalette -> Prop) (updated : CustomPalette)
    (previous : list CustomPalette) :
  P updated -> Forall P previous -> Forall P (replacePalette updated previous).
Proof.
  intros Hupdated Hprevious. unfold replacePalette.
  induction Hprevious as [|p rest Hp _ IH]; cbn [map]; [apply Forall_nil; exact I|].
  apply Forall_cons. split; [|exact IH]. now destruct (String.eqb _ _).
Qed.

Lemma updateCustomPalette_consistent (env : Environment) (customPaletteId : string)
    (payload : CreateCustomPaletteRequest.t) (st : Provider) :
  noServer st -> consistent st ->
  consistent (fst (updateCustomPalette env customPaletteId payload st)).
Proof.
  intros Hlocal Hconsistent. unfold updateCustomPalette.
  destruct (CreateCustomPaletteRequest.name (normalizeCreatePalettePayload payload));
    [exact Hconsistent|].
  destruct (List.find _ (customPalettes st)) as [existing|]; [|exact Hconsistent].
  unfold noServer in Hlocal. rewrite Hlocal.
  destruct (existsb _ (customPalettes st)); [exact Hconsistent|].
  destruct (generatePaletteTokensFromSeeds _) as [tokens|message] eqn:Hgenerated;
    cbn [fst]; [|exact Hconsistent].
  destruct Hconsistent as (Hresolvable & Hpreset & Hids & Htokens).
  unfold consistent.
  cbn [customPalettes activePalette preferences setCustomPalettes].
  split; [exact (resolvable_same_ids _ _ _ (replacePalette_ids _ _) Hresolvable)|].
  split; [exact Hpreset|]. split.
  - unfold AppearanceContext.id in *. now rewrite replacePalette_ids.
  - apply replacePalette_Forall; [exact Hgenerated | exact Htokens].
Qed.

Lemma localStep_noServer (st : Provider) (call : LocalCall) :
  noServer st -> noServer (localStep st call).
Proof.
  unfold noServer. intros Hlocal.
  assert (Hsame : persist (localStep st call) = persist st
                  /\ isLoggedIn (localStep st call) = isLoggedIn st).
  { destruct call as [m|preset|customPaletteId|env payload|env customPaletteId payload];
      cbn [localStep].
    - split; reflexivity.
    - unfold selectPresetPalette. rewrite Hlocal. cbn [fst].
      destruct (presetSelected_state preset st) as (_ & _ & _ & _ & Hp & Hl & _).
      now split.
    - unfold selectCustomPalette.
      destruct (somePaletteHasId _ _); cbn [negb fst]; [|now split].
      rewrite Hlocal. now split.
    - unfold createCustomPalette.
      destruct (CreateCustomPaletteRequest.name _); [now split|].
      rewrite Hlocal. destruct (generatePaletteTokensFromSeeds _); now split.
    - unfold updateCustomPalette.
      destruct (CreateCustomPaletteRequest.name _); [now split|].
      destruct (List.find _ _); [|now split].
      rewrite Hlocal. destruct (existsb _ _); [now split|].
      destruct (generatePaletteTokensFromSeeds _); now split. }
  destruct Hsame as [-> ->]. exact Hlocal.
Qed.

Lemma localStep_consistent (st : Provider) (call : LocalCall) :
  noServer st -> givesUuid call -> consistent st -> consistent (localStep st call).
Proof.
  intros Hlocal Huuid Hconsistent.
  destruct call as [m|preset|customPaletteId|env payload|env customPaletteId payload];
    cbn [localStep].
  - now apply setMode_consistent.
  - unfold selectPresetPalette. unfold noServer in Hlocal. rewrite Hlocal. cbn [fst].
    now apply presetSelected_consistent.
  - now apply selectCustomPalette_consistent.
  - now apply createCustomPalette_consistent.
  - now apply updateCustomPalette_consistent.
Qed.

Lemma runLocal_consistent (calls : list LocalCall) (st : Provider) :
  noServer st -> Forall givesUuid calls -> consistent st ->
  noServer (runLocal calls st) /\ consistent (runLocal calls st).
Proof.
  revert st. induction calls as [|call calls IH]; intros st Hlocal Huuids Hconsistent.
  - now split.
  - apply Forall_cons in Huuids as [Huuid Huuids].
    cbn [runLocal fold_left]. apply IH.
    + now apply localStep_noServer.
    + exact Huuids.
    + now apply localStep_consistent.
Qed.


Lemma signedOutProvider_consistent : consistent signedOutProvider.
Proof.
  split; [apply createPresetSelection_resolvable|].
  split; [reflexivity|]. split; [intros []|]. apply Forall_nil. exact I.
Qed.

Definition sampleCalls : list LocalCall :=
  [ CallCreate sampleEnvironment loudPayload;
    CallSetMode ModeDark;
    CallSelectPreset Everforest;
    CallUpdate laterEnvironment "local-palette-1700000000000-k3j9x0aq" dawnPayload;
    CallSelectCustom "local-palette-1700000000000-k3j9x0aq";
    CallSelectCustom "7f3c" ].


(** X13.  Signed out, a persisting provider drops every custom palette and
    selects the preset stored in the browser (the default one when nothing
    can be loaded), asking the server nothing.  When the preferences were
    saved just before on a storage that accepts the write and the read, as the
    saving effect does, that preset is the one of the preferences, and the
    appearance effect then shows it with no token variable left. *)
Theorem sessionEffect_signed_out (storage : option AppearanceStorage) (st : Provider) :
  persist st = true -> isLoggedIn st = false ->
  exists fallbackPreferences after,
    loadAppearancePreferences storage = Normal fallbackPreferences /\
    sessionEffect storage st = Normal (after, Settled (Normal tt)) /\
    customPalettes after = [] /\
    activePalette after = createPresetSelection (palette fallbackPreferences) /\
    preferences after = preferences st /\
    requests after = requests st /\
    resolvable (customPalettes after) (activePalette after) /\
    (forall storage0,
        storage = Some storage0 ->
        (exists earlier,
            writesRefused earlier = false /\ readsRefused earlier = false /\
            persistEffect (Some earlier) st = Normal storage) ->
        fallbackPreferences = preferences st /\
        consistent after /\
        forall systemTheme el,
        exists el',
          appearanceEffect systemTheme after (Some el) = Some el' /\
          attributes el' !! "data-palette"
          = Some (colorPaletteName (palette (preferences st))) /\
          forall name, name ∈ map snd PALETTE_TOKEN_VARIABLE_NAMES ->
                       style el' !! name = None).
Proof.
  intros Hpersist Hsignedout.
  destruct (PreferenceFacts.load_never_throws storage) as [fallbackPreferences Hload].
  exists fallbackPreferences.
  unfold sessionEffect. rewrite Hpersist, Hsignedout, Hload.
  cbn [negb mbind completion_bind].
  eexists. split; [reflexivity|]. split; [reflexivity|].
  cbn [customPalettes activePalette preferences requests setActivePalette setCustomPalettes].
  repeat (split; [reflexivity|]).
  split; [apply createPresetSelection_resolvable|].
  intros storage0 -> (earlier & Hwrite & Hread & Hsaved).
  assert (Hfallback : fallbackPreferences = preferences st).
  { unfold persistEffect in Hsaved. rewrite Hpersist in Hsaved. cbn [negb] in Hsaved.
    unfold persistAppearancePreferences, setItem in Hsaved. rewrite Hwrite in Hsaved.
    cbn [mbind completion_bind tryCatch] in Hsaved. injection Hsaved as <-.
    rewrite (PreferenceFacts.load_of_text _
               (Json.stringify (preferencesObject (preferences st)))
               (preferencesObject (preferences st))) in Hload.
    - rewrite PreferenceFacts.parseStoredPreferences_object in Hload. congruence.
    - unfold getItem. cbn [readsRefused items]. rewrite Hread.
      now rewrite lookup_insert_eq.
    - apply PreferenceFacts.parse_stringify_preferences. }
  split; [exact Hfallback|]. subst fallbackPreferences.
  assert (Hconsistent :
            consistent (setActivePalette (createPresetSelection (palette (preferences st)))
                          (setCustomPalettes [] st))).
  { split; [apply createPresetSelection_resolvable|].
    split; [reflexivity|]. split; [intros []|]. apply Forall_nil. exact I. }
  split; [exact Hconsistent|].
  intros systemTheme el. eexists.
  split; [apply appearanceEffect_preset; reflexivity|].
  cbn [preferences setActivePalette setCustomPalettes].
  split.
  - unfold setAttribute at 1. cbn [attributes]. now rewrite lookup_insert_eq.
  - intros name Hin. unfold setAttribute at 1. cbn [style]. now apply removeAll_removed.
Qed.

Lemma sessionEffect_signed_out_witness :
  exists after,
    sessionEffect (Some (PreferenceFacts.storageHolding PreferenceTheorems.sunsetText))
      duskProvider
    = Normal (after, Settled (Normal tt)) /\
    customPalettes after = [] /\
    activePalette after = createPresetSelection Catppuccin.
Proof.
  destruct (sessionEffect_signed_out
              (Some (PreferenceFacts.storageHolding PreferenceTheorems.sunsetText))
              duskProvider eq_refl eq_refl)
    as (fallbackPreferences & after & Hload & Heffect & Hlist & Hactive & _).
  exists after. split; [exact Heffect|]. split; [exact Hlist|].
  rewrite Hactive. f_equal.
  assert (Hloaded : loadAppearancePreferences
                      (Some (PreferenceFacts.storageHolding PreferenceTheorems.sunsetText))
                    = Normal {| mode := ModeDark; palette := Catppuccin |}).
  { rewrite (PreferenceFacts.load_of_text _ PreferenceTheorems.sunsetText
               (Json.JObject PreferenceTheorems.sunsetFields)
               (PreferenceFacts.getItem_storageHolding _)); [reflexivity|].
    vm_compute. reflexivity. }
  rewrite Hloaded in Hload. injection Hload as <-. reflexivity.
Defined.

Lemma normalize_cases (activePalette : ActivePaletteSelection)
    (customPalettes : list CustomPalette) :
  (exists customId,
      normalizeActivePaletteSelection activePalette customPalettes
      = customSelection customId /\
      customId <> EmptyString /\
      custom_palette_id activePalette = Some customId /\
      somePaletteHasId customPalettes customId = true)
  \/
  (exists preset,
      normalizeActivePaletteSelection activePalette customPalettes
      = createPresetSelection preset).
Proof.
  unfold normalizeActivePaletteSelection.
  assert (Hpreset : exists preset,
             match preset_palette activePalette with
             | Some name =>
                 if String.eqb (palette_type activePalette) "preset" && isPresetPalette name
                 then createPresetSelection (asPresetPalette name)
                 else createPresetSelection (palette DEFAULT_APPEARANCE_PREFERENCES)
             | None => createPresetSelection (palette DEFAULT_APPEARANCE_PREFERENCES)
             end = createPresetSelection preset).
  { destruct (preset_palette activePalette) as [name|]; [|now eexists].
    destruct (String.eqb _ "preset" && _); now eexists. }
  destruct (custom_palette_id activePalette) as [customId|]; [|now right].
  destruct (String.eqb (palette_type activePalette) "custom"
            && negb (String.eqb customId EmptyString)
            && somePaletteHasId customPalettes customId) eqn:Hcustom; [|now right].
  apply andb_prop in Hcustom as [Hcustom Hknown].
  apply andb_prop in Hcustom as [_ Hnonempty].
  left. exists customId. split; [reflexivity|]. split; [|split; [reflexivity | exact Hknown]].
  intros ->. discriminate Hnonempty.
Qed.

Lemma asPresetPalette_name (preset : ColorPalette) :
  asPresetPalette (colorPaletteName preset) = preset.
Proof. now destruct preset. Qed.



End AppearanceProviderTheorems.
Module AuthProviderTheorems.

Import AuthContext AuthContextFacts AuthProvider PrivateRoute.
Local Open Scope nat_scope.
Local Open Scope list_scope.

(** The event is not the settlement of the request of promise [promise]. *)
Definition leavesPending (promise : nat) (e : event) : Prop :=
  match e with
  | MeSettled p _ => p <> promise
  | _ => True
  end.

(** The provider while the first request is in flight. *)
Record starting (p : Provider) : Prop := {
  starting_loading : isLoading p = true;
  starting_checking : checkingAuth p = Some 0;
  starting_handle : inFlightRefreshRef (session p) = Some 0;
  starting_request : meRequests (session p) = [0];
  starting_issued : meRequestsIssued (session p) = 1;
  starting_unobserved : observations (session p) = [];
  starting_caller :
    {| callerId := 0; awaited := 0; options := None; startedRequest := true |}
    ∈ callers (session p);
  starting_share : forall c, c ∈ callers (session p) -> awaited c = 0;
}.

Lemma starting_mounted : starting mounted.
Proof.
  split; try reflexivity.
  - cbn. apply list_elem_of_here.
  - intros c Hc. cbn in Hc. apply list_elem_of_singleton in Hc. now subst c.
Qed.

Lemma starting_step (p : Provider) (e : event) :
  starting p -> leavesPending 0 e -> starting (providerStep p e).
Proof.
  intros [Hloading Hchecking Hhandle Hrequest Hissued Hunobserved Hcaller Hshare] Hpending.
  assert (Hquiet : observations (step (session p) e) = [] ->
                   providerStep p e
                   = {| session := step (session p) e; isLoading := true;
                        checkingAuth := Some 0 |}).
  { intros Hnone. unfold providerStep, hasSettled.
    rewrite Hchecking, Hnone, Hloading. reflexivity. }
  destruct e as [options|promise reply|next]; cbn [step leavesPending] in *.
  - assert (Hnone : observations (refreshUser options (session p)) = [])
      by (rewrite (refreshUser_attaches options _ 0 Hhandle); exact Hunobserved).
    rewrite (Hquiet Hnone). rewrite (refreshUser_attaches options _ 0 Hhandle).
    split; cbn [session isLoading checkingAuth attach inFlightRefreshRef meRequests
                meRequestsIssued observations callers]; try assumption; try reflexivity.
    + apply elem_of_app. now left.
    + intros c Hc. apply elem_of_app in Hc as [Hc|Hc]; [now apply Hshare|].
      apply list_elem_of_singleton in Hc. now subst c.
  - assert (Hsame : meSettled promise reply (session p) = session p).
    { unfold meSettled. rewrite Hrequest.
      rewrite bool_decide_eq_false_2; [reflexivity|].
      intros Hin. apply list_elem_of_singleton in Hin. contradiction. }
    rewrite Hsame in *. rewrite (Hquiet Hunobserved).
    split; cbn [session isLoading checkingAuth]; try assumption; reflexivity.
  - rewrite (Hquiet Hunobserved).
    split; cbn [session isLoading checkingAuth setUser inFlightRefreshRef meRequests
                meRequestsIssued observations callers]; try assumption; reflexivity.
Qed.

Lemma starting_run (events : list event) (p : Provider) :
  starting p -> Forall (leavesPending 0) events -> starting (runProvider events p).
Proof.
  revert p. induction events as [|e events IH]; intros p Hstarting Hpending; [exact Hstarting|].
  apply Forall_cons in Hpending as [He Hrest].
  cbn [runProvider fold_left]. apply IH; [|exact Hrest]. now apply starting_step.
Qed.

Lemma settled_stays (events : list event) (p : Provider) :
  isLoading p = false -> checkingAuth p = None ->
  isLoading (runProvider events p) = false /\ checkingAuth (runProvider events p) = None.
Proof.
  revert p. induction events as [|e events IH]; intros p Hloading Hchecking; [now split|].
  cbn [runProvider fold_left]. apply IH; unfold providerStep; now rewrite Hchecking.
Qed.

Lemma starting_coherent (p : Provider) : starting p -> coherentSession (session p).
Proof.
  intros Hstarting. split.
  - rewrite (starting_request _ Hstarting), (starting_handle _ Hstarting). reflexivity.
  - intros c Hc. rewrite (starting_handle _ Hstarting).
    now rewrite (starting_share _ Hstarting c Hc).
Qed.

(** What the start-up call sees when the first request settles: its promise
    resolves, never rejects. *)
Definition startupObservation (reply : meReply) : observation :=
  {| observer := 0; result := Resolved; userSeen := userAfter reply |}.

Lemma starting_settles (p : Provider) (reply : meReply) :
  starting p ->
  let settled := providerStep p (MeSettled 0 reply) in
  isLoading settled = false /\ checkingAuth settled = None /\
  user (session settled) = userAfter reply /\
  inFlightRefreshRef (session settled) = None /\
  meRequestsIssued (session settled) = 1 /\
  startupObservation reply ∈ observations (session settled).
Proof.
  intros Hstarting. cbv zeta.
  destruct (meSettled_handle (session p) 0 reply (starting_coherent p Hstarting)
              (starting_handle _ Hstarting))
    as (Huser & Hhandle & _ & Hissued & _ & _ & Hobservations).
  assert (Hseen : startupObservation reply ∈ observations (meSettled 0 reply (session p))).
  { rewrite Hobservations. apply elem_of_app. left.
    apply list_elem_of_In, in_rev. rewrite rev_involutive. apply list_elem_of_In.
    apply list_elem_of_fmap.
    exists {| callerId := 0; awaited := 0; options := None; startedRequest := true |}.
    split; [|exact (starting_caller _ Hstarting)].
    unfold startupObservation, seenBy. cbn [callerId options]. f_equal.
    now destruct reply. }
  assert (Hsettled : hasSettled 0 (meSettled 0 reply (session p)) = true).
  { unfold hasSettled. apply existsb_exists. exists (startupObservation reply).
    split; [now apply list_elem_of_In | reflexivity]. }
  unfold providerStep. rewrite (starting_checking _ Hstarting). cbn [step].
  rewrite Hsettled. cbn [isLoading checkingAuth session].
  rewrite Huser, Hhandle, Hissued, (starting_issued _ Hstarting).
  repeat split. exact Hseen.
Qed.

(** X14.  Start-up.  From the mount until the first [GET /auth/me] settles,
    whatever else is called, the provider is loading, that request is the
    only one issued, and a private route shows the spinner and does not
    redirect.  When the request settles, with a user or with a failure,
    loading ends and the start-up call resolves; the route then shows its
    children for a user and navigates to the log-in route (or the route
    given) for a failure.  Loading never starts again. *)
Theorem app_start_settles_loading
    (before after : list event) (reply : meReply) (props : PrivateRouteProps) :
  Forall (leavesPending 0) before ->
  let waiting := runProvider before mounted in
  let settled := providerStep waiting (MeSettled 0 reply) in
  (isLoading waiting = true /\
   meRequestsIssued (session waiting) = 1 /\
   PrivateRoute props waiting = Spinner (default "Loading" (loadingLabel props))) /\
  (isLoading settled = false /\
   user (session settled) = userAfter reply /\
   meRequestsIssued (session settled) = 1 /\
   startupObservation reply ∈ observations (session settled) /\
   PrivateRoute props settled
   = match reply with
     | MeOk _ => Children
     | MeFailed _ => Navigate (default "/auth/log-in" (redirectTo props))
     end) /\
  (isLoading (runProvider after settled) = false /\
   PrivateRoute props (runProvider after settled)
   = if isLoggedIn (runProvider after settled)
     then Children
     else Navigate (default "/auth/log-in" (redirectTo props))).
Proof.
  intros Hpending. cbv zeta.
  pose proof (starting_run before mounted starting_mounted Hpending) as Hwaiting.
  destruct (starting_settles _ reply Hwaiting)
    as (Hloading & Hchecking & Huser & _ & Hissued & Hseen).
  split; [|split].
  - split; [exact (starting_loading _ Hwaiting)|].
    split; [exact (starting_issued _ Hwaiting)|].
    unfold PrivateRoute. now rewrite (starting_loading _ Hwaiting).
  - split; [exact Hloading|]. split; [exact Huser|]. split; [exact Hissued|].
    split; [exact Hseen|].
    unfold PrivateRoute, isLoggedIn. rewrite Hloading, Huser. now destruct reply.
  - destruct (settled_stays after _ Hloading Hchecking) as [Hstill _].
    split; [exact Hstill|]. unfold PrivateRoute. rewrite Hstill.
    now destruct (isLoggedIn _).
Qed.

Definition expiredSession : HttpClient.AxiosError :=
  {| HttpClient.config := Some {| HttpClient.url := Some "/auth/me";
                                  HttpClient._retry := true |};
     HttpClient.status := Some 401%Z |}.

Definition defaultProps : PrivateRouteProps :=
  {| redirectTo := None; loadingLabel := None |}.

Lemma app_start_settles_loading_witness :
  PrivateRoute defaultProps
    (runProvider [RefreshUser None; SetUser None] mounted) = Spinner "Loading" /\
  PrivateRoute defaultProps
    (providerStep (runProvider [RefreshUser None; SetUser None] mounted)
       (MeSettled 0 (MeFailed expiredSession)))
  = Navigate "/auth/log-in".
Proof.
  destruct (app_start_settles_loading [RefreshUser None; SetUser None] []
              (MeFailed expiredSession) defaultProps)
    as ((_ & _ & Hspinner) & (_ & _ & _ & _ & Hroute) & _).
  - repeat (apply Forall_cons; split; [exact I|]). apply Forall_nil. exact I.
  - split; [exact Hspinner | exact Hroute].
Defined.

End AuthProviderTheorems.

(** ** The HTTP client: what does not refresh, and a full recovery *)

Module HttpClientRecovery.

Import JsString HttpClient HttpClientFacts HttpClientTheorems.
Local Open Scope nat_scope.
Local Open Scope list_scope.

(** The answer is a 401 response. *)
Definition isUnauthorized (a : answer) : bool :=
  match a with
  | BadStatus code => (code =? 401)%Z
  | _ => false
  end.

Definition answersUnauthorized (e : event) : bool :=
  match e with
  | Answered _ a => isUnauthorized a
  | Request _ => false
  end.

Lemma onRejected_other_status (error : AxiosError) :
  status error <> Some 401%Z -> onRejected error = Rethrow error.
Proof.
  intros Hstatus. unfold onRejected.
  destruct (config error) as [sent|]; [|reflexivity].
  now rewrite bool_decide_eq_false_2.
Qed.

Lemma errorOf_unauthorized (a : answer) (sent : RetryableRequestConfig) :
  status (errorOf a sent) = Some 401%Z -> isUnauthorized a = true.
Proof.
  destruct a as [|code| |]; cbn; try discriminate.
  intros [= ->]. reflexivity.
Qed.

Lemma settleRefresh_log (t : nat) (result : settlement) (st : Client) :
  refreshPostsSent (settleRefresh t result st) = refreshPostsSent st.
Proof.
  unfold settleRefresh. destruct result as [|error].
  - match goal with
    | |- context [fold_left (fun acc w => resume Resolved w acc) ?ws ?s] =>
        destruct (resume_all_resolved ws s) as (_ & _ & _ & Hlog)
    end.
    unfold refreshPostsSent. rewrite Hlog. now rewrite refreshPostsSent_app_calls.
  - match goal with
    | |- context [fold_left (fun acc w => resume (Rejected ?e) w acc) ?ws ?s] =>
        destruct (resume_all_rejected e ws s) as (_ & _ & _ & Hlog & _)
    end.
    unfold refreshPostsSent. now rewrite Hlog.
Qed.

Ltac same_log :=
  unfold refreshPostsSent;
  cbn [adapterLog settleCall setWire setWaiting setInFlight];
  lia.

(** One answer sends at most one refresh POST, and only when it is a 401. *)
Lemma answered_refresh_posts (t : nat) (a : answer) (st : Client) :
  refreshPostsSent (answered t a st)
  <= refreshPostsSent st + (if isUnauthorized a then 1 else 0).
Proof.
  unfold answered. destruct (takeFlight t (wire st)) as [f|]; [|lia].
  destruct (sender f) as [call sent|].
  - destruct (isUnauthorized a) eqn:Hunauthorized.
    + destruct a; try discriminate Hunauthorized.
      destruct (onRejected _) as [error|requestConfig]; [same_log|].
      unfold refreshAccessToken. cbn [inFlightRefreshPromise setWire].
      destruct (inFlightRefreshPromise st); [same_log|].
      unfold refreshPostsSent. cbn [adapterLog setWaiting setInFlight dispatch setWire].
      rewrite filter_cons_True by reflexivity. cbn [length]. lia.
    + assert (Hgate : a = Fulfilled
                      \/ onRejected (errorOf a sent) = Rethrow (errorOf a sent)).
      { destruct a as [|code| |]; [now left|right..].
        - apply onRejected_other_status. cbn. intros [= ->]. discriminate Hunauthorized.
        - apply onRejected_other_status. discriminate.
        - apply onRejected_no_config. reflexivity. }
      destruct Hgate as [->|Hgate]; [same_log|].
      destruct a; [same_log | rewrite Hgate; same_log ..].
  - assert (Hsame : forall result,
               refreshPostsSent (settleRefresh t result (setWire (dropFlight t (wire st)) st))
               = refreshPostsSent st)
      by (intros result; now rewrite settleRefresh_log).
    destruct a; try rewrite refreshPost_rethrown; rewrite Hsame; lia.
Qed.

Lemma refreshPosts_bounded (events : list event) :
  refreshPostsSent (run events) <= length (List.filter answersUnauthorized events).
Proof.
  unfold run. induction events as [|e events IH] using rev_ind; [cbn; lia|].
  rewrite fold_left_app, List.filter_app, length_app. cbn [fold_left].
  destruct e as [requestConfig|t a]; cbn [step List.filter answersUnauthorized].
  - unfold request. rewrite refreshPostsSent_dispatch. cbn [isRefresh length]. lia.
  - pose proof (answered_refresh_posts t a (fold_left step events initial)) as Hstep.
    destruct (isUnauthorized a); cbn [length]; lia.
Qed.

(** A client that never saw a 401: nothing refreshes, nothing waits, and
    every call was handed to the adapter once. *)
Record calm (st : Client) : Prop := {
  calm_handle : inFlightRefreshPromise st = None;
  calm_waiting : waiting st = [];
  calm_posts : refreshPostsSent st = 0;
  calm_wire : forall f, f ∈ wire st -> sender f <> RefreshPost;
  calm_fresh : forall call, 0 < timesSent call st -> call < nextId st;
  calm_once : forall call, timesSent call st <= 1;
}.

Lemma calm_initial : calm initial.
Proof.
  split; try reflexivity.
  - intros f Hf. now apply elem_of_nil in Hf.
  - cbn. lia.
  - intros call. cbn. lia.
Qed.

Lemma calm_request (requestConfig : RetryableRequestConfig) (st : Client) :
  calm st -> calm (request requestConfig st).
Proof.
  intros [Hhandle Hwaiting Hposts Hwire Hfresh Honce]. unfold request.
  split; cbn [inFlightRefreshPromise waiting wire nextId dispatch].
  - exact Hhandle.
  - exact Hwaiting.
  - rewrite refreshPostsSent_dispatch. cbn [isRefresh]. lia.
  - intros f Hf. apply elem_of_app in Hf as [Hf|Hf]; [now apply Hwire|].
    apply list_elem_of_singleton in Hf. subst f. discriminate.
  - intros call. rewrite timesSent_dispatch. cbn [isFor].
    destruct (Nat.eqb_spec (nextId st) call) as [<-|Hne]; [lia|].
    intros Hsent. specialize (Hfresh call). lia.
  - intros call. rewrite timesSent_dispatch. cbn [isFor].
    destruct (Nat.eqb_spec (nextId st) call) as [<-|Hne]; [|apply Honce].
    destruct (timesSent (nextId st) st) eqn:Hsent; [lia|].
    specialize (Hfresh (nextId st)). lia.
Qed.

Lemma calm_answered (t : nat) (a : answer) (st : Client) :
  calm st -> isUnauthorized a = false -> calm (answered t a st).
Proof.
  intros Hcalm Hquiet. pose proof Hcalm as [Hhandle Hwaiting Hposts Hwire Hfresh Honce].
  unfold answered. destruct (takeFlight t (wire st)) as [f|] eqn:Htake; [|exact Hcalm].
  apply takeFlight_elem in Htake as [Hin _].
  destruct (sender f) as [call sent|] eqn:Hsender; [|now apply Hwire in Hin].
  assert (Hsettled : forall result,
             calm (settleCall call result (setWire (dropFlight t (wire st)) st))).
  { intros result. split; cbn [inFlightRefreshPromise waiting wire nextId settleCall setWire];
      try assumption.
    intros g Hg. unfold dropFlight in Hg. apply list_elem_of_filter in Hg as [_ Hg].
    now apply Hwire. }
  destruct a as [|code| |]; [apply Hsettled|..].
  - rewrite onRejected_other_status; [apply Hsettled|].
    cbn. intros [= ->]. discriminate Hquiet.
  - rewrite onRejected_other_status; [apply Hsettled | discriminate].
  - rewrite onRejected_no_config; [apply Hsettled | reflexivity].
Qed.

Lemma calm_run (events : list event) :
  Forall (fun e => answersUnauthorized e = false) events -> calm (run events).
Proof.
  unfold run. induction events as [|e events IH] using rev_ind; intros Hquiet;
    [exact calm_initial|].
  apply Forall_app in Hquiet as [Hbefore He].
  apply Forall_cons in He as [He _].
  rewrite fold_left_app. cbn [fold_left].
  destruct e as [requestConfig|t a]; cbn [step].
  - apply calm_request. now apply IH.
  - apply calm_answered; [now apply IH | exact He].
Qed.

(** X15.  Only a 401 leads to a refresh.  A failure with another status, or
    with no response at all, goes back to the caller as it is.  Over a whole
    run the client has sent at most as many refresh POSTs as it got 401
    answers; in a run without any it has sent none, holds no refresh
    promise, keeps nothing waiting, and has handed every call to the adapter
    at most once. *)
Theorem only_unauthorized_answers_refresh :
  (forall error, status error <> Some 401%Z -> onRejected error = Rethrow error) /\
  (forall events,
      refreshPostsSent (run events) <= length (List.filter answersUnauthorized events)) /\
  (forall events,
      Forall (fun e => answersUnauthorized e = false) events ->
      refreshPostsSent (run events) = 0 /\
      inFlightRefreshPromise (run events) = None /\
      waiting (run events) = [] /\
      forall call, timesSent call (run events) <= 1).
Proof.
  split; [exact onRejected_other_status|].
  split; [exact refreshPosts_bounded|].
  intros events Hquiet. destruct (calm_run events Hquiet) as [H1 H2 H3 _ _ H6].
  repeat split; assumption.
Qed.

Definition reportRequest : RetryableRequestConfig :=
  {| url := Some "/reports"; _retry := false |}.

Lemma only_unauthorized_answers_refresh_witness :
  refreshPostsSent
    (run [Request reportRequest; Answered 0 (BadStatus 500); Request reportRequest;
          Answered 1 NetworkError]) = 0 /\
  outcomes
    (run [Request reportRequest; Answered 0 (BadStatus 500); Request reportRequest;
          Answered 1 NetworkError])
  = [ (1, Rejected (errorOf NetworkError reportRequest));
      (0, Rejected (errorOf (BadStatus 500) reportRequest)) ].
Proof.
  destruct only_unauthorized_answers_refresh as (_ & _ & Hquiet).
  destruct (Hquiet [Request reportRequest; Answered 0 (BadStatus 500);
                    Request reportRequest; Answered 1 NetworkError]) as (Hposts & _).
  - repeat (apply Forall_cons; split; [reflexivity|]). apply Forall_nil. exact I.
  - split; [exact Hposts|]. vm_compute. reflexivity.
Defined.

(** *** One request through an expired session *)

Lemma takeFlight_end (t : nat) (flights : list flight) (f : flight) :
  (forall g, g ∈ flights -> ticket g <> t) -> ticket f = t ->
  takeFlight t (flights ++ [f]) = Some f.
Proof.
  intros Hfresh Hticket. unfold takeFlight.
  induction flights as [|g flights IH]; cbn [app find].
  - rewrite Hticket, Nat.eqb_refl. reflexivity.
  - destruct (Nat.eqb_spec (ticket g) t) as [Heq|_].
    + exfalso. apply (Hfresh g); [now left | exact Heq].
    + apply IH. intros h Hh. apply Hfresh. now right.
Qed.

Lemma dropFlight_end (t : nat) (flights : list flight) (f : flight) :
  (forall g, g ∈ flights -> ticket g <> t) -> ticket f = t ->
  dropFlight t (flights ++ [f]) = flights.
Proof.
  intros Hfresh Hticket. unfold dropFlight.
  rewrite filter_app, filter_cons_False, filter_nil, app_nil_r
    by (intros Hne; now apply Hne).
  apply filter_keeps_all. exact Hfresh.
Qed.

(** The settlement of a call by the answer to its request marked [_retry]. *)
Definition retrySettlement (a : answer) (retried : RetryableRequestConfig) : settlement :=
  match a with
  | Fulfilled => Resolved
  | _ => Rejected (errorOf a retried)
  end.

(** The four steps: the request, its 401, the answer to the refresh POST,
    the answer to the retry. *)
Definition throughExpiredSession (requestConfig : RetryableRequestConfig)
    (refreshAnswer retryAnswer : answer) (st : Client) : Client :=
  let t := nextId st in
  let st := request requestConfig st in
  let st := answered t (BadStatus 401) st in
  let st := answered (S t) refreshAnswer st in
  answered (S (S t)) retryAnswer st.

Section Recovery.

Variable st : Client.
Variable requestConfig : RetryableRequestConfig.

Hypothesis Hco : coherent [] st.
Hypothesis Hnone : inFlightRefreshPromise st = None.
Hypothesis Hgate :
  onRejected (errorOf (BadStatus 401) requestConfig)
  = RefreshThenRetry {| url := url requestConfig; _retry := true |}.

Let t := nextId st.
Let retried := {| url := url requestConfig; _retry := true |}.

(** The client while the refresh is in flight. *)
Definition refreshing : Client :=
  {| inFlightRefreshPromise := Some (S t);
     wire := wire st ++ [ {| ticket := S t; sender := RefreshPost |} ];
     waiting := [ {| awaited := S t; forCall := t; retryConfig := retried;
                     originalError := errorOf (BadStatus 401) requestConfig |} ];
     adapterLog := RefreshPost :: FromApplication t requestConfig :: adapterLog st;
     outcomes := outcomes st;
     nextId := S (S t) |}.

(** The client while the retry is in flight. *)
Definition retrying : Client :=
  {| inFlightRefreshPromise := None;
     wire := wire st ++ [ {| ticket := S (S t); sender := FromApplication t retried |} ];
     waiting := [];
     adapterLog := FromApplication t retried :: RefreshPost
                   :: FromApplication t requestConfig :: adapterLog st;
     outcomes := outcomes st;
     nextId := S (S (S t)) |}.

Definition recovered (result : settlement) : Client :=
  {| inFlightRefreshPromise := None;
     wire := wire st;
     waiting := [];
     adapterLog := FromApplication t retried :: RefreshPost
                   :: FromApplication t requestConfig :: adapterLog st;
     outcomes := (t, result) :: outcomes st;
     nextId := S (S (S t)) |}.

Lemma wire_older (n : nat) (g : flight) : g ∈ wire st -> ticket g <> n + t.
Proof. intros Hg. pose proof (tickets_fresh _ _ Hco g Hg). subst t. lia. Qed.

Lemma expired_starts_refresh :
  answered t (BadStatus 401) (request requestConfig st) = refreshing.
Proof.
  unfold answered, request. cbn [wire dispatch]. fold t.
  rewrite (takeFlight_end t (wire st)) by (first [exact (wire_older 0) | reflexivity]).
  rewrite (dropFlight_end t (wire st)) by (first [exact (wire_older 0) | reflexivity]).
  cbn [sender]. rewrite Hgate.
  unfold refreshAccessToken. cbn [inFlightRefreshPromise setWire dispatch]. rewrite Hnone.
  cbn [nextId setWire dispatch waiting setInFlight].
  rewrite (coherent_no_waiters st Hco Hnone). reflexivity.
Qed.

Lemma refreshed_retries : answered (S t) Fulfilled refreshing = retrying.
Proof.
  unfold answered, refreshing. cbn [wire].
  rewrite (takeFlight_end (S t) (wire st)) by (first [exact (wire_older 1) | reflexivity]).
  rewrite (dropFlight_end (S t) (wire st)) by (first [exact (wire_older 1) | reflexivity]).
  cbn [sender]. unfold settleRefresh.
  cbn [waiting setWaiting setInFlight setWire].
  rewrite filter_cons_True by reflexivity.
  rewrite filter_cons_False by (intros Hne; now apply Hne).
  rewrite !filter_nil. reflexivity.
Qed.

Lemma retry_settles (retryAnswer : answer) :
  answered (S (S t)) retryAnswer retrying
  = recovered (retrySettlement retryAnswer retried).
Proof.
  unfold answered, retrying. cbn [wire].
  rewrite (takeFlight_end (S (S t)) (wire st))
    by (first [exact (wire_older 2) | reflexivity]).
  rewrite (dropFlight_end (S (S t)) (wire st))
    by (first [exact (wire_older 2) | reflexivity]).
  cbn [sender].
  destruct retryAnswer as [|code| |]; cbn [retrySettlement].
  - reflexivity.
  - rewrite (onRejected_already_retried _ retried) by reflexivity. reflexivity.
  - rewrite (onRejected_already_retried _ retried) by reflexivity. reflexivity.
  - rewrite onRejected_no_config by reflexivity. reflexivity.
Qed.

Lemma refused_refresh_rejects (refreshAnswer : answer) :
  refreshAnswer <> Fulfilled ->
  answered (S t) refreshAnswer refreshing
  = {| inFlightRefreshPromise := None;
       wire := wire st;
       waiting := [];
       adapterLog := RefreshPost :: FromApplication t requestConfig :: adapterLog st;
       outcomes := (t, Rejected (errorOf refreshAnswer refreshRequest)) :: outcomes st;
       nextId := S (S t) |}.
Proof.
  intros Hfailed. unfold answered, refreshing. cbn [wire].
  rewrite (takeFlight_end (S t) (wire st)) by (first [exact (wire_older 1) | reflexivity]).
  rewrite (dropFlight_end (S t) (wire st)) by (first [exact (wire_older 1) | reflexivity]).
  cbn [sender]. rewrite refreshPost_rethrown.
  destruct refreshAnswer; [congruence|..];
    unfold settleRefresh; cbn [waiting setWaiting setInFlight setWire];
    rewrite filter_cons_True by reflexivity;
    rewrite filter_cons_False by (intros Hne; now apply Hne);
    rewrite !filter_nil; reflexivity.
Qed.

End Recovery.

Lemma onRejected_passes (requestConfig : RetryableRequestConfig) :
  _retry requestConfig = false ->
  includes (default EmptyString (url requestConfig)) "/auth/log-in" = false ->
  includes (default EmptyString (url requestConfig)) "/auth/refresh" = false ->
  onRejected (errorOf (BadStatus 401) requestConfig)
  = RefreshThenRetry {| url := url requestConfig; _retry := true |}.
Proof.
  intros Hretry Hlogin Hrefresh. unfold onRejected, errorOf.
  cbn [config status mbind option_bind].
  rewrite Hretry. rewrite bool_decide_eq_true_2 by reflexivity.
  destruct (url requestConfig) as [address|]; cbn [default from_option id] in *;
    now rewrite Hlogin, Hrefresh.
Qed.

(** X16.  One request through an expired session, from any state the client
    can reach with no refresh in flight.  A request that is not marked and
    does not go to the log-in or refresh path is answered 401: one refresh
    POST goes out.  When the refresh succeeds the request is sent again,
    marked, and the caller gets what the retry gets: its response, or its
    failure as it is, with no further refresh even for another 401; the
    adapter was called three times in all, twice for the call.  When the
    refresh fails the caller gets the failure of the refresh and the request
    is not sent again.  Either way the wire, the waiting list and the handle
    are as before. *)
Theorem expired_session_is_recovered
    (events : list event) (requestConfig : RetryableRequestConfig)
    (refreshAnswer retryAnswer : answer) :
  let st := run events in
  let t := nextId st in
  let retried := {| url := url requestConfig; _retry := true |} in
  inFlightRefreshPromise st = None ->
  _retry requestConfig = false ->
  includes (default EmptyString (url requestConfig)) "/auth/log-in" = false ->
  includes (default EmptyString (url requestConfig)) "/auth/refresh" = false ->
  (let after := throughExpiredSession requestConfig Fulfilled retryAnswer st in
   outcomes after = (t, retrySettlement retryAnswer retried) :: outcomes st /\
   adapterLog after
   = FromApplication t retried :: RefreshPost :: FromApplication t requestConfig
     :: adapterLog st /\
   timesSent t after = 2 /\
   refreshPostsSent after = S (refreshPostsSent st) /\
   wire after = wire st /\ waiting after = [] /\ inFlightRefreshPromise after = None) /\
  (refreshAnswer <> Fulfilled ->
   let failed :=
     answered (S t) refreshAnswer (answered t (BadStatus 401) (request requestConfig st)) in
   outcomes failed = (t, Rejected (errorOf refreshAnswer refreshRequest)) :: outcomes st /\
   timesSent t failed = 1 /\
   refreshPostsSent failed = S (refreshPostsSent st) /\
   wire failed = wire st /\ waiting failed = [] /\ inFlightRefreshPromise failed = None).
Proof.
  cbv zeta. intros Hnone Hretry Hlogin Hrefresh.
  pose proof (coherent_run events) as Hco.
  pose proof (onRejected_passes requestConfig Hretry Hlogin Hrefresh) as Hgate.
  assert (Hunsent : timesSent (nextId (run events)) (run events) = 0).
  { destruct (timesSent (nextId (run events)) (run events)) eqn:Hsent; [reflexivity|].
    pose proof (calls_fresh _ _ Hco (nextId (run events))) as Hfresh. lia. }
  split.
  - unfold throughExpiredSession.
    rewrite (expired_starts_refresh _ _ Hco Hnone Hgate).
    rewrite (refreshed_retries _ _ Hco), (retry_settles _ _ Hco).
    unfold recovered, timesSent, refreshPostsSent in *.
    cbn [outcomes adapterLog wire waiting inFlightRefreshPromise].
    split; [reflexivity|]. split; [reflexivity|].
    split; [|split; [|repeat split]].
    + rewrite filter_cons_True by (cbn; now rewrite Nat.eqb_refl).
      rewrite filter_cons_False by (cbn; discriminate).
      rewrite filter_cons_True by (cbn; now rewrite Nat.eqb_refl).
      cbn [length]. now rewrite Hunsent.
    + rewrite filter_cons_False by (cbn; discriminate).
      rewrite filter_cons_True by reflexivity.
      rewrite filter_cons_False by (cbn; discriminate).
      reflexivity.
  - intros Hfailed. rewrite (expired_starts_refresh _ _ Hco Hnone Hgate).
    rewrite (refused_refresh_rejects _ _ Hco _ Hfailed).
    unfold timesSent, refreshPostsSent in *.
    cbn [outcomes adapterLog wire waiting inFlightRefreshPromise].
    split; [reflexivity|]. split; [|split; [|repeat split]].
    + rewrite filter_cons_False by (cbn; discriminate).
      rewrite filter_cons_True by (cbn; now rewrite Nat.eqb_refl).
      cbn [length]. now rewrite Hunsent.
    + rewrite filter_cons_True by reflexivity.
      rewrite filter_cons_False by (cbn; discriminate).
      reflexivity.
Qed.

Lemma expired_session_is_recovered_witness :
  outcomes (throughExpiredSession reportRequest Fulfilled Fulfilled (run []))
  = [ (0, Resolved) ] /\
  length (adapterLog (throughExpiredSession reportRequest Fulfilled Fulfilled (run []))) = 3 /\
  outcomes (throughExpiredSession reportRequest Fulfilled (BadStatus 401) (run []))
  = [ (0, Rejected (errorOf (BadStatus 401) {| url := Some "/reports"; _retry := true |})) ].
Proof.
  destruct (expired_session_is_recovered [] reportRequest NetworkError Fulfilled
              eq_refl eq_refl eq_refl eq_refl) as ((Houtcomes & Hlog & _) & _).
  destruct (expired_session_is_recovered [] reportRequest NetworkError (BadStatus 401)
              eq_refl eq_refl eq_refl eq_refl) as ((Hagain & _) & _).
  split; [exact Houtcomes|]. split; [rewrite Hlog; reflexivity | exact Hagain].
Defined.

End HttpClientRecovery.

Module FormTheorems.

Import Errors NotificationContext UseForm UseFormMutation.
Local Open Scope list_scope.

Lemma parse_app (before : list FieldError) (error : FieldError) :
  parseValidationErrors {| Errors.errors := before ++ [error] |}
  = assign (parseValidationErrors {| Errors.errors := before |}) error.
Proof. unfold parseValidationErrors. cbn [Errors.errors]. now rewrite fold_left_app. Qed.

(** X17.  [parseValidationErrors] keeps, for every field, the message of the
    last error of that field, and has no entry for a field without an error;
    an error for [__proto__] leaves no entry at all. *)
Theorem parseValidationErrors_last_wins (response : ValidationErrorResponse) (name : string) :
  (name <> "__proto__" ->
   parseValidationErrors response !! name
   = Errors.message <$> last (filter (fun e => field e = name) (Errors.errors response))) /\
  parseValidationErrors response !! "__proto__" = None.
Proof.
  destruct response as [fieldErrors].
  induction fieldErrors as [|error before IH] using rev_ind.
  - split; [intros _|]; reflexivity.
  - destruct IH as [IHname IHproto]. rewrite parse_app. unfold assign.
    cbn [Errors.errors] in *. split.
    + intros Hname. specialize (IHname Hname). rewrite filter_app.
      destruct (String.eqb_spec (field error) "__proto__") as [Hproto|_].
      * rewrite filter_cons_False by congruence.
        rewrite filter_nil, app_nil_r. exact IHname.
      * destruct (decide (field error = name)) as [Heq|Hne].
        -- rewrite filter_cons_True by exact Heq. rewrite filter_nil, last_snoc.
           rewrite Heq. now rewrite lookup_insert_eq.
        -- rewrite filter_cons_False by exact Hne. rewrite filter_nil, app_nil_r.
           rewrite lookup_insert_ne by exact Hne. exact IHname.
    + destruct (String.eqb_spec (field error) "__proto__") as [_|Hne]; [exact IHproto|].
      rewrite lookup_insert_ne by exact Hne. exact IHproto.
Qed.

Lemma parseValidationErrors_last_wins_witness :
  parseValidationErrors
    {| Errors.errors := [ {| field := "email"; Errors.message := "Invalid email" |};
                          {| field := "email"; Errors.message := "Email already exists" |} ] |}
  !! "email" = Some "Email already exists".
Proof.
  destruct (parseValidationErrors_last_wins
              {| Errors.errors :=
                   [ {| field := "email"; Errors.message := "Invalid email" |};
                     {| field := "email"; Errors.message := "Email already exists" |} ] |}
              "email") as [Hlast _].
  rewrite Hlast by discriminate. reflexivity.
Defined.

(** A page wires the [onError] option to [setErrors]: the form and the
    notifications after a failed mutation. *)
Definition mutationFailed {V} (fallbackError : string) (env : Environment)
    (error : MutationError) (form : Form V) (shown : list Notification)
  : Form V * list Notification :=
  let reaction := onError true fallbackError env error shown in
  (match handedOver reaction with
   | Some errors => setErrors errors form
   | None => form
   end,
   notifications reaction).

Lemma removeNotification_absent (id : string) (shown : list Notification) :
  id ∉ NotificationContext.id <$> shown -> removeNotification id shown = shown.
Proof.
  intros Habsent. unfold removeNotification.
  apply HttpClientFacts.filter_keeps_all.
  intros n Hn Heq. apply Habsent. rewrite <- Heq. now apply list_elem_of_fmap_2.
Qed.


Definition emailForm : Form string := initialForm {[ "email" := "demo@example" ]}.

Definition someEnvironment : Environment :=
  {| randomUUID := Normal "0b9d4a1e-5c1f-4f7e-9a57-2f6c3d1e8b42"; now := 1700000000000;
     randomSuffix := "k3j9x0aq" |}.


End FormTheorems.
